(** * Wait-page progress derivation: log lines to stage and item states

    A shallow embedding of [scripts/comfy_wait_page.py] and
    [scripts/ai_toolkit_wait_page.py], and the properties of the stage
    report, the item statuses, the tail reader and the manifest cache.

    Conventions of the embedding.
    - A Python [str] is a [string]; a character stands for the code point
      with the same number, so the lines covered are those over code
      points 0..255.  On that range the patterns of the scripts, which
      are ASCII and compiled with [re.I], fold exactly the letters A-Z,
      [\s] and [str.strip] agree on the set [is_space] below, and [.]
      excludes only the line feed.  Above it the scripts behave otherwise:
      [re.I] lets "i" match U+0130 and U+0131, "s" match U+017F and "k"
      match U+212A, and [str.lower] turns U+0130 into two characters.
    - A compiled pattern is a value of [regex]; [re_search] is
      [pattern.search]: leftmost start, ordered alternation, greedy
      repetition with backtracking, captured groups in closing order.
    - Status strings are the constructors of [status_value].
    - Module globals read from the process environment ([ENV_INFO]) and
      the definition tables are arguments of the functions that use them;
      the tables of the source are given as constants after them.
    - [_apply_backup_progress] assigns entries of the dicts it is given.
      It is written once, over what it does with its argument, and run
      on dicts held by value and on references into a store of dicts;
      [build_backup_state] and the cache live on the store.
    - An exception left uncaught is an outcome of the call.
    - [Backup] takes the manifest as the parser's value when it is a
      mapping whose sections are mappings with str keys.  [Manifest]
      writes the loader over every value the parser can return, with the
      exceptions the loader then leaves uncaught, and is the loader of
      [Backup] on the former.

    Layout: the two scripts, the properties, then the facts and the
    theorems. *)

From Stdlib Require Import Ascii ZArith.
From Stdlib Require String DecimalString.
From stdpp Require Import base option list gmap strings fin_maps.

Local Open Scope Z_scope.
Local Open Scope nat_scope.

(** ** Characters and strings *)

Module Str.

(** Code point of a character. *)
Definition code (c : ascii) : nat := nat_of_ascii c.

(** [str.isspace] on one character: TAB, LF, VT, FF, CR, FS, GS, RS, US,
    SPACE, NEL (0x85), NBSP (0xA0). *)
Definition is_space (c : ascii) : bool :=
  let n := code c in
  ((9 <=? n) && (n <=? 13)) || ((28 <=? n) && (n <=? 32))
  || (n =? 133) || (n =? 160).

(** [str.lower] on one character: A-Z, and the capitals 0xC0..0xDE
    except the multiplication sign 0xD7. *)
Definition lower_char (c : ascii) : ascii :=
  let n := code c in
  if ((65 <=? n) && (n <=? 90))
     || ((192 <=? n) && (n <=? 222) && negb (n =? 215))
  then ascii_of_nat (n + 32) else c.

Fixpoint lower (s : string) : string :=
  match s with
  | EmptyString => EmptyString
  | String c s' => String (lower_char c) (lower s')
  end.

(** [s.lstrip()] / [s.rstrip(chars)] / [s.strip()], the stripped set
    given as a predicate. *)
Fixpoint lstrip (p : ascii -> bool) (s : string) : string :=
  match s with
  | EmptyString => EmptyString
  | String c s' => if p c then lstrip p s' else s
  end.

Fixpoint rstrip (p : ascii -> bool) (s : string) : string :=
  match s with
  | EmptyString => EmptyString
  | String c s' =>
      match rstrip p s' with
      | EmptyString => if p c then EmptyString else String c EmptyString
      | t => String c t
      end
  end.

Definition strip (s : string) : string := rstrip is_space (lstrip is_space s).

Definition is_slash (c : ascii) : bool := Ascii.eqb c "/".

(** [s.endswith(suf)] *)
Fixpoint endswith (s suf : string) : bool :=
  String.eqb s suf
  || match s with
     | EmptyString => false
     | String _ s' => endswith s' suf
     end.

(** [s.startswith(p)] *)
Definition startswith (s p : string) : bool := String.prefix p s.

(** [s[:-n]] *)
Definition drop_last (n : nat) (s : string) : string :=
  String.substring 0 (String.length s - n) s.

(** [c in s] for a one-character [c] *)
Fixpoint has_char (c : ascii) (s : string) : bool :=
  match s with
  | EmptyString => false
  | String d s' => Ascii.eqb c d || has_char c s'
  end.

(** [needle in s] *)
Fixpoint contains (needle s : string) : bool :=
  String.prefix needle s
  || match s with
     | EmptyString => false
     | String _ s' => contains needle s'
     end.

(** [s.split(sep)] for a one-character separator: never empty. *)
Fixpoint split (sep : ascii) (s : string) : list string :=
  match s with
  | EmptyString => [EmptyString]
  | String c s' =>
      if Ascii.eqb c sep then EmptyString :: split sep s'
      else match split sep s' with
           | h :: t => String c h :: t
           | [] => [String c EmptyString]
           end
  end.

(** [str(n)] for a non-negative integer. *)
Definition of_nat (n : nat) : string :=
  DecimalString.NilEmpty.string_of_uint (Nat.to_uint n).

(** The first character of [s], if any, is not in [p]. *)
Definition head_clear (p : ascii -> bool) (s : string) : Prop :=
  match s with
  | EmptyString => True
  | String c _ => p c = false
  end.

End Str.

(** ** Patterns: the fragment of [re] the two scripts use

    Every pattern of the source is compiled with [re.I] and is built from
    literal text, the classes [\s], [.], [[^\s]], [[^\]]] and
    [[A-Za-z0-9._-]] under [*] or [+], one capturing group, and one
    alternation of literals. *)

Module Re.

Inductive cclass : Type :=
  | Dot                 (* .   any character but the line feed *)
  | Space               (* \s *)
  | NotSpace            (* [^\s] *)
  | NameCh              (* [A-Za-z0-9._-] *)
  | NotCh (c : ascii).  (* [^c] *)

Inductive regex : Type :=
  | Lit (s : string)        (* literal text *)
  | Star (c : cclass)       (* c* *)
  | Plus (c : cclass)       (* c+ *)
  | Grp (r : regex)         (* ( r ) *)
  | Cat (r1 r2 : regex)     (* r1 r2 *)
  | Alt (r1 r2 : regex).    (* r1 | r2 *)

Definition is_name_char (c : ascii) : bool :=
  let n := Str.code (Str.lower_char c) in
  ((97 <=? n) && (n <=? 122)) || ((48 <=? n) && (n <=? 57))
  || (n =? 46) || (n =? 95) || (n =? 45).

Definition in_class (k : cclass) (c : ascii) : bool :=
  match k with
  | Dot => negb (Str.code c =? 10)
  | Space => Str.is_space c
  | NotSpace => negb (Str.is_space c)
  | NameCh => is_name_char c
  | NotCh d => negb (Ascii.eqb (Str.lower_char c) (Str.lower_char d))
  end.

(** Literal text at the head of [s], compared case-insensitively;
    the rest of [s] on success. *)
Fixpoint eat (lit s : string) : option string :=
  match lit, s with
  | EmptyString, _ => Some s
  | String a lit', String b s' =>
      if Ascii.eqb (Str.lower_char a) (Str.lower_char b) then eat lit' s'
      else None
  | String _ _, EmptyString => None
  end.

(** The captured groups of a match. *)
Definition groups : Type := list string.

(** Continuation of a match: the unread text and the groups so far. *)
Definition cont : Type := string -> groups -> option groups.

(** Greedy [c*]: take as many characters as possible, give back one at
    a time while the continuation fails. *)
Fixpoint star (k : cclass) (s : string) (g : groups) (next : cont)
  : option groups :=
  match s with
  | String c s' =>
      if in_class k c then
        match star k s' g next with
        | Some r => Some r
        | None => next s g
        end
      else next s g
  | EmptyString => next s g
  end.

(** The text consumed between [s] and its suffix [rest]. *)
Definition consumed (s rest : string) : string :=
  String.substring 0 (String.length s - String.length rest) s.

Fixpoint run (r : regex) (s : string) (g : groups) (next : cont)
  : option groups :=
  match r with
  | Lit t => match eat t s with Some s' => next s' g | None => None end
  | Star k => star k s g next
  | Plus k =>
      match s with
      | String c s' => if in_class k c then star k s' g next else None
      | EmptyString => None
      end
  | Grp r1 => run r1 s g (fun rest g' => next rest (g' ++ [consumed s rest]))
  | Cat r1 r2 => run r1 s g (fun rest g' => run r2 rest g' next)
  | Alt r1 r2 =>
      match run r1 s g next with
      | Some res => Some res
      | None => run r2 s g next
      end
  end.

(** [pattern.match(s)]: a match anchored at the start of [s]. *)
Definition re_match (r : regex) (s : string) : option groups :=
  run r s [] (fun _ g => Some g).

(** [pattern.search(s)]: the match at the leftmost start that has one. *)
Fixpoint re_search (r : regex) (s : string) : option groups :=
  match re_match r s with
  | Some g => Some g
  | None =>
      match s with
      | String _ s' => re_search r s'
      | EmptyString => None
      end
  end.

(** [m.group(1)] *)
Definition group1 (g : groups) : string := List.nth 0 g EmptyString.

(** [bool(pattern.search(s))] *)
Definition found (r : regex) (s : string) : bool :=
  match re_search r s with Some _ => true | None => false end.

End Re.

Infix "·" := Re.Cat (at level 41, right associativity).

(** [any(pattern.search(line) for pattern in patterns)] *)
Definition any_search (patterns : list Re.regex) (line : string) : bool :=
  existsb (fun p => Re.found p line) patterns.

(** ** Shared Python idioms *)

(** The status strings of both scripts: "pending", "active",
    "installing", "done", "failed". *)
Inductive status_value : Type :=
  pending | active | installing | done | failed.

Global Instance status_value_eq_dec : EqDecision status_value.
Proof. solve_decision. Defined.

(** Truthiness of a string and of an optional string ([None] and the
    empty string are false). *)
Definition truthy (s : string) : bool := negb (String.eqb s "").

Definition truthy_opt (o : option string) : bool :=
  match o with Some s => truthy s | None => false end.

(** [a or b] on the results of [dict.get] with integer values: [None]
    and [0] are both false, so the right operand is taken for them. *)
Definition or_index (a b : option nat) : option nat :=
  match a with
  | Some (S _) => a
  | Some 0 | None => b
  end.

(** [enumerate(l)] *)
Definition enumerate {A} (l : list A) : list (nat * A) := imap pair l.

(** * scripts/comfy_wait_page.py *)

Module Comfy.

Import Re.

(** The patterns of the restore log; each is compiled with [re.I]. *)

(** r'\[restore\]\s+cloning\s+(.+)' *)
Definition RESTORE_CLONE_RE : regex :=
  Lit "[restore]" · Plus Space · Lit "cloning" · Plus Space
  · Grp (Plus Dot).

(** r'\[restore\]\s+cnr install\s+([A-Za-z0-9._-]+)' *)
Definition RESTORE_CNR_RE : regex :=
  Lit "[restore]" · Plus Space · Lit "cnr install" · Plus Space
  · Grp (Plus NameCh).

(** r'\[restore\]\s+([A-Za-z0-9._-]+)\s+already present' *)
Definition RESTORE_SKIP_RE : regex :=
  Lit "[restore]" · Plus Space · Grp (Plus NameCh) · Plus Space
  · Lit "already present".

(** r'\[restore]\[err[^\]]*\]\s*([^\s]+)' *)
Definition RESTORE_ERR_RE : regex :=
  Lit "[restore][err" · Star (NotCh "]") · Lit "]" · Star Space
  · Grp (Plus NotSpace).

(** r'\[restore\]\s+nodes\s+&\s+settings\s+done' *)
Definition RESTORE_DONE_RE : regex :=
  Lit "[restore]" · Plus Space · Lit "nodes" · Plus Space · Lit "&"
  · Plus Space · Lit "settings" · Plus Space · Lit "done".

(** r'\[restore]\[warn].*failed:\s*\[(.+)\]' *)
Definition RESTORE_FAIL_LIST_RE : regex :=
  Lit "[restore][warn]" · Star Dot · Lit "failed:" · Star Space · Lit "["
  · Grp (Plus Dot) · Lit "]".

(** r'\[nodes\]\s+refreshing\s+([A-Za-z0-9._-]+)',
    r'(?:Updating|Installing)\s+([A-Za-z0-9._-]+)',
    r'\[manager][^\]]*\]\s*([A-Za-z0-9._-]+)' *)
Definition NODE_PROGRESS_RE : list regex :=
  [ Lit "[nodes]" · Plus Space · Lit "refreshing" · Plus Space
    · Grp (Plus NameCh);
    Alt (Lit "Updating") (Lit "Installing") · Plus Space · Grp (Plus NameCh);
    Lit "[manager]" · Star (NotCh "]") · Lit "]" · Star Space
    · Grp (Plus NameCh) ].

(** [ENV_INFO], read from the process environment when the module is
    loaded. *)
Record env_info : Type := {
  backup_repo : option string;
  restore_enabled : bool;
  hf_token : bool;
  civitai_token : bool
}.

(** The dict [build_backup_state] returns; [N] is what stands for a
    node: a record of its entries, or a reference to the dict. *)
Record backup_state (N : Type) : Type := {
  enabled : bool;
  repo : option string;
  nodes : list N;
  has_manifest : bool;
  message : string
}.
Arguments enabled {N} _.
Arguments repo {N} _.
Arguments nodes {N} _.
Arguments has_manifest {N} _.
Arguments message {N} _.

Definition _repo_label (repo_url : string) : string :=
  let cleaned := Str.rstrip Str.is_slash (Str.strip repo_url) in
  let cleaned :=
    if Str.endswith cleaned ".git" then Str.drop_last 4 cleaned else cleaned in
  if Str.has_char "/" cleaned
  then List.last (Str.split "/" cleaned) EmptyString
  else cleaned.

Definition _normalize_repo (repo_url : string) : string :=
  let cleaned := Str.strip repo_url in
  let cleaned :=
    if Str.endswith cleaned ".git" then Str.drop_last 4 cleaned else cleaned in
  Str.rstrip Str.is_slash cleaned.

Section WithEnv.

Variable ENV_INFO : env_info.

Definition _backup_detail {N} (backup_state : backup_state N) : string :=
  match backup_repo ENV_INFO with
  | Some repo =>
      if negb (truthy repo) then "Backup is not set"
      else if negb (restore_enabled ENV_INFO)
      then "Backup " +:+ repo +:+ " configured but RESTORE_BACKUP=0"
      else
        let total := length (nodes backup_state) in
        if negb (total =? 0)
        then "Restoring " +:+ Str.of_nat total +:+ " custom nodes from "
             +:+ repo
        else "Restoring backup from " +:+ repo
  | None => "Backup is not set"
  end.

End WithEnv.

Definition _update_backup_detail (line current : string) : string :=
  match re_search RESTORE_CLONE_RE line with
  | Some clone => "Cloning " +:+ _repo_label (group1 clone)
  | None =>
      match re_search RESTORE_CNR_RE line with
      | Some cnr => "Installing " +:+ group1 cnr +:+ " from snapshot"
      | None => current
      end
  end.

Fixpoint _update_custom_detail_from (pats : list regex) (line current : string)
  : string :=
  match pats with
  | [] => current
  | pattern :: rest =>
      match re_search pattern line with
      | Some m =>
          let name := group1 m in
          let name :=
            if Str.startswith (Str.lower name) "http" then _repo_label name
            else name in
          "Updating " +:+ name
      | None => _update_custom_detail_from rest line current
      end
  end.

Definition _update_custom_detail (line current : string) : string :=
  _update_custom_detail_from NODE_PROGRESS_RE line current.

(** A stage definition: the dicts of [STAGE_DEFS].  [d_detail] and
    [d_detail_factory] are optional keys, as is [d_detail_from_line]. *)
Record stage_def : Type := {
  d_id : string;
  d_label : string;
  d_detail : option string;
  d_detail_factory : option (env_info -> forall N, backup_state N -> string);
  d_patterns : list regex;
  d_detail_from_line : option (string -> string -> string)
}.

(** A stage as reported to the page. *)
Record stage : Type := {
  id : string;
  label : string;
  detail : string;
  status : status_value;
  skipped : bool
}.

Definition set_status (v : status_value) (s : stage) : stage :=
  {| id := id s; label := label s; detail := detail s; status := v;
     skipped := skipped s |}.

Definition set_detail (v : string) (s : stage) : stage :=
  {| id := id s; label := label s; detail := v; status := status s;
     skipped := skipped s |}.

Definition STAGE_DEFS : list stage_def :=
  [ {| d_id := "bootstrap"; d_label := "GPU & workspace";
       d_detail := Some "Checking CUDA drivers and preparing /workspace";
       d_detail_factory := None;
       d_patterns :=
         [ Lit "STAGE:" · Star Space · Lit "Checking CUDA";
           Lit "Persisting ComfyUI";
           Lit "ComfyUI already present" ];
       d_detail_from_line := None |};
    {| d_id := "venv"; d_label := "Python environment";
       d_detail := Some "Creating venv and upgrading pip";
       d_detail_factory := None;
       d_patterns := [ Lit "Creating venv"; Lit "VIRTUAL_ENV:" ];
       d_detail_from_line := None |};
    {| d_id := "wheels"; d_label := "Extra wheels";
       d_detail := Some "Installing sageattention";
       d_detail_factory := None;
       d_patterns :=
         [ Lit "STAGE:" · Star Space · Lit "Installing sageattention" ];
       d_detail_from_line := None |};
    {| d_id := "backup-manager"; d_label := "ComfyUI manager";
       d_detail := Some "Fetching ComfyUI manager metadata (first boot can take up to 2 minutes while registry downloads)";
       d_detail_factory := None;
       d_patterns :=
         [ Lit "STAGE:" · Star Space · Lit "Preparing ComfyUI Manager" ];
       d_detail_from_line := None |};
    {| d_id := "backup-nodes"; d_label := "Backup restore";
       d_detail := None;
       d_detail_factory := Some (fun env N bs => @_backup_detail env N bs);
       d_patterns :=
         [ Lit "STAGE:" · Star Space · Lit "Installing nodes from backup";
           Lit "STAGE:" · Star Space · Lit "Restoring backup" ];
       d_detail_from_line := Some _update_backup_detail |};
    {| d_id := "core"; d_label := "ComfyUI core";
       d_detail := Some "Updating base repo and Python dependencies";
       d_detail_factory := None;
       d_patterns :=
         [ Lit "STAGE:" · Star Space · Lit "Updating ComfyUI core" ];
       d_detail_from_line := None |};
    {| d_id := "custom"; d_label := "Custom nodes";
       d_detail := Some "Updating registered nodes";
       d_detail_factory := None;
       d_patterns :=
         [ Lit "STAGE:" · Star Space · Lit "Updating custom nodes" ];
       d_detail_from_line := Some _update_custom_detail |};
    {| d_id := "launch"; d_label := "Launch";
       d_detail := Some "Starting ComfyUI on :8188";
       d_detail_factory := None;
       d_patterns := [ Lit "STAGE:" · Star Space · Lit "Starting ComfyUI" ];
       d_detail_from_line := None |} ].

(** *** compute_stage_states *)

Section ComputeStageStates.

Variable ENV_INFO : env_info.
Variable DEFS : list stage_def.   (* the table [STAGE_DEFS] *)

(** The set [skip_ids]. *)
Definition skip_ids {N} (backup_state : backup_state N) : gset string :=
  if negb (enabled backup_state)
  then {[ "backup-manager"; "backup-nodes" ]}
  else ∅.

(** The dict appended for one definition by the first loop. *)
Definition initial_stage {N} (backup_state : backup_state N)
    (definition : stage_def) : stage :=
  let base_detail :=
    match d_detail_factory definition with
    | Some factory => Some (factory ENV_INFO N backup_state)
    | None => d_detail definition
    end in
  let skip := bool_decide (d_id definition ∈ skip_ids backup_state) in
  {| id := d_id definition;
     label := d_label definition;
     detail := default EmptyString base_detail;
     status := if skip then done else pending;
     skipped := skip |}.

(** [stages[idx]["skipped"]] and [stages[idx]["detail"]]; [stages] has
    one entry per definition, so [idx] is always in range. *)
Definition skipped_at (stages : list stage) (idx : nat) : bool :=
  from_option skipped false (stages !! idx).

Definition detail_at (stages : list stage) (idx : nat) : string :=
  from_option detail EmptyString (stages !! idx).

(** The inner loop over [enumerate(STAGE_DEFS)] for one line: the first
    definition that is not skipped and has a pattern found in the line. *)
Fixpoint match_line (defs : list (nat * stage_def)) (stages : list stage)
    (line : string) : option (nat * stage_def) :=
  match defs with
  | [] => None
  | (idx, definition) :: rest =>
      if skipped_at stages idx then match_line rest stages line
      else if any_search (d_patterns definition) line
      then Some (idx, definition)
      else match_line rest stages line
  end.

(** One turn of the outer loop: the state is [stages] and
    [current_idx]. *)
Definition scan_line (st : list stage * option nat) (line : string)
  : list stage * option nat :=
  match match_line (enumerate DEFS) st.1 line with
  | None => st
  | Some (idx, definition) =>
      let stages :=
        match d_detail_from_line definition with
        | Some detail_fn =>
            let new_detail := detail_fn line (detail_at st.1 idx) in
            if truthy new_detail
            then alter (set_detail new_detail) idx st.1
            else st.1
        | None => st.1
        end in
      (stages, Some idx)
  end.

(** The loop taken when [current_idx is None]: the first stage that is
    not skipped becomes active. *)
Fixpoint activate_first (stages : list stage) : list stage :=
  match stages with
  | [] => []
  | stage :: rest =>
      if skipped stage then stage :: activate_first rest
      else set_status active stage :: rest
  end.

(** The last loop, for [current_idx] set. *)
Definition settle (current_idx : nat) (stages : list stage) : list stage :=
  imap (fun idx stage =>
          if skipped stage then stage
          else if idx <? current_idx then set_status done stage
          else if idx =? current_idx then set_status active stage
          else set_status pending stage) stages.

Definition compute_stage_states {N} (lines : list string)
    (backup_state : backup_state N) : list stage :=
  let stages := map (initial_stage backup_state) DEFS in
  let '(stages, current_idx) := foldl scan_line (stages, None) lines in
  match current_idx with
  | None => activate_first stages
  | Some current_idx => settle current_idx stages
  end.

End ComputeStageStates.

End Comfy.

(** * scripts/ai_toolkit_wait_page.py *)

Module AIToolkit.

Import Re.

Definition _detail_repo (line current : string) : string :=
  if Str.contains "cloning" (Str.lower line) then "Cloning fresh repo"
  else if Str.contains "updating repo" (Str.lower line)
  then "Updating existing repo"
  else current.

Definition _detail_ui (line current : string) : string :=
  if Str.contains "installing ui dependencies" (Str.lower line)
  then "Installing npm dependencies"
  else if Str.contains "building ui" (Str.lower line)
  then "Building UI bundle"
  else if Str.contains "update_db" (Str.lower line)
  then "Updating database schema"
  else current.

Record stage_def : Type := {
  d_id : string;
  d_label : string;
  d_detail : option string;
  d_patterns : list regex;
  d_detail_from_line : option (string -> string -> string)
}.

Record stage : Type := {
  id : string;
  label : string;
  detail : string;
  status : status_value
}.

Definition set_status (v : status_value) (s : stage) : stage :=
  {| id := id s; label := label s; detail := detail s; status := v |}.

Definition set_detail (v : string) (s : stage) : stage :=
  {| id := id s; label := label s; detail := v; status := status s |}.

Definition AITK_STAGE_DEFS : list stage_def :=
  [ {| d_id := "repo"; d_label := "Repository";
       d_detail := Some "Cloning ai-toolkit source";
       d_patterns :=
         [ Lit "[ai-toolkit]" · Star Dot · Lit "cloning repo";
           Lit "[ai-toolkit]" · Star Dot · Lit "updating repo" ];
       d_detail_from_line := Some _detail_repo |};
    {| d_id := "venv"; d_label := "Python environment";
       d_detail := Some "Creating virtualenv and upgrading pip";
       d_patterns :=
         [ Lit "[ai-toolkit]" · Star Dot · Lit "creating venv";
           Lit "pip install --upgrade pip" ];
       d_detail_from_line := None |};
    {| d_id := "deps"; d_label := "Python deps";
       d_detail := Some "Installing requirements";
       d_patterns :=
         [ Lit "[ai-toolkit]" · Star Dot · Lit "installing requirements" ];
       d_detail_from_line := None |};
    {| d_id := "ui-build"; d_label := "UI build";
       d_detail := Some "Preparing AI Toolkit UI";
       d_patterns :=
         [ Lit "installing UI dependencies";
           Lit "npm run build";
           Lit "npm run update_db" ];
       d_detail_from_line := Some _detail_ui |};
    {| d_id := "start"; d_label := "UI startup";
       d_detail := Some "Starting ai-toolkit on :8675";
       d_patterns := [ Lit "[ai-toolkit]" · Star Dot · Lit "starting UI" ];
       d_detail_from_line := None |} ].

(** *** compute_stage_states *)

Section ComputeStageStates.

Variable DEFS : list stage_def.   (* the table [AITK_STAGE_DEFS] *)

Definition initial_stage (definition : stage_def) : stage :=
  {| id := d_id definition;
     label := d_label definition;
     detail := default EmptyString (d_detail definition);
     status := pending |}.

Definition detail_at (stages : list stage) (idx : nat) : string :=
  from_option detail EmptyString (stages !! idx).

(** The inner loop for one line: the first definition with a pattern
    found in the line. *)
Fixpoint match_line (defs : list (nat * stage_def)) (line : string)
  : option (nat * stage_def) :=
  match defs with
  | [] => None
  | (idx, definition) :: rest =>
      if any_search (d_patterns definition) line
      then Some (idx, definition)
      else match_line rest line
  end.

Definition scan_line (st : list stage * option nat) (line : string)
  : list stage * option nat :=
  match match_line (enumerate DEFS) line with
  | None => st
  | Some (idx, definition) =>
      let stages :=
        match d_detail_from_line definition with
        | Some detail_fn =>
            let new_detail := detail_fn line (detail_at st.1 idx) in
            if truthy new_detail
            then alter (set_detail new_detail) idx st.1
            else st.1
        | None => st.1
        end in
      (stages, Some idx)
  end.

(** [if stages: stages[0]["status"] = "active"] *)
Definition activate_first (stages : list stage) : list stage :=
  match stages with
  | [] => []
  | stage :: rest => set_status active stage :: rest
  end.

Definition settle (current_idx : nat) (stages : list stage) : list stage :=
  imap (fun idx stage =>
          if idx <? current_idx then set_status done stage
          else if idx =? current_idx then set_status active stage
          else set_status pending stage) stages.

Definition compute_stage_states (lines : list string) : list stage :=
  let stages := map initial_stage DEFS in
  let '(stages, current_idx) := foldl scan_line (stages, None) lines in
  match current_idx with
  | None => activate_first stages
  | Some current_idx => settle current_idx stages
  end.

End ComputeStageStates.

End AIToolkit.

(** * The backup manifest and its progress (comfy_wait_page.py) *)

Module Backup.

Import Re.

(** The value of a node's "source" entry. *)
Inductive source_kind : Type := src_git | src_cnr.

(** A node dict of the manifest.  "repo" is present on git nodes only,
    "version" on registry nodes only, and "status" only once
    [_apply_backup_progress] has written it. *)
Record node : Type := {
  node_key : string;
  node_name : string;
  node_source : source_kind;
  node_repo : option string;
  node_version : option string;
  node_status : option status_value
}.

Global Instance source_kind_eq_dec : EqDecision source_kind.
Proof. solve_decision. Defined.

Global Instance node_eq_dec : EqDecision node.
Proof. solve_decision. Defined.

(** [node["status"] = v] on one dict. *)
Definition with_status (v : status_value) (n : node) : node :=
  {| node_key := node_key n; node_name := node_name n;
     node_source := node_source n; node_repo := node_repo n;
     node_version := node_version n; node_status := Some v |}.

(** What [_apply_backup_progress] does with its argument [nodes]: take
    its length, read the dict at an index, and assign the "status" entry
    of the dict at an index.  The list itself is never changed.  Two
    representations follow: a list of dicts held by value, and a list
    of references into a store of dicts. *)
Class NodeArray (A : Type) : Type := {
  na_len : A -> nat;
  na_get : A -> nat -> option node;
  na_set_status : nat -> status_value -> A -> A
}.

Section Progress.

Context {A : Type} `{NodeArray A}.

(** The dicts of [nodes], in order. *)
Definition contents (nodes : A) : list node :=
  omap (na_get nodes) (seq 0 (na_len nodes)).

(** [nodes[idx]["status"]]; the entry is present on every node once the
    first loop of [_apply_backup_progress] has run. *)
Definition status_at (nodes : A) (idx : nat) : option status_value :=
  na_get nodes idx ≫= node_status.

(** [for idx in range(n): body] *)
Definition for_range (n : nat) (body : nat -> A -> A) (nodes : A) : A :=
  foldl (fun nodes idx => body idx nodes) nodes (seq 0 n).

(** [{node["key"]: i for i, node in enumerate(nodes)}]: a later node
    with the same key replaces the earlier one. *)
Definition index_by_key (nodes : A) : gmap string nat :=
  foldl (fun m p => <[node_key p.2 := p.1]> m) ∅ (enumerate (contents nodes)).

(** [{node["repo"]: i for i, node in enumerate(nodes) if node.get("repo")}] *)
Definition index_by_repo (nodes : A) : gmap string nat :=
  foldl (fun m p =>
           match node_repo p.2 with
           | Some r => if truthy r then <[r := p.1]> m else m
           | None => m
           end) ∅ (enumerate (contents nodes)).

(** [index_by_key.get(k) or index_by_repo.get(_normalize_repo(k))] *)
Definition resolve (by_key by_repo : gmap string nat) (k : string)
  : option nat :=
  or_index (by_key !! k) (by_repo !! Comfy._normalize_repo k).

(** [for node in nodes: node["status"] = node.get("status") or "pending"] *)
Definition init_status (nodes : A) : A :=
  for_range (na_len nodes)
    (fun idx nodes =>
       na_set_status idx (default pending (status_at nodes idx)) nodes)
    nodes.

(** [for node in nodes: if node["status"] in {"pending", "installing"}:
    node["status"] = "done"] *)
Definition finish_open (nodes : A) : A :=
  for_range (na_len nodes)
    (fun idx nodes =>
       match status_at nodes idx with
       | Some pending | Some installing => na_set_status idx done nodes
       | _ => nodes
       end)
    nodes.

Section Replay.

Variables by_key by_repo : gmap string nat.

(** The body shared by the clone and the cnr branch once [key] is
    known: the node that was installing is taken to be done, and [key]
    becomes the installing one. *)
Definition begin (key : nat) (st : A * option nat) : A * option nat :=
  let nodes :=
    match st.2 with
    | Some active_idx =>
        if bool_decide (status_at st.1 active_idx = Some installing)
           && negb (active_idx =? key)
        then na_set_status active_idx done st.1
        else st.1
    | None => st.1
    end in
  (na_set_status key installing nodes, Some key).

(** [for key in failed_nodes: ...] *)
Definition mark_failed_list (failed_nodes : list string) (nodes : A) : A :=
  foldl (fun nodes key =>
           match resolve by_key by_repo (Str.strip key) with
           | Some idx => na_set_status idx failed nodes
           | None => nodes
           end) nodes failed_nodes.

(** One turn of [for line in lines]; the state is [nodes] and
    [active_idx]. *)
Definition replay_line (st : A * option nat) (line : string)
  : A * option nat :=
  match re_search Comfy.RESTORE_CLONE_RE line with
  | Some clone =>
      match by_repo !! Comfy._normalize_repo (group1 clone) with
      | Some key => begin key st
      | None => st
      end
  | None =>
  match re_search Comfy.RESTORE_CNR_RE line with
  | Some cnr =>
      match by_key !! Str.strip (group1 cnr) with
      | Some key => begin key st
      | None => st
      end
  | None =>
  match re_search Comfy.RESTORE_SKIP_RE line with
  | Some skip =>
      match resolve by_key by_repo (Str.strip (group1 skip)) with
      | Some idx => (na_set_status idx done st.1, st.2)
      | None => st
      end
  | None =>
  match re_search Comfy.RESTORE_ERR_RE line with
  | Some err_match =>
      match resolve by_key by_repo (Str.strip (group1 err_match)) with
      | Some idx => (na_set_status idx failed st.1, st.2)
      | None => st
      end
  | None =>
  match re_search Comfy.RESTORE_FAIL_LIST_RE line with
  | Some fail_list =>
      (mark_failed_list (Str.split "," (group1 fail_list)) st.1, st.2)
  | None =>
      if found Comfy.RESTORE_DONE_RE line then (finish_open st.1, None)
      else st
  end end end end end.

End Replay.

(** The block after the loop: with a node still installing, the pending
    nodes before it are taken to be done. *)
Definition close_earlier (st : A * option nat) : A :=
  match st.2 with
  | Some active_idx =>
      if bool_decide (status_at st.1 active_idx = Some installing)
      then for_range active_idx
             (fun idx nodes =>
                if bool_decide (status_at nodes idx = Some pending)
                then na_set_status idx done nodes else nodes)
             st.1
      else st.1
  | None => st.1
  end.

Definition _apply_backup_progress (nodes : A) (lines : list string) : A :=
  if na_len nodes =? 0 then nodes
  else
    let by_key := index_by_key nodes in
    let by_repo := index_by_repo nodes in
    let nodes := init_status nodes in
    close_earlier (foldl (replay_line by_key by_repo) (nodes, None) lines).

End Progress.

(** Nodes held by value. *)
Global Instance list_nodes : NodeArray (list node) := {
  na_len nodes := length nodes;
  na_get nodes idx := nodes !! idx;
  na_set_status idx v nodes := alter (with_status v) idx nodes
}.

(** *** The store of dicts, and the module-level cache *)

(** A reference to a dict. *)
Abbreviation loc := positive.

(** The dicts alive in the interpreter, by reference. *)
Abbreviation heap := (gmap loc node).

(** A list of references, read through a store. *)
Record heap_nodes : Type := {
  hn_heap : heap;
  hn_refs : list loc
}.

Global Instance ref_nodes : NodeArray heap_nodes := {
  na_len nodes := length (hn_refs nodes);
  na_get nodes idx := hn_refs nodes !! idx ≫= (hn_heap nodes !!.);
  na_set_status idx v nodes :=
    match hn_refs nodes !! idx with
    | Some l =>
        {| hn_heap := alter (with_status v) l (hn_heap nodes);
           hn_refs := hn_refs nodes |}
    | None => nodes
    end
}.

(** A new dict object for each value, in order. *)
Fixpoint alloc_all (values : list node) (h : heap) : list loc * heap :=
  match values with
  | [] => ([], h)
  | d :: rest =>
      let l := fresh (dom h) in
      let '(ls, h') := alloc_all rest (<[l := d]> h) in
      (l :: ls, h')
  end.

(** The interpreter state the backup code touches: the store and the
    two entries of [_SNAPSHOT_CACHE]. *)
Record world : Type := {
  w_heap : heap;
  cache_mtime : option Z;
  cache_nodes : list loc
}.

(** [_SNAPSHOT_CACHE = {"mtime": None, "nodes": []}] *)
Definition initial_world : world :=
  {| w_heap := ∅; cache_mtime := None; cache_nodes := [] |}.

(** An entry of "git_custom_nodes": a dict with optional "disabled" and
    "name", or some other value. *)
Inductive git_entry : Type :=
  | GitDict (disabled : bool) (name : option string)
  | GitOther.

(** The parsed manifest. *)
Record manifest : Type := {
  git_custom_nodes : list (string * git_entry);
  cnr_custom_nodes : list (string * option string)
}.

(** What the loader finds at [SNAPSHOT_PATH]: nothing, or a file with
    its modification time and what [yaml.safe_load] makes of it ([None]
    when the yaml module or the parse fails). *)
Inductive snapshot_file : Type :=
  | Missing
  | Present (mtime : Z) (data : option manifest).

Definition git_node (repo_url : string) (node_data : git_entry) : option node :=
  match node_data with
  | GitDict true _ => None
  | _ =>
      let label :=
        match node_data with GitDict _ name => name | GitOther => None end in
      Some {| node_key := Comfy._repo_label repo_url;
              node_name := if truthy_opt label then default EmptyString label
                           else Comfy._repo_label repo_url;
              node_source := src_git;
              node_repo := Some (Comfy._normalize_repo repo_url);
              node_version := None;
              node_status := None |}
  end.

Definition cnr_node (node_name : string) (version : option string) : node :=
  {| node_key := node_name;
     node_name := node_name;
     node_source := src_cnr;
     node_repo := None;
     node_version := Some (default EmptyString version);
     node_status := None |}.

(** The list [nodes] built by the two loops of [_load_backup_nodes]. *)
Definition manifest_nodes (data : manifest) : list node :=
  omap (fun p => git_node p.1 p.2) (git_custom_nodes data)
  ++ map (fun p => cnr_node p.1 p.2) (cnr_custom_nodes data).

Definition _load_backup_nodes (file : snapshot_file) (w : world)
  : list loc * world :=
  match file with
  | Missing =>
      ([], {| w_heap := w_heap w; cache_mtime := None; cache_nodes := [] |})
  | Present current_mtime data =>
      if bool_decide (cache_mtime w = Some current_mtime)
      then (cache_nodes w, w)
      else
        match data with
        | None => ([], w)
        | Some data =>
            let '(nodes, h) := alloc_all (manifest_nodes data) (w_heap w) in
            (nodes, {| w_heap := h; cache_mtime := Some current_mtime;
                       cache_nodes := nodes |})
        end
  end.

(** [sum(1 for node in nodes if node["status"] == "done")] *)
Definition count_done {A : Type} `{NodeArray A} (nodes : A) : nat :=
  length (filter (fun n => node_status n = Some done) (contents nodes)).

Definition build_backup_state (ENV_INFO : Comfy.env_info)
    (file : snapshot_file) (lines : list string) (w : world)
  : Comfy.backup_state loc * world :=
  let enabled :=
    Comfy.restore_enabled ENV_INFO && truthy_opt (Comfy.backup_repo ENV_INFO) in
  let '(nodes, has_manifest, w) :=
    if enabled then
      let '(cached, w) := _load_backup_nodes file w in
      (* [dict(node) for node in ...] *)
      let '(refs, h) := alloc_all (omap (w_heap w !!.) cached) (w_heap w) in
      let nodes :=
        _apply_backup_progress {| hn_heap := h; hn_refs := refs |} lines in
      (nodes, negb (length refs =? 0),
       {| w_heap := hn_heap nodes; cache_mtime := cache_mtime w;
          cache_nodes := cache_nodes w |})
    else ({| hn_heap := w_heap w; hn_refs := [] |}, false, w) in
  let message :=
    if negb (truthy_opt (Comfy.backup_repo ENV_INFO))
    then "Backup is not set."
    else if negb (Comfy.restore_enabled ENV_INFO)
    then "Backup is configured but RESTORE_BACKUP=0."
    else if na_len nodes =? 0
    then "Waiting for backup snapshot manifest..."
    else Str.of_nat (count_done nodes) +:+ "/" +:+ Str.of_nat (na_len nodes)
         +:+ " nodes processed from "
         +:+ default EmptyString (Comfy.backup_repo ENV_INFO) +:+ "." in
  ({| Comfy.enabled := enabled;
      Comfy.repo := Comfy.backup_repo ENV_INFO;
      Comfy.nodes := hn_refs nodes;
      Comfy.has_manifest := has_manifest;
      Comfy.message := message |}, w).

End Backup.

(** * The tail reader of both scripts *)

Module Tail.

(** The exceptions the reader can meet. *)
Inductive exn : Type :=
  | OSError
  | NameError (name : string).

(** The outcome of a call: a value, or an exception left uncaught. *)
Inductive outcome (A : Type) : Type :=
  | Return (a : A)
  | Raise (e : exn).
Arguments Return {A} _.
Arguments Raise {A} _.

(** Looking up a module-level name that the function body reads: it is
    bound when the module imports it. *)
Definition global_name (imported : list string) (name : string)
  : outcome unit :=
  if bool_decide (name ∈ imported) then Return tt else Raise (NameError name).

(** [str.splitlines] on the line boundaries below code point 256:
    LF, CR, CR LF, VT, FF, FS, GS, RS, NEL. *)
Definition is_linebreak (c : ascii) : bool :=
  let n := Str.code c in
  ((10 <=? n) && (n <=? 13)) || ((28 <=? n) && (n <=? 30)) || (n =? 133).

(** The lines with one more, empty, entry after a final boundary;
    [after_cr] is set when the previous character was a CR. *)
Fixpoint split_breaks (after_cr : bool) (s : string) : list string :=
  match s with
  | EmptyString => [EmptyString]
  | String c s' =>
      if after_cr && (Str.code c =? 10) then split_breaks false s'
      else if is_linebreak c
      then EmptyString :: split_breaks (Str.code c =? 13) s'
      else match split_breaks false s' with
           | h :: t => String c h :: t
           | [] => [String c EmptyString]
           end
  end.

Definition splitlines (s : string) : list string :=
  let parts := split_breaks false s in
  match List.last parts EmptyString with
  | EmptyString => removelast parts
  | _ => parts
  end.

Section Reader.

(** The files of the machine: [None] where [open(path, "rb")] raises
    [OSError], the bytes of the file otherwise. *)
Variable files : string -> option (list Byte.byte).

(** [bytes.decode("utf-8", errors="ignore")], which returns a string
    for every byte sequence. *)
Variable decode_ignore : list Byte.byte -> string.

(** The body of [tail_lines] in a module whose imports are [imported].
    The [with] block is left by [return] or by an exception; [OSError]
    is the only one the [except] clause takes. *)
Definition tail_lines_in (imported : list string) (path : string)
    (max_bytes : Z) : outcome (list string) :=
  match files path with
  | None => Return []                       (* except OSError: return [] *)
  | Some content =>
      match global_name imported "os" with  (* os.SEEK_END *)
      | Raise e => Raise e
      | Return _ =>
          let size := Z.of_nat (length content) in
          let start := Z.max (size - max_bytes) 0 in
          let data := decode_ignore (drop (Z.to_nat start) content) in
          Return (splitlines data)
      end
  end.

End Reader.

End Tail.

Module ComfyTail.

(** The names comfy_wait_page.py imports. *)
Definition imported : list string :=
  ["argparse"; "http"; "importlib"; "json"; "os"; "re"; "socketserver";
   "time"; "Path"].

Definition LOG_TAIL_BYTES : Z := 200000.

Definition tail_lines files decode_ignore (path : string) (max_bytes : Z)
  : Tail.outcome (list string) :=
  Tail.tail_lines_in files decode_ignore imported path max_bytes.

End ComfyTail.

Module AIToolkitTail.

(** The names ai_toolkit_wait_page.py imports. *)
Definition imported : list string :=
  ["argparse"; "http"; "json"; "re"; "socketserver"; "time"].

Definition LOG_TAIL_BYTES : Z := 120000.

Definition tail_lines files decode_ignore (path : string) (max_bytes : Z)
  : Tail.outcome (list string) :=
  Tail.tail_lines_in files decode_ignore imported path max_bytes.

End AIToolkitTail.

(** * The properties of the stage report

    The words of the specification about [compute_stage_states], and
    the notions the proofs further down use. *)

Module ComfySpec.

Import Comfy.

(** The entries of a stage that the scan never writes. *)
Definition shape (s : stage) : string * string * status_value * bool :=
  (id s, label s, status s, skipped s).

(** A line matches a definition: one of its patterns is found in it. *)
Definition matches (d : stage_def) (line : string) : Prop :=
  any_search (d_patterns d) line = true.

(** The stage a line corresponds to, among the definitions [consulted]:
    the first of them the line matches. *)
Definition line_stage (consulted : stage_def -> Prop) (defs : list stage_def)
    (line : string) (k : nat) : Prop :=
  exists d, defs !! k = Some d /\ consulted d /\ matches d line
    /\ forall j d', j < k -> defs !! j = Some d' -> consulted d' ->
         ~ matches d' line.

(** A line that matches none of the definitions [consulted]. *)
Definition silent (consulted : stage_def -> Prop) (defs : list stage_def)
    (line : string) : Prop :=
  forall d, d ∈ defs -> consulted d -> ~ matches d line.

(** The last line of [lines] that matches a consulted definition
    corresponds to stage [k]. *)
Definition last_matching_stage (consulted : stage_def -> Prop)
    (defs : list stage_def) (lines : list string) (k : nat) : Prop :=
  exists pre ln post,
    lines = pre ++ ln :: post
    /\ line_stage consulted defs ln k
    /\ Forall (silent consulted defs) post.

(** Every definition, skipped or not. *)
Definition any_definition (d : stage_def) : Prop := True.

(** The definitions whose id is not in [skip_ids]. *)
Definition unskipped {N} (bs : backup_state N) (d : stage_def) : Prop :=
  d_id d ∉ skip_ids bs.

(** The report for a pipeline standing at stage [k]. *)
Definition pipeline_at (k : nat) (stages : list stage) : Prop :=
  (exists st, stages !! k = Some st /\ status st = active)
  /\ forall i st, stages !! i = Some st ->
       (skipped st = true -> status st = done)
       /\ (skipped st = false -> i < k -> status st = done)
       /\ (skipped st = false -> k < i -> status st = pending).

(** The cold-start report: of the stages not skipped, the first is
    active and the others are pending. *)
Definition cold_start (stages : list stage) : Prop :=
  forall i st, stages !! i = Some st -> skipped st = false ->
    (status st = active
     /\ forall j st', j < i -> stages !! j = Some st' -> skipped st' = true)
    \/ (status st = pending
        /\ exists j st',
             j < i /\ stages !! j = Some st' /\ skipped st' = false).

(** The cold-start report of a table: one stage for each definition, in
    the order of the table, with the id and the label of its definition;
    the stage of the first definition not skipped is active, the stages
    of the other definitions not skipped are pending, and the stages of
    the skipped ones are done. *)
Definition cold_start_of {N} (bs : backup_state N) (defs : list stage_def)
    (stages : list stage) : Prop :=
  length stages = length defs
  /\ forall i d, defs !! i = Some d ->
       exists st,
         stages !! i = Some st
         /\ id st = d_id d /\ label st = d_label d
         /\ skipped st = bool_decide (d_id d ∈ skip_ids bs)
         /\ (~ unskipped bs d -> status st = done)
         /\ (unskipped bs d ->
             (forall j d', j < i -> defs !! j = Some d' -> ~ unskipped bs d') ->
             status st = active)
         /\ (unskipped bs d ->
             (exists j d', j < i /\ defs !! j = Some d' /\ unskipped bs d') ->
             status st = pending).

(** Definitions that differ only where a skipped one keeps its
    patterns and its detail rule. *)
Definition same_but_skipped {N} (bs : backup_state N) (d d' : stage_def)
  : Prop :=
  d_id d' = d_id d /\ d_label d' = d_label d /\ d_detail d' = d_detail d
  /\ d_detail_factory d' = d_detail_factory d
  /\ (d_id d ∉ skip_ids bs ->
      d_patterns d' = d_patterns d
      /\ d_detail_from_line d' = d_detail_from_line d).

(** What [scan_line] uses of the definition found. *)
Definition found_rule (r : option (nat * stage_def))
  : option (nat * option (string -> string -> string)) :=
  (fun p => (p.1, d_detail_from_line p.2)) <$> r.

(** The stage at [k] is reported with status [v]. *)
Definition reports (stages : list stage) (k : nat) (v : status_value) : Prop :=
  exists st, stages !! k = Some st /\ status st = v.

(** The report after the last matching line, read over all the
    definitions: what the specification says in so many words. *)
Definition last_match_rule (ENV_INFO : env_info) (defs : list stage_def)
    {N} (bs : backup_state N) (lines : list string) (k : nat) : Prop :=
  last_matching_stage any_definition defs lines k ->
  pipeline_at k (compute_stage_states ENV_INFO defs lines bs).

(** Forward progress under log append, read over all the definitions. *)
Definition append_rule (ENV_INFO : env_info) (defs : list stage_def)
    {N} (bs : backup_state N) (lines : list string) (ln : string) (k : nat)
  : Prop :=
  reports (compute_stage_states ENV_INFO defs lines bs) k active ->
  line_stage any_definition defs ln (S k) ->
  reports (compute_stage_states ENV_INFO defs (lines ++ [ln]) bs) (S k) active
  /\ reports (compute_stage_states ENV_INFO defs (lines ++ [ln]) bs) k done.

End ComfySpec.

Module AIToolkitSpec.

Import AIToolkit.

(** A line matches a definition: one of its patterns is found in it. *)
Definition matches (d : stage_def) (line : string) : Prop :=
  any_search (d_patterns d) line = true.

(** The stage a line corresponds to: the first definition it matches. *)
Definition line_stage (defs : list stage_def) (line : string) (k : nat)
  : Prop :=
  exists d, defs !! k = Some d /\ matches d line
    /\ forall j d', j < k -> defs !! j = Some d' -> ~ matches d' line.

Definition silent (defs : list stage_def) (line : string) : Prop :=
  forall d, d ∈ defs -> ~ matches d line.

Definition last_matching_stage (defs : list stage_def) (lines : list string)
    (k : nat) : Prop :=
  exists pre ln post,
    lines = pre ++ ln :: post
    /\ line_stage defs ln k
    /\ Forall (silent defs) post.

Definition pipeline_at (k : nat) (stages : list stage) : Prop :=
  (exists st, stages !! k = Some st /\ status st = active)
  /\ forall i st, stages !! i = Some st ->
       (i < k -> status st = done) /\ (k < i -> status st = pending).

(** The cold-start report: the first stage active, the others pending. *)
Definition cold_start (stages : list stage) : Prop :=
  forall i st, stages !! i = Some st ->
    status st = if i =? 0 then active else pending.

(** The cold-start report of a table: one stage for each definition, in
    the order of the table, with the id and the label of its definition;
    the first stage is active and the others are pending. *)
Definition cold_start_of (defs : list stage_def) (stages : list stage)
  : Prop :=
  length stages = length defs
  /\ forall i d, defs !! i = Some d ->
       exists st,
         stages !! i = Some st
         /\ id st = d_id d /\ label st = d_label d
         /\ status st = if i =? 0 then active else pending.

Definition reports (stages : list stage) (k : nat) (v : status_value) : Prop :=
  exists st, stages !! k = Some st /\ status st = v.

End AIToolkitSpec.

(** Inputs used in the examples. *)
Module StageSamples.

(** A backup repository is named and the restore is switched on. *)
Definition env_restore : Comfy.env_info :=
  {| Comfy.backup_repo := Some "user/comfy-backup";
     Comfy.restore_enabled := true;
     Comfy.hf_token := false;
     Comfy.civitai_token := false |}.

(** No backup repository, no restore. *)
Definition env_plain : Comfy.env_info :=
  {| Comfy.backup_repo := None;
     Comfy.restore_enabled := false;
     Comfy.hf_token := false;
     Comfy.civitai_token := false |}.

(** What [build_backup_state] returns with the restore switched off. *)
Definition backup_off : Comfy.backup_state positive :=
  {| Comfy.enabled := false;
     Comfy.repo := None;
     Comfy.nodes := [];
     Comfy.has_manifest := false;
     Comfy.message := "Backup is not set." |}.

(** The restore switched on, no manifest yet. *)
Definition backup_on : Comfy.backup_state positive :=
  {| Comfy.enabled := true;
     Comfy.repo := Some "user/comfy-backup";
     Comfy.nodes := [];
     Comfy.has_manifest := false;
     Comfy.message := "Waiting for backup snapshot manifest..." |}.

(** The stage table with other patterns, and no detail rule, on the two
    backup stages. *)
Definition defs_backup_rewired : list Comfy.stage_def :=
  map (fun d =>
         if bool_decide (Comfy.d_id d ∈ Comfy.skip_ids backup_off)
         then {| Comfy.d_id := Comfy.d_id d;
                 Comfy.d_label := Comfy.d_label d;
                 Comfy.d_detail := Comfy.d_detail d;
                 Comfy.d_detail_factory := Comfy.d_detail_factory d;
                 Comfy.d_patterns := [Re.Lit "STAGE:"];
                 Comfy.d_detail_from_line := None |}
         else d) Comfy.STAGE_DEFS.

End StageSamples.

(** * The properties of the item statuses

    The words of the specification about [_apply_backup_progress] and
    [build_backup_state], and the notions the proofs further down
    use. *)

Module BackupSpec.

Import Re Backup.

(** The state of the loop of [_apply_backup_progress] once it has read
    [lines]: the nodes and [active_idx]. *)
Definition replay_state (nodes : list node) (lines : list string)
  : list node * option nat :=
  foldl (replay_line (index_by_key nodes) (index_by_repo nodes))
        (init_status nodes, None) lines.

(** The place of a status in the progress order
    pending, installing, then done or failed. *)
Definition rank (v : status_value) : nat :=
  match v with
  | pending => 0
  | installing | active => 1
  | done | failed => 2
  end.

Definition terminal (v : status_value) : Prop := v = done \/ v = failed.

(** The node a begin line (clone or cnr install) resolves to. *)
Definition begin_target (by_key by_repo : gmap string nat) (line : string)
  : option nat :=
  match re_search Comfy.RESTORE_CLONE_RE line with
  | Some clone => by_repo !! Comfy._normalize_repo (group1 clone)
  | None =>
      match re_search Comfy.RESTORE_CNR_RE line with
      | Some cnr => by_key !! Str.strip (group1 cnr)
      | None => None
      end
  end.

(** What the all-done marker makes of a status. *)
Definition promoted (v : status_value) : status_value :=
  match v with
  | pending | installing => done
  | _ => v
  end.

(** The line is the all-done marker and nothing else: none of the five
    patterns tried before it is found in the line. *)
Definition only_all_done (ln : string) : Prop :=
  re_search Comfy.RESTORE_CLONE_RE ln = None
  /\ re_search Comfy.RESTORE_CNR_RE ln = None
  /\ re_search Comfy.RESTORE_SKIP_RE ln = None
  /\ re_search Comfy.RESTORE_ERR_RE ln = None
  /\ re_search Comfy.RESTORE_FAIL_LIST_RE ln = None
  /\ found Comfy.RESTORE_DONE_RE ln = true.

(** The block after the loop reaches the item at [i]: once [lines] are
    read a node is still installing, and [i] comes before it. *)
Definition closing_applies (nodes : list node) (lines : list string)
    (i : nat) : Prop :=
  exists a,
    (replay_state nodes lines).2 = Some a
    /\ status_at (replay_state nodes lines).1 a = Some installing
    /\ i < a.

(** An item that is done or failed stays so over the next line: what
    the specification says in so many words. *)
Definition stays_terminal_rule (nodes : list node) (lines : list string)
    (ln : string) (i : nat) : Prop :=
  forall v, status_at (replay_state nodes lines).1 i = Some v -> terminal v ->
    exists v', status_at (replay_state nodes (lines ++ [ln])).1 i = Some v'
      /\ terminal v'.

(** How a loop over the indices treats the status at one index. *)
Definition pointwise (f : option status_value -> option status_value)
    (idx : nat) (nodes : list node) : list node :=
  match f (status_at nodes idx) with
  | Some v => na_set_status idx v nodes
  | None => nodes
  end.

(** The three loops over the nodes, as pointwise loops. *)
Definition init_rule (o : option status_value) : option status_value :=
  Some (default pending o).

Definition finish_rule (o : option status_value) : option status_value :=
  match o with
  | Some pending | Some installing => Some done
  | _ => None
  end.

Definition close_rule (o : option status_value) : option status_value :=
  if bool_decide (o = Some pending) then Some done else None.

(** The store view [hn] holds the dicts [l] at the distinct references
    [refs], and agrees with the store [h0] everywhere else. *)
Definition models (h0 : heap) (refs : list loc) (hn : heap_nodes)
    (l : list node) : Prop :=
  hn_refs hn = refs
  /\ NoDup refs
  /\ Forall2 (fun r d => hn_heap hn !! r = Some d) refs l
  /\ forall r, r ∉ refs -> hn_heap hn !! r = h0 !! r.

(** Every dict the cache refers to is alive and has no "status"
    entry. *)
Definition cache_clean (w : world) : Prop :=
  Forall (fun r => exists d, w_heap w !! r = Some d /\ node_status d = None)
         (cache_nodes w).

(** The dicts a list of references stands for. *)
Definition deref (h : heap) (refs : list loc) : list node :=
  omap (h !!.) refs.

(** The loader finds the manifest it has cached. *)
Definition cache_hit (file : snapshot_file) (w : world) : Prop :=
  exists mtime data, file = Present mtime data /\ cache_mtime w = Some mtime.

(** A call of [build_backup_state] leaves the two entries of the cache
    as they were: what the specification says in so many words. *)
Definition cache_untouched_rule (ENV_INFO : Comfy.env_info)
    (file : snapshot_file) (lines : list string) (w : world) : Prop :=
  let r := build_backup_state ENV_INFO file lines w in
  cache_nodes r.2 = cache_nodes w /\ cache_mtime r.2 = cache_mtime w.

(** What one call of [build_backup_state] leaves behind, and what the
    next call then starts from. *)
Definition writes_only_copies (ENV_INFO : Comfy.env_info)
    (file : snapshot_file) (lines : list string) (w : world) : Prop :=
  let r := build_backup_state ENV_INFO file lines w in
  (* no dict alive before the call is changed *)
  (forall l d, w_heap w !! l = Some d -> w_heap r.2 !! l = Some d)
  (* the cached dicts have no "status" entry *)
  /\ cache_clean r.2
  (* with the restore off, or the manifest unchanged, the cache is the
     same list *)
  /\ (Comfy.enabled r.1 = false \/ cache_hit file w ->
      cache_nodes r.2 = cache_nodes w /\ cache_mtime r.2 = cache_mtime w)
  (* otherwise the cache is the one the loader alone leaves *)
  /\ (Comfy.enabled r.1 = true ->
      let w1 := (_load_backup_nodes file w).2 in
      cache_nodes r.2 = cache_nodes w1 /\ cache_mtime r.2 = cache_mtime w1
      /\ deref (w_heap r.2) (cache_nodes r.2)
         = deref (w_heap w1) (cache_nodes w1))
  (* the nodes handed back are the replay of dicts without "status" *)
  /\ (exists values,
        Forall (fun d => node_status d = None) values
        /\ (forall i, i < length values ->
              status_at (replay_state values []).1 i = Some pending)
        /\ deref (w_heap r.2) (Comfy.nodes r.1)
           = _apply_backup_progress values lines
        /\ (Comfy.enabled r.1 = true -> cache_hit file w ->
            values = deref (w_heap w) (cache_nodes w)))
  (* a second poll of the unchanged manifest replays the cached dicts
     as they were before the first *)
  /\ (forall lines2,
        Comfy.enabled r.1 = true -> cache_hit file w ->
        let r2 := build_backup_state ENV_INFO file lines2 r.2 in
        deref (w_heap r2.2) (Comfy.nodes r2.1)
        = _apply_backup_progress (deref (w_heap w) (cache_nodes w)) lines2).

End BackupSpec.

(** Inputs used in the examples. *)
Module BackupSamples.

Import Backup.

(** A registry node and a git node as [_load_backup_nodes] builds
    them. *)
Definition registry_node (name : string) : node :=
  cnr_node name (Some "1.0.0").

Definition git_clone (url : string) : node :=
  {| node_key := Comfy._repo_label url;
     node_name := Comfy._repo_label url;
     node_source := src_git;
     node_repo := Some (Comfy._normalize_repo url);
     node_version := None;
     node_status := None |}.

(** The status entries of a node list. *)
Definition statuses (nodes : list node)
  : list (string * option status_value) :=
  map (fun n => (node_key n, node_status n)) nodes.

(** A manifest with one git node, one disabled git node and two
    registry nodes. *)
Definition manifest_abc : manifest :=
  {| git_custom_nodes :=
       [("https://github.com/user/alpha.git", GitDict false None);
        ("https://github.com/user/off", GitDict true None)];
     cnr_custom_nodes := [("beta", Some "1.2.0"); ("gamma", None)] |}.

(** The interpreter after a first poll that loaded [manifest_abc]
    while the log was still empty. *)
Definition world_loaded : world :=
  (build_backup_state StageSamples.env_restore
     (Present 1700000000 (Some manifest_abc)) [] initial_world).2.

End BackupSamples.

(** * The environment and the payload of the state endpoint *)

Module ComfyEnv.

(** [_bool_env(value, default)]; [value] is [None] for Python's
    [None]. *)
Definition _bool_env (value : option string) (default_ : string) : bool :=
  let raw := Str.lower (Str.strip (from_option id default_ value)) in
  bool_decide (raw ∈ ["1"; "true"; "yes"; "on"]).

(** The process environment [os.environ]. *)
Abbreviation environ := (gmap string string).

(** [(os.environ.get(name) or "").strip()] *)
Definition stripped_var (env : environ) (name : string) : string :=
  Str.strip (default EmptyString (env !! name)).

(** The dict [ENV_INFO], as the module builds it when it is loaded. *)
Definition ENV_INFO (env : environ) : Comfy.env_info :=
  {| Comfy.backup_repo :=
       let repo := stripped_var env "COMFYUI_BACKUP" in
       if truthy repo then Some repo else None;
     Comfy.restore_enabled :=
       _bool_env (Some (default "0" (env !! "RESTORE_BACKUP"))) "0";
     Comfy.hf_token := truthy (stripped_var env "HF_TOKEN");
     Comfy.civitai_token := truthy (stripped_var env "CIVITAI_TOKEN") |}.

End ComfyEnv.

(** The manifest as [yaml.safe_load] hands it over.  [Backup] takes it
    as a mapping whose two sections are mappings with str keys; the
    loader reads it outside its [try] blocks, so anything else raises.
    Here the loader is written over what the parser can return. *)
Module Manifest.

Import Tail Backup.

(** The exceptions [build_state_payload] can leave uncaught: those of
    [Tail], and three more. *)
Inductive error : Type :=
  | Uncaught (e : exn)
  | ValueError
  | AttributeError
  | TypeError.

Inductive result (A : Type) : Type :=
  | Ok (a : A)
  | Err (e : error).
Arguments Ok {A} _.
Arguments Err {A} _.

(** A key of the mapping "git_custom_nodes". *)
Inductive raw_key : Type :=
  | KeyStr (s : string)
  | KeyBytes     (* bytes: [strip()] works, [rstrip("/")] is a TypeError *)
  | KeyOther.    (* a number, a bool, [None], a date: no [strip] *)

(** The value [data.get(name) or {}] is taken from. *)
Inductive section (K E : Type) : Type :=
  | Absent                           (* no such key, or a falsy value *)
  | Mapping (items : list (K * E))
  | NotMapping.                      (* a truthy value without [items] *)
Arguments Absent {K E}.
Arguments Mapping {K E} _.
Arguments NotMapping {K E}.

(** The value of [yaml.safe_load(...) or {}]. *)
Inductive raw_data : Type :=
  | RawMapping (git : section raw_key git_entry)
               (cnr : section string (option string))
  | RawOther.    (* a truthy value without [get]: a list, a str, a number *)

(** What the loader finds at [SNAPSHOT_PATH].  [exists()] and [stat()]
    are called outside the [try] blocks: where one of them raises
    [OSError] (a directory on the way cannot be searched, or the file
    goes away between the two calls) the file is [RawInaccessible].
    The data is [None] when the yaml module, the read or the parse
    fails. *)
Inductive raw_file : Type :=
  | RawMissing
  | RawInaccessible
  | RawPresent (mtime : Z) (data : option raw_data).

(** [(data.get(name) or {}).items()] *)
Definition items_of {K E} (s : section K E) : result (list (K * E)) :=
  match s with
  | Absent => Ok []
  | Mapping items => Ok items
  | NotMapping => Err AttributeError
  end.

(** The first loop of the loader: a disabled dict is passed over before
    its key is read; otherwise [_repo_label(repo_url)] is the first to
    read the key. *)
Fixpoint git_nodes (items : list (raw_key * git_entry))
  : result (list node) :=
  match items with
  | [] => Ok []
  | (repo_url, node_data) :: rest =>
      match node_data, repo_url with
      | GitDict true _, _ => git_nodes rest
      | _, KeyStr url =>
          match git_nodes rest with
          | Ok nodes => Ok (option_list (git_node url node_data) ++ nodes)
          | Err e => Err e
          end
      | _, KeyBytes => Err TypeError
      | _, KeyOther => Err AttributeError
      end
  end.

(** The list [nodes] the two loops build. *)
Definition parsed_nodes (data : raw_data) : result (list node) :=
  match data with
  | RawOther => Err AttributeError
  | RawMapping git cnr =>
      match items_of git with
      | Err e => Err e
      | Ok git_items =>
          match git_nodes git_items with
          | Err e => Err e
          | Ok nodes =>
              match items_of cnr with
              | Err e => Err e
              | Ok cnr_items =>
                  Ok (nodes ++ map (fun p => cnr_node p.1 p.2) cnr_items)
              end
          end
      end
  end.

Definition _load_backup_nodes (file : raw_file) (w : world)
  : result (list loc * world) :=
  match file with
  | RawMissing =>
      Ok ([], {| w_heap := w_heap w; cache_mtime := None;
                 cache_nodes := [] |})
  | RawInaccessible => Err (Uncaught OSError)
  | RawPresent current_mtime data =>
      if bool_decide (cache_mtime w = Some current_mtime)
      then Ok (cache_nodes w, w)
      else
        match data with
        | None => Ok ([], w)
        | Some data =>
            match parsed_nodes data with
            | Err e => Err e
            | Ok values =>
                let '(nodes, h) := alloc_all values (w_heap w) in
                Ok (nodes, {| w_heap := h; cache_mtime := Some current_mtime;
                              cache_nodes := nodes |})
            end
        end
  end.

Definition build_backup_state (ENV_INFO : Comfy.env_info)
    (file : raw_file) (lines : list string) (w : world)
  : result (Comfy.backup_state loc * world) :=
  let enabled :=
    Comfy.restore_enabled ENV_INFO && truthy_opt (Comfy.backup_repo ENV_INFO) in
  let loaded :=
    if enabled then
      match _load_backup_nodes file w with
      | Err e => Err e
      | Ok (cached, w) =>
          let '(refs, h) := alloc_all (omap (w_heap w !!.) cached) (w_heap w) in
          let nodes :=
            _apply_backup_progress {| hn_heap := h; hn_refs := refs |} lines in
          Ok (nodes, negb (length refs =? 0),
              {| w_heap := hn_heap nodes; cache_mtime := cache_mtime w;
                 cache_nodes := cache_nodes w |})
      end
    else Ok ({| hn_heap := w_heap w; hn_refs := [] |}, false, w) in
  match loaded with
  | Err e => Err e
  | Ok (nodes, has_manifest, w) =>
      let message :=
        if negb (truthy_opt (Comfy.backup_repo ENV_INFO))
        then "Backup is not set."
        else if negb (Comfy.restore_enabled ENV_INFO)
        then "Backup is configured but RESTORE_BACKUP=0."
        else if na_len nodes =? 0
        then "Waiting for backup snapshot manifest..."
        else Str.of_nat (count_done nodes) +:+ "/"
             +:+ Str.of_nat (na_len nodes)
             +:+ " nodes processed from "
             +:+ default EmptyString (Comfy.backup_repo ENV_INFO) +:+ "." in
      Ok ({| Comfy.enabled := enabled;
             Comfy.repo := Comfy.backup_repo ENV_INFO;
             Comfy.nodes := hn_refs nodes;
             Comfy.has_manifest := has_manifest;
             Comfy.message := message |}, w)
  end.

(** The file [Backup] takes, when what is found is one: a file that
    can be looked at, whose parsed value, if any, is a mapping whose
    sections are mappings, every git entry that is not disabled having
    a str key.  The key of a disabled entry is never read. *)
Definition typed_entry (p : raw_key * git_entry)
  : option (string * git_entry) :=
  match p with
  | (KeyStr url, node_data) => Some (url, node_data)
  | (_, GitDict true name) => Some (EmptyString, GitDict true name)
  | _ => None
  end.

Definition typed_section {K E} (s : section K E) : option (list (K * E)) :=
  match s with
  | Absent => Some []
  | Mapping items => Some items
  | NotMapping => None
  end.

Definition typed_data (data : raw_data) : option manifest :=
  match data with
  | RawOther => None
  | RawMapping git cnr =>
      git_items ← typed_section git;
      git_typed ← mapM typed_entry git_items;
      cnr_items ← typed_section cnr;
      Some {| git_custom_nodes := git_typed; cnr_custom_nodes := cnr_items |}
  end.

Definition typed_file (file : raw_file) : option snapshot_file :=
  match file with
  | RawMissing => Some Missing
  | RawInaccessible => None
  | RawPresent mtime None => Some (Present mtime None)
  | RawPresent mtime (Some data) =>
      m ← typed_data data; Some (Present mtime (Some m))
  end.

End Manifest.

Module ComfyPayload.

Import Tail Backup Manifest.

Section Payload.

(** The value of [time.time()]. *)
Context {T : Type}.

(** The dict [build_state_payload] returns. *)
Record payload : Type := {
  timestamp : T;
  stages : list Comfy.stage;
  backup : Comfy.backup_state loc;
  env : Comfy.env_info
}.

Variable ENV_INFO : Comfy.env_info.
Variable files : string -> option (list Byte.byte).
Variable decode_ignore : list Byte.byte -> string.

(** [tail_lines(log_path)] as [build_state_payload] calls it: [open]
    refuses a path that holds a NUL with a [ValueError], which the
    [except OSError] clause does not take, before it looks at the
    files. *)
Definition tail_lines (log_path : string) : result (list string) :=
  if Str.has_char "000" log_path then Err ValueError
  else
    match ComfyTail.tail_lines files decode_ignore log_path
            ComfyTail.LOG_TAIL_BYTES with
    | Raise e => Err (Uncaught e)
    | Return lines => Ok lines
    end.

(** [build_state_payload(log_path)], with what is at [SNAPSHOT_PATH]
    and the clock as further inputs, and the store threaded through. *)
Definition build_state_payload (file : raw_file) (now : T)
    (log_path : string) (w : world) : result (payload * world) :=
  match tail_lines log_path with
  | Err e => Err e
  | Ok lines =>
      match Manifest.build_backup_state ENV_INFO file lines w with
      | Err e => Err e
      | Ok (backup_state, w) =>
          Ok ({| timestamp := now;
                 stages := Comfy.compute_stage_states ENV_INFO
                             Comfy.STAGE_DEFS lines backup_state;
                 backup := backup_state;
                 env := ENV_INFO |}, w)
      end
  end.

End Payload.

Arguments payload : clear implicits.

End ComfyPayload.

Module AIToolkitPayload.

Import Tail.

Section Payload.

Context {T : Type}.

Record payload : Type := {
  timestamp : T;
  stages : list AIToolkit.stage
}.

Variable files : string -> option (list Byte.byte).
Variable decode_ignore : list Byte.byte -> string.

Definition build_state_payload (now : T) (log_path : string)
  : outcome payload :=
  match AIToolkitTail.tail_lines files decode_ignore log_path
          AIToolkitTail.LOG_TAIL_BYTES with
  | Raise e => Raise e
  | Return lines =>
      Return {| timestamp := now;
                stages := AIToolkit.compute_stage_states
                            AIToolkit.AITK_STAGE_DEFS lines |}
  end.

End Payload.

Arguments payload : clear implicits.

End AIToolkitPayload.

(** * The properties of the tail reader *)

Module TailSpec.

(** A text without line boundary. *)
Fixpoint one_line (s : string) : bool :=
  match s with
  | EmptyString => true
  | String c s' => negb (Tail.is_linebreak c) && one_line s'
  end.

(** The text of a log: each line followed by a line feed. *)
Definition log_text (lines : list string) : string :=
  foldr (fun line rest => line +:+ String "010" rest) EmptyString lines.

End TailSpec.

(** * The properties of the matcher *)

Module ReSpec.

Import Re.

(** Two continuations that succeed together, whatever the groups, on a
    text and on its lower-case form. *)
Definition agree (next next' : cont) : Prop :=
  forall t g g', is_Some (next t g) <-> is_Some (next' (Str.lower t) g').

(** A text of ASCII characters. *)
Fixpoint ascii_only (s : string) : bool :=
  match s with
  | EmptyString => true
  | String c s' => (Str.code c <? 128) && ascii_only s'
  end.

(** [t] is what is left of [s] after some of its characters. *)
Definition rest_of (t s : string) : Prop := exists p, s = p +:+ t.

End ReSpec.

(** * Facts about the string functions *)

Module StrFacts.

Import Str.

Lemma rstrip_idem p s : rstrip p (rstrip p s) = rstrip p s.
Proof.
  induction s as [|c s IH]; simpl; [done|].
  destruct (rstrip p s) as [|d t] eqn:E.
  - destruct (p c) eqn:Hc; simpl; [done|]. by rewrite Hc.
  - simpl in *. by rewrite IH.
Qed.

Lemma length_rstrip p s : String.length (rstrip p s) <= String.length s.
Proof.
  induction s as [|c s IH]; simpl; [lia|].
  destruct (rstrip p s) as [|d t]; [destruct (p c)|]; simpl in *; lia.
Qed.

Lemma rstrip_full p s :
  String.length (rstrip p s) = String.length s -> rstrip p s = s.
Proof.
  induction s as [|c s IH]; simpl; [done|].
  pose proof (length_rstrip p s) as Hle.
  destruct (rstrip p s) as [|d t] eqn:E.
  - destruct (p c); simpl in *; intros Hl; [lia|].
    destruct s; simpl in *; [done|lia].
  - simpl in *. intros Hl. f_equal. apply IH. lia.
Qed.

Lemma length_lstrip p s : String.length (lstrip p s) <= String.length s.
Proof.
  induction s as [|c s IH]; simpl; [lia|]. destruct (p c); simpl; lia.
Qed.

Lemma lstrip_full p s :
  String.length (lstrip p s) = String.length s -> lstrip p s = s.
Proof.
  destruct s as [|c s]; simpl; [done|].
  pose proof (length_lstrip p s). destruct (p c); simpl; [lia|done].
Qed.

Lemma head_clear_lstrip p s : head_clear p (lstrip p s).
Proof. induction s as [|c s IH]; simpl; [done|]. by destruct (p c) eqn:E. Qed.

Lemma lstrip_head_clear p s : head_clear p s -> lstrip p s = s.
Proof. destruct s; simpl; [done|]. by intros ->. Qed.

Lemma head_clear_rstrip p q s : head_clear p s -> head_clear p (rstrip q s).
Proof.
  destruct s as [|c s]; simpl; [done|]. intros Hc.
  destruct (rstrip q s); [destruct (q c)|]; done.
Qed.

Lemma head_clear_substring p n s :
  head_clear p s -> head_clear p (String.substring 0 n s).
Proof. destruct s as [|c s], n; simpl; done. Qed.

Lemma length_substring0 n s :
  String.length (String.substring 0 n s) = n `min` String.length s.
Proof.
  revert n; induction s as [|c s IH]; intros [|n]; simpl; try done.
  by rewrite IH.
Qed.

Lemma endswith_length s suf :
  endswith s suf = true -> String.length suf <= String.length s.
Proof.
  induction s as [|c s IH]; cbn [endswith].
  - rewrite orb_false_r. intros Hs. apply String.eqb_eq in Hs. by subst.
  - intros [Hs|Hs]%orb_true_iff.
    + apply String.eqb_eq in Hs. by subst.
    + specialize (IH Hs). simpl. lia.
Qed.

End StrFacts.

(** * Repository locators *)

Module RepoNames.

Import Comfy StrFacts.

Lemma normalize_head_clear s : Str.head_clear Str.is_space (_normalize_repo s).
Proof.
  unfold _normalize_repo, Str.strip.
  apply head_clear_rstrip.
  assert (Str.head_clear Str.is_space
            (Str.rstrip Str.is_space (Str.lstrip Str.is_space s))) as Hh
    by apply head_clear_rstrip, head_clear_lstrip.
  destruct (Str.endswith _ _); [|done]. by apply head_clear_substring.
Qed.

Lemma normalize_length s :
  String.length (_normalize_repo s) <= String.length (Str.strip s).
Proof.
  unfold _normalize_repo.
  etrans; [apply length_rstrip|].
  destruct (Str.endswith _ _); [|done].
  unfold Str.drop_last. rewrite length_substring0. lia.
Qed.

Lemma strip_length s : String.length (Str.strip s) <= String.length s.
Proof. unfold Str.strip. etrans; [apply length_rstrip|apply length_lstrip]. Qed.

(** The strings [_normalize_repo] leaves alone. *)
Lemma normalize_fixpoint_iff t :
  _normalize_repo t = t <->
  Str.strip t = t /\ Str.endswith t ".git" = false
  /\ Str.rstrip Str.is_slash t = t.
Proof.
  split.
  - intros Hn.
    assert (Str.strip t = t) as Hs.
    { pose proof (normalize_length t) as H1. pose proof (strip_length t) as H2.
      rewrite Hn in H1.
      unfold Str.strip in *.
      pose proof (length_rstrip Str.is_space (Str.lstrip Str.is_space t)) as H3.
      pose proof (length_lstrip Str.is_space t) as H4.
      assert (Str.lstrip Str.is_space t = t) as Hl by (apply lstrip_full; lia).
      rewrite Hl in *. apply rstrip_full. lia. }
    unfold _normalize_repo in Hn. rewrite Hs in Hn.
    destruct (Str.endswith t ".git") eqn:He.
    + exfalso. apply endswith_length in He. simpl in He.
      pose proof (length_rstrip Str.is_slash (Str.drop_last 4 t)) as H1.
      rewrite Hn in H1. unfold Str.drop_last in H1.
      rewrite length_substring0 in H1. lia.
    + done.
  - intros (Hs & He & Hr). unfold _normalize_repo. by rewrite Hs, He.
Qed.

(** C10, as amended.  Normalising a second time changes nothing exactly
    when the first result neither ends in ".git" nor ends in
    whitespace. *)
Theorem normalize_repo_idempotent_iff (s : string) :
  _normalize_repo (_normalize_repo s) = _normalize_repo s <->
  Str.endswith (_normalize_repo s) ".git" = false
  /\ Str.rstrip Str.is_space (_normalize_repo s) = _normalize_repo s.
Proof.
  rewrite normalize_fixpoint_iff. split.
  - intros (Hs & He & _). split; [done|].
    unfold Str.strip in Hs.
    rewrite (lstrip_head_clear _ _ (normalize_head_clear s)) in Hs. done.
  - intros (He & Hs). split_and!; [|done|].
    + unfold Str.strip.
      by rewrite (lstrip_head_clear _ _ (normalize_head_clear s)).
    + unfold _normalize_repo at 2. apply rstrip_idem.
Qed.

(** C10 as written fails: of two ".git" suffixes each pass removes
    one. *)
Lemma normalize_repo_not_idempotent :
  _normalize_repo (_normalize_repo "a.git.git")
  <> _normalize_repo "a.git.git".
Proof. vm_compute. discriminate. Qed.

End RepoNames.

(** * Stage states of comfy_wait_page.py *)

Module ComfyStages.

Import Comfy ComfySpec.

Section Facts.

Variable ENV_INFO : env_info.
Variable DEFS : list stage_def.
Context {N : Type}.
Variable bs : backup_state N.

Let init : list stage := map (initial_stage ENV_INFO bs) DEFS.

Lemma shape_set_detail v s : shape (set_detail v s) = shape s.
Proof. done. Qed.

Lemma shape_alter_detail v (idx : nat) (stages : list stage) :
  shape <$> alter (set_detail v) idx stages = shape <$> stages.
Proof.
  rewrite (list_fmap_alter shape (set_detail v) (fun x => x)).
  - by apply list_alter_id.
  - by apply Forall_forall.
Qed.

Lemma scan_line_shape st line :
  shape <$> (scan_line DEFS st line).1 = shape <$> st.1.
Proof.
  unfold scan_line.
  destruct (match_line _ _ _) as [[idx d]|]; [|done]. simpl.
  destruct (d_detail_from_line d); [|done].
  destruct (truthy _); [|done]. apply shape_alter_detail.
Qed.

Lemma foldl_scan_shape lines st :
  shape <$> (foldl (scan_line DEFS) st lines).1 = shape <$> st.1.
Proof.
  revert st. induction lines as [|l lines IH]; intros st; simpl; [done|].
  by rewrite IH, scan_line_shape.
Qed.

Lemma shape_lookup (stages stages' : list stage) (i : nat) :
  shape <$> stages = shape <$> stages' ->
  shape <$> stages !! i = shape <$> stages' !! i.
Proof. intros Hs. by rewrite <-!list_lookup_fmap, Hs. Qed.

Lemma skipped_at_shape (stages stages' : list stage) (i : nat) :
  shape <$> stages = shape <$> stages' ->
  skipped_at stages i = skipped_at stages' i.
Proof.
  intros Hs%(shape_lookup _ _ i). unfold skipped_at.
  destruct (stages !! i) as [s|], (stages' !! i) as [s'|]; simplify_eq/=; done.
Qed.

Lemma skipped_at_init i :
  skipped_at init i
  = from_option (fun d => bool_decide (d_id d ∈ skip_ids bs)) false
      (DEFS !! i).
Proof.
  unfold skipped_at, init. rewrite list_lookup_fmap.
  by destruct (DEFS !! i).
Qed.

(** The inner loop finds the first definition that is neither skipped
    nor silent on the line. *)
Lemma match_line_found defs stages line n i d :
  defs !! i = Some d ->
  skipped_at stages (n + i) = false ->
  any_search (d_patterns d) line = true ->
  (forall j d', j < i -> defs !! j = Some d' ->
     skipped_at stages (n + j) = true
     \/ any_search (d_patterns d') line = false) ->
  match_line (imap (fun i x => (n + i, x)) defs) stages line = Some (n + i, d).
Proof.
  revert n i. induction defs as [|d0 defs IH]; intros n i Hi Hs Hm Hbefore;
    [done|].
  rewrite imap_cons. cbn [match_line]. destruct i as [|i]; simplify_eq/=.
  - by rewrite Hs, Hm.
  - assert (match_line (imap ((fun i x => (n + i, x)) ∘ S) defs) stages line
            = Some (n + S i, d)) as ->.
    { rewrite (imap_ext _ (fun i x => (S n + i, x))).
      - replace (n + S i) with (S n + i) by lia. apply IH; try done.
        + by replace (S n + i) with (n + S i) by lia.
        + intros j d' Hj Hd'. replace (S n + j) with (n + S j) by lia.
          apply (Hbefore (S j) d'); [lia|done].
      - intros j x _. simpl. f_equal. lia. }
    destruct (Hbefore 0 d0) as [->| ->]; try done; [lia|].
    by destruct (skipped_at stages (n + 0)).
Qed.

Lemma match_line_none defs stages line n :
  (forall j d', defs !! j = Some d' ->
     skipped_at stages (n + j) = true
     \/ any_search (d_patterns d') line = false) ->
  match_line (imap (fun i x => (n + i, x)) defs) stages line = None.
Proof.
  revert n. induction defs as [|d0 defs IH]; intros n Hall; [done|].
  rewrite imap_cons. cbn [match_line].
  assert (match_line (imap ((fun i x => (n + i, x)) ∘ S) defs) stages line
          = None) as ->.
  { rewrite (imap_ext _ (fun i x => (S n + i, x))).
    - apply IH. intros j d' Hd'. replace (S n + j) with (n + S j) by lia.
      by apply (Hall (S j) d').
    - intros j x _. simpl. f_equal. lia. }
  destruct (Hall 0 d0) as [->| ->]; try done.
  by destruct (skipped_at stages (n + 0)).
Qed.

Lemma enumerate_shift {A} (l : list A) :
  enumerate l = imap (fun i x => (0 + i, x)) l.
Proof. done. Qed.

Lemma not_matches_false d line :
  ~ matches d line -> any_search (d_patterns d) line = false.
Proof. unfold matches. by destruct (any_search _ _). Qed.

(** On stages shaped like the initial ones, a line that corresponds to
    stage [k] among the unskipped definitions moves [current_idx] to
    [k], and a silent line leaves the state alone. *)
Lemma scan_line_hit st line k :
  shape <$> st.1 = shape <$> init ->
  line_stage (unskipped bs) DEFS line k ->
  (scan_line DEFS st line).2 = Some k.
Proof.
  intros Hshape (d & Hd & Hun & Hm & Hbefore). unfold scan_line.
  rewrite enumerate_shift, (match_line_found DEFS st.1 line 0 k d); try done.
  - rewrite (skipped_at_shape _ init) by done.
    rewrite skipped_at_init. simpl. rewrite Hd. simpl.
    by apply bool_decide_eq_false.
  - intros j d' Hj Hd'. rewrite (skipped_at_shape _ init) by done.
    rewrite skipped_at_init. simpl. rewrite Hd'. simpl.
    destruct (decide (d_id d' ∈ skip_ids bs)) as [Hin|Hout].
    + left. by apply bool_decide_eq_true.
    + right. apply not_matches_false. by apply (Hbefore j).
Qed.

Lemma scan_line_silent st line :
  shape <$> st.1 = shape <$> init ->
  silent (unskipped bs) DEFS line ->
  scan_line DEFS st line = st.
Proof.
  intros Hshape Hsilent. unfold scan_line.
  rewrite enumerate_shift, (match_line_none DEFS st.1 line 0); [done|].
  intros j d' Hd'. rewrite (skipped_at_shape _ init) by done.
  rewrite skipped_at_init. simpl. rewrite Hd'. simpl.
  destruct (decide (d_id d' ∈ skip_ids bs)) as [Hin|Hout].
  - left. by apply bool_decide_eq_true.
  - right. apply not_matches_false. apply Hsilent; [|done].
    by eapply list_elem_of_lookup_2.
Qed.

Lemma foldl_scan_silent lines st :
  shape <$> st.1 = shape <$> init ->
  Forall (silent (unskipped bs) DEFS) lines ->
  foldl (scan_line DEFS) st lines = st.
Proof.
  intros Hshape Hall. revert st Hshape.
  induction Hall as [|l lines Hl _ IH]; intros st Hshape; simpl; [done|].
  rewrite scan_line_silent by done. by apply IH.
Qed.

Lemma foldl_scan_last lines k :
  last_matching_stage (unskipped bs) DEFS lines k ->
  (foldl (scan_line DEFS) (init, None) lines).2 = Some k.
Proof.
  intros (pre & ln & post & -> & Hk & Hpost).
  rewrite foldl_app. simpl.
  set (st := foldl (scan_line DEFS) (init, None) pre).
  assert (shape <$> st.1 = shape <$> init) as Hst
    by apply foldl_scan_shape.
  rewrite foldl_scan_silent; [by apply scan_line_hit|
    by rewrite scan_line_shape|done].
Qed.

(** The status and the skip flag of the stages handed to the last
    loop are those of the first loop. *)
Lemma scanned_lookup lines cur0 i st :
  (foldl (scan_line DEFS) (init, cur0) lines).1 !! i = Some st ->
  exists d, DEFS !! i = Some d
    /\ id st = d_id d
    /\ skipped st = bool_decide (d_id d ∈ skip_ids bs)
    /\ status st = if skipped st then done else pending.
Proof.
  intros Hst.
  pose proof (shape_lookup _ _ i (foldl_scan_shape lines (init, cur0))) as Hs.
  rewrite Hst in Hs. simpl in Hs. unfold init in Hs.
  rewrite list_lookup_fmap in Hs.
  destruct (DEFS !! i) as [d|]; [|done]. exists d. split; [done|].
  simpl in Hs. injection Hs as Hid _ Hstatus Hskip.
  rewrite Hskip, Hstatus, Hid. done.
Qed.

Lemma settle_lookup k stages i :
  settle k stages !! i
  = (fun stage =>
       if skipped stage then stage
       else if i <? k then set_status done stage
       else if i =? k then set_status active stage
       else set_status pending stage) <$> stages !! i.
Proof. unfold settle. by rewrite list_lookup_imap. Qed.

Lemma activate_first_cold stages :
  (forall st, st ∈ stages ->
     status st = if skipped st then done else pending) ->
  cold_start (activate_first stages).
Proof.
  induction stages as [|s stages IH]; intros Hinit; [done|].
  cbn [activate_first]. destruct (skipped s) eqn:Hs; intros i st Hi Hskip.
  - destruct i as [|i]; simplify_eq/=; [congruence|].
    destruct (IH (fun st' Hin => Hinit st' (list_elem_of_further _ _ _ Hin))
                 i st Hi Hskip) as [[Ha Hb]|[Ha (j & st' & Hj & Hst' & Hsk)]].
    + left. split; [done|]. intros [|j] st' Hj Hst'; simpl in Hst'.
      * by simplify_eq.
      * apply (Hb j); [lia|done].
    + right. split; [done|]. exists (S j), st'. split_and!; [lia|done|done].
  - destruct i as [|i]; simplify_eq/=.
    + left. split; [done|]. intros; lia.
    + right. split.
      * rewrite (Hinit st), Hskip; [done|].
        apply list_elem_of_further. by eapply list_elem_of_lookup_2.
      * exists 0, (set_status active s). split_and!; [lia|done|done].
Qed.

Lemma scanned_length lines cur0 :
  length (foldl (scan_line DEFS) (init, cur0) lines).1 = length DEFS.
Proof.
  pose proof (f_equal length (foldl_scan_shape lines (init, cur0))) as Hl.
  simpl in Hl. unfold init in Hl. by rewrite !length_fmap in Hl.
Qed.

Lemma activate_first_lookup stages i st :
  activate_first stages !! i = Some st ->
  exists st0, stages !! i = Some st0 /\ skipped st = skipped st0
    /\ (skipped st0 = true -> st = st0).
Proof.
  revert i. induction stages as [|s stages IH]; intros i; [done|].
  cbn [activate_first]. destruct (skipped s) eqn:Hs.
  - destruct i as [|i]; simpl; [|by apply IH].
    intros [= <-]. by exists s.
  - destruct i as [|i]; simpl.
    + intros [= <-]. exists s. split_and!; [done|done|]. congruence.
    + intros Hi. by exists st.
Qed.

Lemma settle_lookup_inv k stages i st :
  settle k stages !! i = Some st ->
  exists st0, stages !! i = Some st0 /\ skipped st = skipped st0
    /\ (skipped st0 = true -> st = st0).
Proof.
  rewrite settle_lookup. destruct (stages !! i) as [st0|]; [|done].
  simpl. intros [= <-]. exists st0. split; [done|].
  destruct (skipped st0) eqn:Hs; [done|].
  split; [|done]. by repeat case_match.
Qed.

(** The stage list handed back, whatever the lines. *)
Lemma compute_lookup lines i st :
  compute_stage_states ENV_INFO DEFS lines bs !! i = Some st ->
  exists d, DEFS !! i = Some d
    /\ skipped st = bool_decide (d_id d ∈ skip_ids bs)
    /\ (skipped st = true -> status st = done /\ id st = d_id d).
Proof.
  unfold compute_stage_states. fold init.
  destruct (foldl _ _ _) as [stages cur] eqn:E.
  intros Hst.
  assert (exists st0, stages !! i = Some st0 /\ skipped st = skipped st0
            /\ (skipped st0 = true -> st = st0)) as (st0 & Hst0 & Hsk & Hsame).
  { destruct cur;
      [by eapply settle_lookup_inv|by apply activate_first_lookup]. }
  pose proof (scanned_lookup lines None i st0) as Hscan.
  rewrite E in Hscan. destruct (Hscan Hst0) as (d & Hd & Hid & Hskd & Hstatus).
  exists d. split_and!; [done|congruence|].
  intros Hs. rewrite Hsk in Hs. rewrite (Hsame Hs), Hstatus, Hid. by rewrite Hs.
Qed.

Lemma compute_length lines :
  length (compute_stage_states ENV_INFO DEFS lines bs) = length DEFS.
Proof.
  unfold compute_stage_states. fold init.
  pose proof (scanned_length lines None) as Hl.
  destruct (foldl _ _ _) as [stages cur] eqn:E. simpl in Hl.
  destruct cur.
  - unfold settle. by rewrite length_imap.
  - rewrite <-Hl. clear. induction stages as [|s stages IH]; [done|].
    simpl. destruct (skipped s); simpl; by rewrite ?IH.
Qed.

Lemma compute_pipeline lines k :
  last_matching_stage (unskipped bs) DEFS lines k ->
  pipeline_at k (compute_stage_states ENV_INFO DEFS lines bs).
Proof.
  intros Hlast. pose proof (foldl_scan_last lines k Hlast) as Hcur.
  destruct Hlast as (pre & ln & post & -> & (d & Hd & Hun & _) & _).
  unfold compute_stage_states. fold init.
  pose proof (scanned_lookup (pre ++ ln :: post) None) as Hscan.
  pose proof (scanned_length (pre ++ ln :: post) None) as Hlen.
  destruct (foldl _ _ _) as [stages cur] eqn:E. simpl in *. subst cur.
  split.
  - destruct (lookup_lt_is_Some_2 stages k) as [st0 Hst0].
    { rewrite Hlen. by eapply lookup_lt_Some. }
    destruct (Hscan k st0 Hst0) as (d' & Hd' & _ & Hsk & _).
    rewrite Hd in Hd'. injection Hd' as <-.
    rewrite bool_decide_eq_false_2 in Hsk by done.
    exists (set_status active st0). rewrite settle_lookup, Hst0. simpl.
    rewrite Hsk, Nat.ltb_irrefl, Nat.eqb_refl. done.
  - intros i st. rewrite settle_lookup.
    destruct (stages !! i) as [st0|] eqn:Hst0; [|done]. simpl.
    destruct (Hscan i st0 Hst0) as (d' & _ & _ & _ & Hstatus).
    intros [= <-]. destruct (skipped st0) eqn:Hsk.
    + rewrite Hsk. split_and!; [done|done|done].
    + destruct (i <? k) eqn:E1; [|destruct (i =? k) eqn:E2]; simpl;
        rewrite Hsk; split_and!; try done; intros _ Hlt.
      * apply Nat.ltb_lt in E1. lia.
      * apply Nat.eqb_eq in E2. lia.
      * apply Nat.eqb_eq in E2. lia.
      * apply Nat.ltb_ge in E1. lia.
Qed.

Lemma compute_cold lines :
  Forall (silent (unskipped bs) DEFS) lines ->
  cold_start (compute_stage_states ENV_INFO DEFS lines bs).
Proof.
  intros Hsilent. unfold compute_stage_states. fold init.
  rewrite foldl_scan_silent by done.
  apply activate_first_cold. intros st Hst.
  unfold init in Hst. apply list_elem_of_fmap in Hst as (d & -> & _). done.
Qed.

(** The loop taken when no line matched, run on the stages the first
    loop builds. *)
Lemma activate_first_init defs :
  cold_start_of bs defs
    (activate_first (initial_stage ENV_INFO bs <$> defs)).
Proof.
  induction defs as [|d defs [IHlen IH]]; [by split|].
  rewrite fmap_cons. cbn [activate_first].
  assert (skipped (initial_stage ENV_INFO bs d)
          = bool_decide (d_id d ∈ skip_ids bs)) as Hsk by done.
  assert (status (initial_stage ENV_INFO bs d)
          = if bool_decide (d_id d ∈ skip_ids bs) then done else pending)
    as Hst by done.
  rewrite Hsk.
  destruct (decide (d_id d ∈ skip_ids bs)) as [Hin|Hout].
  - rewrite (bool_decide_eq_true_2 _ Hin) in *.
    split; [by rewrite !length_cons, IHlen|].
    intros [|i] d0 Hd0.
    + injection Hd0 as <-. exists (initial_stage ENV_INFO bs d).
      split; [done|]. rewrite Hsk, Hst.
      split_and!; try done; intros Hun; by destruct (Hun Hin).
    + destruct (IH i d0 Hd0) as (st & Hst' & Hid & Hlabel & Hsk' & Hd & Ha & Hp).
      exists st. split_and!; try done.
      * intros Hun Hfirst. apply Ha; [done|].
        intros j d' Hj Hd'. apply (Hfirst (S j) d'); [lia|done].
      * intros Hun (j & d' & Hj & Hd' & Hun'). apply Hp; [done|].
        destruct j as [|j].
        -- injection Hd' as <-. by destruct (Hun' Hin).
        -- exists j, d'. split_and!; [lia|done|done].
  - rewrite (bool_decide_eq_false_2 _ Hout) in *.
    split; [by rewrite !length_cons, length_fmap|].
    intros [|i] d0 Hd0.
    + injection Hd0 as <-.
      exists (set_status active (initial_stage ENV_INFO bs d)).
      split; [done|]. cbn [set_status id label skipped status]. rewrite Hsk.
      split_and!; try done. intros _ (j & d' & Hj & _). lia.
    + exists (initial_stage ENV_INFO bs d0). split.
      { change ((initial_stage ENV_INFO bs <$> defs) !! i
                = Some (initial_stage ENV_INFO bs d0)).
        rewrite list_lookup_fmap.
        change (defs !! i = Some d0) in Hd0. by rewrite Hd0. }
      assert (status (initial_stage ENV_INFO bs d0)
              = if bool_decide (d_id d0 ∈ skip_ids bs) then done
                else pending) as Hst0 by done.
      rewrite Hst0. split_and!; try done.
      * intros Hskip. rewrite bool_decide_eq_true_2; [done|].
        destruct (decide (d_id d0 ∈ skip_ids bs)) as [|Hn]; [done|].
        by destruct (Hskip Hn).
      * intros Hun Hfirst. destruct (Hfirst 0 d); [lia|done|done].
      * intros Hun _. by rewrite (bool_decide_eq_false_2 _ Hun).
Qed.

Lemma compute_cold_of lines :
  Forall (silent (unskipped bs) DEFS) lines ->
  cold_start_of bs DEFS (compute_stage_states ENV_INFO DEFS lines bs).
Proof.
  intros Hsilent. unfold compute_stage_states. fold init.
  rewrite foldl_scan_silent by done. unfold init. apply activate_first_init.
Qed.

(** Lines that match nothing leave the report of the empty log. *)
Lemma compute_silent_nil lines :
  Forall (silent (unskipped bs) DEFS) lines ->
  compute_stage_states ENV_INFO DEFS lines bs
  = compute_stage_states ENV_INFO DEFS [] bs.
Proof.
  intros Hsilent. unfold compute_stage_states. fold init.
  by rewrite foldl_scan_silent.
Qed.

End Facts.

Section Independence.

Variable ENV_INFO : env_info.
Context {N : Type}.
Variable bs : backup_state N.

Lemma initial_stage_same d d' :
  same_but_skipped bs d d' ->
  initial_stage ENV_INFO bs d' = initial_stage ENV_INFO bs d.
Proof.
  intros (Hid & Hl & Hd & Hf & _). unfold initial_stage.
  by rewrite Hid, Hl, Hd, Hf.
Qed.

Lemma init_same DEFS DEFS' :
  Forall2 (same_but_skipped bs) DEFS DEFS' ->
  map (initial_stage ENV_INFO bs) DEFS' = map (initial_stage ENV_INFO bs) DEFS.
Proof.
  induction 1 as [|d d' l l' Hd _ IH]; [done|].
  simpl. by rewrite IH, (initial_stage_same d d').
Qed.

Lemma match_line_same defs defs' stages line n :
  Forall2 (same_but_skipped bs) defs defs' ->
  (forall j d, defs !! j = Some d ->
     skipped_at stages (n + j) = bool_decide (d_id d ∈ skip_ids bs)) ->
  found_rule (match_line (imap (fun i x => (n + i, x)) defs') stages line)
  = found_rule (match_line (imap (fun i x => (n + i, x)) defs) stages line).
Proof.
  intros Hall. revert n.
  induction Hall as [|d d' l l' Hd _ IH]; intros n Hskip; [done|].
  rewrite !imap_cons. cbn [match_line].
  assert (found_rule
            (match_line (imap ((fun i x => (n + i, x)) ∘ S) l') stages line)
          = found_rule
              (match_line (imap ((fun i x => (n + i, x)) ∘ S) l) stages line))
    as Hrest.
  { rewrite (imap_ext _ (fun i x => (S n + i, x)) l')
      by (intros j x _; simpl; f_equal; lia).
    rewrite (imap_ext _ (fun i x => (S n + i, x)) l)
      by (intros j x _; simpl; f_equal; lia).
    apply IH. intros j d0 Hd0. replace (S n + j) with (n + S j) by lia.
    by apply (Hskip (S j)). }
  rewrite (Hskip 0 d) by done.
  destruct Hd as (_ & _ & _ & _ & Hpat).
  case_bool_decide as Hin; [done|].
  destruct (Hpat Hin) as [-> Hrule].
  destruct (any_search _ _); [|done]. simpl. by rewrite Hrule.
Qed.

Lemma scan_line_same DEFS DEFS' st line :
  Forall2 (same_but_skipped bs) DEFS DEFS' ->
  shape <$> st.1 = shape <$> map (initial_stage ENV_INFO bs) DEFS ->
  scan_line DEFS' st line = scan_line DEFS st line.
Proof.
  intros Hall Hshape.
  assert (found_rule
            (match_line (imap (fun i x => (0 + i, x)) DEFS') st.1 line)
          = found_rule
              (match_line (imap (fun i x => (0 + i, x)) DEFS) st.1 line))
    as Hm.
  { apply match_line_same; [done|]. intros j d0 Hd0.
    rewrite (skipped_at_shape _ _ _ Hshape), skipped_at_init. simpl.
    by rewrite Hd0. }
  unfold scan_line. rewrite !enumerate_shift.
  destruct (match_line (imap _ DEFS') _ _) as [[i' d']|],
           (match_line (imap _ DEFS) _ _) as [[i d]|];
    unfold found_rule in Hm; simplify_eq/=; try done.
  by match goal with H : d_detail_from_line _ = _ |- _ => rewrite H end.
Qed.

Lemma compute_same DEFS DEFS' lines :
  Forall2 (same_but_skipped bs) DEFS DEFS' ->
  compute_stage_states ENV_INFO DEFS' lines bs
  = compute_stage_states ENV_INFO DEFS lines bs.
Proof.
  intros Hall. unfold compute_stage_states. rewrite (init_same DEFS DEFS' Hall).
  set (init := map (initial_stage ENV_INFO bs) DEFS).
  assert (forall st, shape <$> st.1 = shape <$> init ->
            foldl (scan_line DEFS') st lines = foldl (scan_line DEFS) st lines)
    as ->; [|done|done].
  induction lines as [|l lines IH]; intros st Hst; simpl; [done|].
  rewrite (scan_line_same DEFS DEFS') by done.
  apply IH. by rewrite scan_line_shape.
Qed.

End Independence.

End ComfyStages.

(** * Stage states of ai_toolkit_wait_page.py *)

Module AIToolkitStages.

Import AIToolkit AIToolkitSpec.

Section Facts.

Variable DEFS : list stage_def.

Let init : list stage := map initial_stage DEFS.

Lemma status_alter_detail v (idx : nat) (stages : list stage) :
  status <$> alter (set_detail v) idx stages = status <$> stages.
Proof.
  rewrite (list_fmap_alter status (set_detail v) (fun x => x)).
  - by apply list_alter_id.
  - by apply Forall_forall.
Qed.

Lemma scan_line_status st line :
  status <$> (scan_line DEFS st line).1 = status <$> st.1.
Proof.
  unfold scan_line.
  destruct (match_line _ _) as [[idx d]|]; [|done]. simpl.
  destruct (d_detail_from_line d); [|done].
  destruct (truthy _); [|done]. apply status_alter_detail.
Qed.

Lemma foldl_scan_status lines st :
  status <$> (foldl (scan_line DEFS) st lines).1 = status <$> st.1.
Proof.
  revert st. induction lines as [|l lines IH]; intros st; simpl; [done|].
  by rewrite IH, scan_line_status.
Qed.

Lemma aitk_match_line_found defs line n i d :
  defs !! i = Some d ->
  any_search (d_patterns d) line = true ->
  (forall j d', j < i -> defs !! j = Some d' ->
     any_search (d_patterns d') line = false) ->
  match_line (imap (fun i x => (n + i, x)) defs) line = Some (n + i, d).
Proof.
  revert n i. induction defs as [|d0 defs IH]; intros n i Hi Hm Hbefore;
    [done|].
  rewrite imap_cons. cbn [match_line]. destruct i as [|i]; simplify_eq/=.
  - by rewrite Hm.
  - rewrite (Hbefore 0 d0) by (done || lia).
    rewrite (imap_ext _ (fun i x => (S n + i, x)))
      by (intros j x _; simpl; f_equal; lia).
    replace (n + S i) with (S n + i) by lia. apply IH; try done.
    intros j d' Hj Hd'. apply (Hbefore (S j) d'); [lia|done].
Qed.

Lemma aitk_match_line_none defs line n :
  (forall d', d' ∈ defs -> any_search (d_patterns d') line = false) ->
  match_line (imap (fun i x => (n + i, x)) defs) line = None.
Proof.
  revert n. induction defs as [|d0 defs IH]; intros n Hall; [done|].
  rewrite imap_cons. cbn [match_line].
  rewrite (Hall d0) by apply list_elem_of_here.
  rewrite (imap_ext _ (fun i x => (S n + i, x)))
    by (intros j x _; simpl; f_equal; lia).
  apply IH. intros d' Hd'. apply Hall. by apply list_elem_of_further.
Qed.

Lemma aitk_not_matches_false d line :
  ~ matches d line -> any_search (d_patterns d) line = false.
Proof. unfold matches. by destruct (any_search _ _). Qed.

Lemma aitk_enumerate_shift {A} (l : list A) :
  enumerate l = imap (fun i x => (0 + i, x)) l.
Proof. done. Qed.

Lemma aitk_scan_line_hit st line k :
  line_stage DEFS line k -> (scan_line DEFS st line).2 = Some k.
Proof.
  intros (d & Hd & Hm & Hbefore). unfold scan_line.
  rewrite aitk_enumerate_shift, (aitk_match_line_found DEFS line 0 k d);
    try done.
  intros j d' Hj Hd'. apply aitk_not_matches_false. by apply (Hbefore j).
Qed.

Lemma aitk_scan_line_silent st line :
  silent DEFS line -> scan_line DEFS st line = st.
Proof.
  intros Hsilent. unfold scan_line.
  rewrite aitk_enumerate_shift, (aitk_match_line_none DEFS line 0); [done|].
  intros d' Hd'. apply aitk_not_matches_false. by apply Hsilent.
Qed.

Lemma aitk_foldl_scan_silent lines st :
  Forall (silent DEFS) lines -> foldl (scan_line DEFS) st lines = st.
Proof.
  intros Hall. revert st.
  induction Hall as [|l lines Hl _ IH]; intros st; simpl; [done|].
  rewrite aitk_scan_line_silent by done. by apply IH.
Qed.

Lemma aitk_foldl_scan_last lines st k :
  last_matching_stage DEFS lines k ->
  (foldl (scan_line DEFS) st lines).2 = Some k.
Proof.
  intros (pre & ln & post & -> & Hk & Hpost).
  rewrite foldl_app. simpl.
  rewrite aitk_foldl_scan_silent by done. by apply aitk_scan_line_hit.
Qed.

Lemma scanned_status lines cur0 i st :
  (foldl (scan_line DEFS) (init, cur0) lines).1 !! i = Some st ->
  status st = pending.
Proof.
  intros Hst.
  pose proof (f_equal (.!! i) (foldl_scan_status lines (init, cur0))) as Hs.
  simpl in Hs. rewrite !list_lookup_fmap, Hst in Hs. unfold init in Hs.
  rewrite list_lookup_fmap in Hs. destruct (DEFS !! i); simplify_eq/=. done.
Qed.

Lemma aitk_scanned_length lines cur0 :
  length (foldl (scan_line DEFS) (init, cur0) lines).1 = length DEFS.
Proof.
  pose proof (f_equal length (foldl_scan_status lines (init, cur0))) as Hl.
  simpl in Hl. unfold init in Hl. by rewrite !length_fmap in Hl.
Qed.

Lemma aitk_compute_length lines :
  length (compute_stage_states DEFS lines) = length DEFS.
Proof.
  unfold compute_stage_states. fold init.
  pose proof (aitk_scanned_length lines None) as Hl.
  destruct (foldl _ _ _) as [stages cur] eqn:E. simpl in Hl.
  destruct cur.
  - unfold settle. by rewrite length_imap.
  - rewrite <-Hl. by destruct stages.
Qed.

Lemma aitk_compute_pipeline lines k :
  last_matching_stage DEFS lines k ->
  pipeline_at k (compute_stage_states DEFS lines).
Proof.
  intros Hlast.
  pose proof (aitk_foldl_scan_last lines (init, None) k Hlast) as Hcur.
  destruct Hlast as (pre & ln & post & -> & (d & Hd & _) & _).
  unfold compute_stage_states. fold init.
  pose proof (aitk_scanned_length (pre ++ ln :: post) None) as Hlen.
  destruct (foldl _ _ _) as [stages cur] eqn:E. simpl in *. subst cur.
  unfold settle. split.
  - destruct (lookup_lt_is_Some_2 stages k) as [st0 Hst0].
    { rewrite Hlen. by eapply lookup_lt_Some. }
    exists (set_status active st0). rewrite list_lookup_imap, Hst0. simpl.
    by rewrite Nat.ltb_irrefl, Nat.eqb_refl.
  - intros i st. rewrite list_lookup_imap.
    destruct (stages !! i) as [st0|]; [|done]. simpl. intros [= <-].
    destruct (i <? k) eqn:E1; [|destruct (i =? k) eqn:E2]; simpl;
      split; try done; intros Hlt.
    + apply Nat.ltb_lt in E1. lia.
    + apply Nat.eqb_eq in E2. lia.
    + apply Nat.eqb_eq in E2. lia.
    + apply Nat.ltb_ge in E1. lia.
Qed.

Lemma aitk_compute_cold lines :
  Forall (silent DEFS) lines ->
  cold_start (compute_stage_states DEFS lines).
Proof.
  intros Hsilent. unfold compute_stage_states. fold init.
  rewrite aitk_foldl_scan_silent by done.
  intros i st. unfold init. destruct DEFS as [|d defs]; [done|].
  destruct i as [|i]; simpl.
  - by intros [= <-].
  - rewrite list_lookup_fmap. destruct (defs !! i); [|done].
    by intros [= <-].
Qed.

Lemma aitk_compute_cold_of lines :
  Forall (silent DEFS) lines ->
  cold_start_of DEFS (compute_stage_states DEFS lines).
Proof.
  intros Hsilent. unfold compute_stage_states. fold init.
  rewrite aitk_foldl_scan_silent by done.
  unfold init. destruct DEFS as [|d defs]; [by split|].
  split; [by simpl; rewrite length_map|].
  intros [|i] d0 Hd0; simpl in Hd0.
  - injection Hd0 as <-. by eexists.
  - simpl. rewrite list_lookup_fmap, Hd0. by eexists.
Qed.

Lemma aitk_compute_silent_nil lines :
  Forall (silent DEFS) lines ->
  compute_stage_states DEFS lines = compute_stage_states DEFS [].
Proof.
  intros Hsilent. unfold compute_stage_states. fold init.
  by rewrite aitk_foldl_scan_silent.
Qed.

End Facts.

End AIToolkitStages.

(** * The stage report: the claims *)

Module StageClaims.

Import StageSamples.

(** Deciding a concrete instance of "no earlier definition matches". *)
Ltac earlier_silent :=
  let j := fresh "j" in
  intros j; intros;
  repeat (destruct j as [|j]; [simplify_eq/=; vm_compute; congruence|]);
  simpl in *; lia.

Ltac all_silent :=
  let Hd := fresh "Hd" in
  intros ? Hd; intros;
  repeat (apply elem_of_cons in Hd as [->|Hd]; [vm_compute; congruence|]);
  by apply elem_of_nil in Hd.

(** C1, as amended.  When the last line that matches a definition not
    skipped corresponds to stage [k], the report has every stage before
    [k] done, stage [k] active and every stage after it pending, the
    skipped ones being done; in ai_toolkit_wait_page.py, where nothing
    is skipped, this is the claim as written. *)
Theorem stage_report_follows_last_match :
  (forall ENV_INFO DEFS N (bs : Comfy.backup_state N) lines k,
     ComfySpec.last_matching_stage (ComfySpec.unskipped bs) DEFS lines k ->
     ComfySpec.pipeline_at k
       (Comfy.compute_stage_states ENV_INFO DEFS lines bs))
  /\ (forall DEFS lines k,
        AIToolkitSpec.last_matching_stage DEFS lines k ->
        AIToolkitSpec.pipeline_at k
          (AIToolkit.compute_stage_states DEFS lines)).
Proof.
  split.
  - intros. by apply ComfyStages.compute_pipeline.
  - intros. by apply AIToolkitStages.aitk_compute_pipeline.
Qed.

Lemma stage_report_follows_last_match_witness :
  ComfySpec.pipeline_at 2
    (Comfy.compute_stage_states env_plain Comfy.STAGE_DEFS
       ["Creating venv"; "STAGE: Installing sageattention";
        "STAGE: Preparing ComfyUI Manager"] backup_off)
  /\ AIToolkitSpec.pipeline_at 1
       (AIToolkit.compute_stage_states AIToolkit.AITK_STAGE_DEFS
          ["[ai-toolkit] cloning repo"; "pip install --upgrade pip";
           "Collecting wheel"]).
Proof.
  split.
  - apply (proj1 stage_report_follows_last_match).
    exists ["Creating venv"], "STAGE: Installing sageattention",
      ["STAGE: Preparing ComfyUI Manager"].
    split; [reflexivity|]. split.
    + eexists. split; [reflexivity|]. split; [vm_compute; set_solver|].
      split; [vm_compute; reflexivity|]. earlier_silent.
    + repeat constructor.
      intros d Hd Hun Hm. unfold ComfySpec.unskipped in Hun.
      repeat (apply elem_of_cons in Hd as [->|Hd];
              [first [by vm_compute in Hm
                     |apply Hun; vm_compute; set_solver]|]).
      by apply elem_of_nil in Hd.
  - apply (proj2 stage_report_follows_last_match).
    exists ["[ai-toolkit] cloning repo"], "pip install --upgrade pip",
      ["Collecting wheel"].
    split; [reflexivity|]. split.
    + eexists. split; [reflexivity|].
      split; [vm_compute; reflexivity|]. earlier_silent.
    + repeat constructor. all_silent.
Defined.

(** C1 as written fails: with the restore off, the last line that
    matches any definition is the one of the skipped stage 4; stage 2
    stays active and stage 4 is reported done. *)
Lemma last_match_rule_fails :
  ~ ComfySpec.last_match_rule env_plain Comfy.STAGE_DEFS backup_off
      ["STAGE: Installing sageattention"; "STAGE: Restoring backup"] 4.
Proof.
  intros Hrule.
  destruct Hrule as [(st & Hst & Hactive) _].
  - exists ["STAGE: Installing sageattention"], "STAGE: Restoring backup", [].
    split; [reflexivity|]. split; [|constructor].
    eexists. split; [reflexivity|]. split; [exact I|].
    split; [vm_compute; reflexivity|]. earlier_silent.
  - vm_compute in Hst. injection Hst as <-. discriminate Hactive.
Qed.

(** C2.  When no line matches a definition that is not skipped, the
    report is the cold start of the table: it has one stage for each
    definition, in order, the stage of the first definition not skipped
    is active and the stages of the other definitions not skipped are
    pending; and it is the report of the empty log. *)
Theorem cold_start_when_nothing_matches :
  (forall ENV_INFO DEFS N (bs : Comfy.backup_state N) lines,
     Forall (ComfySpec.silent (ComfySpec.unskipped bs) DEFS) lines ->
     ComfySpec.cold_start_of bs DEFS
       (Comfy.compute_stage_states ENV_INFO DEFS lines bs)
     /\ Comfy.compute_stage_states ENV_INFO DEFS lines bs
        = Comfy.compute_stage_states ENV_INFO DEFS [] bs)
  /\ (forall DEFS lines,
        Forall (AIToolkitSpec.silent DEFS) lines ->
        AIToolkitSpec.cold_start_of DEFS
          (AIToolkit.compute_stage_states DEFS lines)
        /\ AIToolkit.compute_stage_states DEFS lines
           = AIToolkit.compute_stage_states DEFS []).
Proof.
  split.
  - intros. split;
      [by apply ComfyStages.compute_cold_of
      |by apply ComfyStages.compute_silent_nil].
  - intros. split;
      [by apply AIToolkitStages.aitk_compute_cold_of
      |by apply AIToolkitStages.aitk_compute_silent_nil].
Qed.

Lemma cold_start_when_nothing_matches_witness :
  (ComfySpec.cold_start_of backup_off Comfy.STAGE_DEFS
     (Comfy.compute_stage_states env_plain Comfy.STAGE_DEFS
        ["Collecting wheel"; "STAGE: Restoring backup"] backup_off)
   /\ Comfy.compute_stage_states env_plain Comfy.STAGE_DEFS
        ["Collecting wheel"; "STAGE: Restoring backup"] backup_off
      = Comfy.compute_stage_states env_plain Comfy.STAGE_DEFS [] backup_off)
  /\ (AIToolkitSpec.cold_start_of AIToolkit.AITK_STAGE_DEFS
        (AIToolkit.compute_stage_states AIToolkit.AITK_STAGE_DEFS
           ["Collecting wheel"])
      /\ AIToolkit.compute_stage_states AIToolkit.AITK_STAGE_DEFS
           ["Collecting wheel"]
         = AIToolkit.compute_stage_states AIToolkit.AITK_STAGE_DEFS []).
Proof.
  split.
  - apply (proj1 cold_start_when_nothing_matches).
    repeat constructor;
      (intros d Hd Hun Hm; unfold ComfySpec.unskipped in Hun;
       repeat (apply elem_of_cons in Hd as [->|Hd];
               [first [by vm_compute in Hm
                      |apply Hun; vm_compute; set_solver]|]);
       by apply elem_of_nil in Hd).
  - apply (proj2 cold_start_when_nothing_matches).
    repeat constructor. all_silent.
Defined.

(** C4.  A stage whose id is in [skip_ids] (the two backup stages when
    the restore is not enabled) is reported done with its skipped flag
    set, hence never active, and the report does not depend on its
    patterns nor on its detail rule. *)
Theorem skipped_stage_is_done_and_unread :
  forall ENV_INFO DEFS N (bs : Comfy.backup_state N) lines,
    (Comfy.enabled bs = false ->
     Comfy.skip_ids bs = {[ "backup-manager"; "backup-nodes" ]})
    /\ (forall i d, DEFS !! i = Some d -> Comfy.d_id d ∈ Comfy.skip_ids bs ->
          exists st,
            Comfy.compute_stage_states ENV_INFO DEFS lines bs !! i = Some st
            /\ Comfy.id st = Comfy.d_id d
            /\ Comfy.status st = done
            /\ Comfy.skipped st = true
            /\ Comfy.status st <> active)
    /\ (forall DEFS', Forall2 (ComfySpec.same_but_skipped bs) DEFS DEFS' ->
          Comfy.compute_stage_states ENV_INFO DEFS' lines bs
          = Comfy.compute_stage_states ENV_INFO DEFS lines bs).
Proof.
  intros ENV_INFO DEFS N bs lines. split_and!.
  - unfold Comfy.skip_ids. by intros ->.
  - intros i d Hd Hin.
    destruct (lookup_lt_is_Some_2
                (Comfy.compute_stage_states ENV_INFO DEFS lines bs) i)
      as [st Hst].
    { rewrite ComfyStages.compute_length. by eapply lookup_lt_Some. }
    exists st. split; [done|].
    destruct (ComfyStages.compute_lookup _ _ _ _ _ _ Hst)
      as (d' & Hd' & Hsk & Hdone).
    rewrite Hd in Hd'. injection Hd' as <-.
    rewrite bool_decide_eq_true_2 in Hsk by done.
    destruct (Hdone Hsk) as [Hstatus Hid]. rewrite Hstatus. done.
  - intros DEFS' Hsame. by apply ComfyStages.compute_same.
Qed.

Lemma skipped_stage_is_done_and_unread_witness :
  (exists st,
     Comfy.compute_stage_states env_plain Comfy.STAGE_DEFS
       ["STAGE: Installing sageattention"; "STAGE: Restoring backup"]
       backup_off !! 4 = Some st
     /\ Comfy.id st = "backup-nodes"
     /\ Comfy.status st = done
     /\ Comfy.skipped st = true
     /\ Comfy.status st <> active)
  /\ Comfy.compute_stage_states env_plain defs_backup_rewired
       ["STAGE: Installing sageattention"; "STAGE: Restoring backup"]
       backup_off
     = Comfy.compute_stage_states env_plain Comfy.STAGE_DEFS
         ["STAGE: Installing sageattention"; "STAGE: Restoring backup"]
         backup_off.
Proof.
  split.
  - refine (proj1 (proj2 (skipped_stage_is_done_and_unread env_plain
                            Comfy.STAGE_DEFS _ backup_off _)) 4 _ eq_refl _).
    vm_compute. set_solver.
  - apply (proj2 (proj2 (skipped_stage_is_done_and_unread env_plain
                           Comfy.STAGE_DEFS _ backup_off _))).
    unfold defs_backup_rewired.
    apply Forall2_fmap_r, Forall_Forall2_diag, Forall_forall.
    intros d _. unfold ComfySpec.same_but_skipped, compose. cbv beta.
    case_bool_decide as Hin; [|done].
    split_and!; try reflexivity. intros Hout. by destruct (Hout Hin).
Defined.

(** C5, as amended.  When the appended line corresponds to stage
    [k + 1] and that stage is not skipped, the new report has stage
    [k + 1] active and stage [k] done; in ai_toolkit_wait_page.py, where
    nothing is skipped, this is the claim as written. *)
Theorem appended_line_advances_stage :
  (forall ENV_INFO DEFS N (bs : Comfy.backup_state N) lines ln k,
     ComfySpec.reports (Comfy.compute_stage_states ENV_INFO DEFS lines bs)
       k active ->
     ComfySpec.line_stage ComfySpec.any_definition DEFS ln (S k) ->
     (forall d, DEFS !! S k = Some d -> ComfySpec.unskipped bs d) ->
     ComfySpec.reports
       (Comfy.compute_stage_states ENV_INFO DEFS (lines ++ [ln]) bs)
       (S k) active
     /\ ComfySpec.reports
          (Comfy.compute_stage_states ENV_INFO DEFS (lines ++ [ln]) bs)
          k done)
  /\ (forall DEFS lines ln k,
        AIToolkitSpec.reports (AIToolkit.compute_stage_states DEFS lines)
          k active ->
        AIToolkitSpec.line_stage DEFS ln (S k) ->
        AIToolkitSpec.reports
          (AIToolkit.compute_stage_states DEFS (lines ++ [ln])) (S k) active
        /\ AIToolkitSpec.reports
             (AIToolkit.compute_stage_states DEFS (lines ++ [ln])) k done).
Proof.
  split.
  - intros ENV_INFO DEFS N bs lines ln k _ (d & Hd & _ & Hm & Hbefore) Hun.
    assert (ComfySpec.pipeline_at (S k)
              (Comfy.compute_stage_states ENV_INFO DEFS (lines ++ [ln]) bs))
      as [Hactive Hrest].
    { apply ComfyStages.compute_pipeline. exists lines, ln, [].
      split; [done|]. split; [|constructor].
      exists d. split_and!; [done|by apply Hun|done|].
      intros j d' Hj Hd' _. by apply (Hbefore j d'). }
    split; [done|].
    destruct (lookup_lt_is_Some_2
                (Comfy.compute_stage_states ENV_INFO DEFS (lines ++ [ln]) bs) k)
      as [st Hst].
    { rewrite ComfyStages.compute_length.
      apply lookup_lt_Some in Hd. lia. }
    exists st. split; [done|].
    destruct (Hrest k st Hst) as (Hskipped & Hbefore_k & _).
    destruct (Comfy.skipped st);
      [by apply Hskipped|apply Hbefore_k; [done|lia]].
  - intros DEFS lines ln k _ (d & Hd & Hm & Hbefore).
    assert (AIToolkitSpec.pipeline_at (S k)
              (AIToolkit.compute_stage_states DEFS (lines ++ [ln])))
      as [Hactive Hrest].
    { apply AIToolkitStages.aitk_compute_pipeline. exists lines, ln, [].
      split; [done|]. split; [|constructor]. by exists d. }
    split; [done|].
    destruct (lookup_lt_is_Some_2
                (AIToolkit.compute_stage_states DEFS (lines ++ [ln])) k)
      as [st Hst].
    { rewrite AIToolkitStages.aitk_compute_length.
      apply lookup_lt_Some in Hd. lia. }
    exists st. split; [done|].
    destruct (Hrest k st Hst) as (Hbefore_k & _). apply Hbefore_k. lia.
Qed.

Lemma appended_line_advances_stage_witness :
  (ComfySpec.reports
     (Comfy.compute_stage_states env_plain Comfy.STAGE_DEFS
        (["Creating venv"] ++ ["STAGE: Installing sageattention"]) backup_off)
     2 active
   /\ ComfySpec.reports
        (Comfy.compute_stage_states env_plain Comfy.STAGE_DEFS
           (["Creating venv"] ++ ["STAGE: Installing sageattention"])
           backup_off)
        1 done)
  /\ (AIToolkitSpec.reports
        (AIToolkit.compute_stage_states AIToolkit.AITK_STAGE_DEFS
           (["[ai-toolkit] cloning repo"] ++ ["pip install --upgrade pip"]))
        1 active
      /\ AIToolkitSpec.reports
           (AIToolkit.compute_stage_states AIToolkit.AITK_STAGE_DEFS
              (["[ai-toolkit] cloning repo"] ++ ["pip install --upgrade pip"]))
           0 done).
Proof.
  split.
  - apply (proj1 appended_line_advances_stage).
    + eexists. split; [vm_compute; reflexivity|reflexivity].
    + eexists. split; [reflexivity|]. split; [exact I|].
      split; [vm_compute; reflexivity|]. earlier_silent.
    + intros d [= <-]. vm_compute. set_solver.
  - apply (proj2 appended_line_advances_stage).
    + eexists. split; [vm_compute; reflexivity|reflexivity].
    + eexists. split; [reflexivity|].
      split; [vm_compute; reflexivity|]. earlier_silent.
Defined.

(** C5 as written fails: with the restore off and stage 2 active, a
    line of the skipped stage 3 leaves stage 2 active; stage 3 stays
    done. *)
Lemma append_rule_fails :
  ~ ComfySpec.append_rule env_plain Comfy.STAGE_DEFS backup_off
      ["STAGE: Installing sageattention"]
      "STAGE: Preparing ComfyUI Manager" 2.
Proof.
  intros Hrule.
  destruct Hrule as [(st & Hst & Hactive) _].
  - eexists. split; [vm_compute; reflexivity|reflexivity].
  - eexists. split; [reflexivity|]. split; [exact I|].
    split; [vm_compute; reflexivity|]. earlier_silent.
  - vm_compute in Hst. injection Hst as <-. discriminate Hactive.
Qed.

End StageClaims.

(** * Item statuses: facts about the nodes held by value *)

Module BackupFacts.

Import Re Backup BackupSpec.

Implicit Types nodes : list node.

Lemma status_at_set_ne nodes idx i w :
  idx <> i -> status_at (na_set_status idx w nodes) i = status_at nodes i.
Proof.
  intros Hne. unfold status_at. simpl. by rewrite list_lookup_alter_ne.
Qed.

Lemma status_at_set_eq nodes i w v :
  status_at nodes i = Some v -> status_at (na_set_status i w nodes) i = Some w.
Proof.
  unfold status_at. simpl. rewrite list_lookup_alter_eq.
  by destruct (nodes !! i).
Qed.

Lemma status_at_set nodes idx i w v :
  status_at nodes i = Some v ->
  status_at (na_set_status idx w nodes) i
  = Some (if decide (idx = i) then w else v).
Proof.
  intros Hv. case_decide as Heq.
  - subst. by eapply status_at_set_eq.
  - by rewrite status_at_set_ne.
Qed.

Lemma length_set nodes idx w :
  length (na_set_status idx w nodes) = length nodes.
Proof. simpl. apply length_alter. Qed.

Lemma status_at_set_here nodes i w :
  i < length nodes -> status_at (na_set_status i w nodes) i = Some w.
Proof.
  intros [nd Hnd]%lookup_lt_is_Some_2.
  unfold status_at. simpl. by rewrite list_lookup_alter_eq, Hnd.
Qed.

Lemma status_at_beyond nodes i :
  length nodes <= i -> status_at nodes i = None.
Proof.
  intros Hle. unfold status_at. simpl. by rewrite lookup_ge_None_2.
Qed.

Lemma pointwise_length f idx nodes :
  length (pointwise f idx nodes) = length nodes.
Proof. unfold pointwise. destruct (f _); [apply length_set|done]. Qed.

Lemma for_range_length f n nodes :
  length (for_range n (pointwise f) nodes) = length nodes.
Proof.
  unfold for_range. induction n as [|n IH]; [done|].
  rewrite seq_S, foldl_app. simpl. by rewrite pointwise_length.
Qed.

Lemma for_range_S n (body : nat -> list node -> list node) nodes :
  for_range (S n) body nodes = body n (for_range n body nodes).
Proof. unfold for_range. by rewrite seq_S, foldl_app. Qed.

Lemma for_range_untouched f n nodes i :
  n <= i ->
  status_at (for_range n (pointwise f) nodes) i = status_at nodes i.
Proof.
  induction n as [|n IH]; intros Hle; [done|].
  rewrite for_range_S. unfold pointwise at 1.
  destruct (f _); [|apply IH; lia].
  rewrite status_at_set_ne by lia. apply IH. lia.
Qed.

(** A loop over the first [n] indices that treats each status on its
    own. *)
Lemma for_range_pointwise f n nodes i :
  status_at (for_range n (pointwise f) nodes) i
  = if (i <? n) && (i <? length nodes)
    then match f (status_at nodes i) with
         | Some v => Some v
         | None => status_at nodes i
         end
    else status_at nodes i.
Proof.
  induction n as [|n IH]; [done|].
  rewrite for_range_S. unfold pointwise at 1.
  rewrite (for_range_untouched f n nodes n) by lia.
  destruct (decide (i = n)) as [->|Hne].
  - rewrite (proj2 (Nat.ltb_lt n (S n))) by lia. simpl.
    rewrite (for_range_untouched f n nodes n) in IH by lia.
    destruct (n <? length nodes) eqn:Hlen.
    + apply Nat.ltb_lt in Hlen.
      destruct (f (status_at nodes n)) as [w|];
        [|by rewrite for_range_untouched by lia].
      apply status_at_set_here. by rewrite for_range_length.
    + apply Nat.ltb_ge in Hlen.
      rewrite (status_at_beyond nodes n) by done.
      apply status_at_beyond.
      destruct (f None); rewrite ?length_alter, for_range_length; done.
  - assert ((i <? S n) = (i <? n)) as ->.
    { destruct (i <? n) eqn:E.
      - apply Nat.ltb_lt in E. apply Nat.ltb_lt. lia.
      - apply Nat.ltb_ge in E. apply Nat.ltb_ge. lia. }
    destruct (f (status_at nodes n)); [|done].
    by rewrite status_at_set_ne.
Qed.

Lemma for_range_ext n (body body' : nat -> list node -> list node) nodes :
  (forall idx nodes, body idx nodes = body' idx nodes) ->
  for_range n body nodes = for_range n body' nodes.
Proof.
  intros Hext. induction n as [|n IH]; [done|].
  by rewrite !for_range_S, IH, Hext.
Qed.

Lemma init_status_pointwise nodes :
  init_status nodes = for_range (length nodes) (pointwise init_rule) nodes.
Proof. done. Qed.

Lemma finish_open_pointwise nodes :
  finish_open nodes = for_range (length nodes) (pointwise finish_rule) nodes.
Proof.
  unfold finish_open. apply for_range_ext. intros idx nodes'.
  unfold pointwise, finish_rule.
  by destruct (status_at nodes' idx) as [[]|].
Qed.

Lemma close_loop_pointwise n nodes :
  for_range n
    (fun idx nodes =>
       if bool_decide (status_at nodes idx = Some pending)
       then na_set_status idx done nodes else nodes) nodes
  = for_range n (pointwise close_rule) nodes.
Proof.
  apply for_range_ext. intros idx nodes'. unfold pointwise, close_rule.
  by case_bool_decide.
Qed.

Lemma status_at_Some_lt nodes i v :
  status_at nodes i = Some v -> i < length nodes.
Proof.
  unfold status_at. simpl. destruct (nodes !! i) eqn:E; [|done].
  intros _. by eapply lookup_lt_Some.
Qed.

Lemma init_status_at nodes i :
  i < length nodes ->
  status_at (init_status nodes) i = Some (default pending (status_at nodes i)).
Proof.
  intros Hlt. rewrite init_status_pointwise, for_range_pointwise.
  by rewrite !(proj2 (Nat.ltb_lt _ _)) by done.
Qed.

Lemma finish_open_at nodes i :
  status_at (finish_open nodes) i = promoted <$> status_at nodes i.
Proof.
  rewrite finish_open_pointwise, for_range_pointwise.
  destruct (status_at nodes i) as [v|] eqn:Hv.
  - rewrite (proj2 (Nat.ltb_lt i (length nodes)))
      by (by eapply status_at_Some_lt).
    simpl. by destruct v.
  - by destruct (_ && _).
Qed.

Lemma close_earlier_at (st : list node * option nat) i v :
  status_at st.1 i = Some v ->
  exists v', status_at (close_earlier st) i = Some v' /\ rank v <= rank v'.
Proof.
  intros Hv. unfold close_earlier.
  destruct st.2 as [active_idx|]; [|by exists v].
  case_bool_decide; [|by exists v].
  rewrite close_loop_pointwise, for_range_pointwise, Hv.
  destruct (_ && _); [|by exists v].
  unfold close_rule. case_bool_decide; simplify_eq/=.
  - exists done. split; [done|]. simpl. lia.
  - by exists v.
Qed.

(** What the [or] of the two lookups makes of the first node: index 0
    is false, so the key lookup is dropped and the locator lookup
    decides. *)
Lemma resolve_index_zero (by_key by_repo : gmap string nat) k :
  by_key !! k = Some 0 ->
  resolve by_key by_repo k = by_repo !! Comfy._normalize_repo k.
Proof. unfold resolve. by intros ->. Qed.

(** A skip line that names the first node by its key is dropped, unless
    the key happens to be a locator of the manifest too. *)
Lemma skip_line_dropped_for_first_node (by_key by_repo : gmap string nat)
    (st : list node * option nat) line skip :
  re_search Comfy.RESTORE_CLONE_RE line = None ->
  re_search Comfy.RESTORE_CNR_RE line = None ->
  re_search Comfy.RESTORE_SKIP_RE line = Some skip ->
  by_key !! Str.strip (group1 skip) = Some 0 ->
  by_repo !! Comfy._normalize_repo (Str.strip (group1 skip)) = None ->
  replay_line by_key by_repo st line = st.
Proof.
  intros Hclone Hcnr Hskip Hkey Hrepo. unfold replay_line.
  rewrite Hclone, Hcnr, Hskip.
  by rewrite (resolve_index_zero _ _ _ Hkey), Hrepo.
Qed.

Section Steps.

Variables by_key by_repo : gmap string nat.

Lemma begin_at key (st : list node * option nat) i v :
  status_at st.1 i = Some v ->
  exists v', status_at (begin key st).1 i = Some v'
    /\ (rank v <= rank v' \/ (key = i /\ v' = installing)).
Proof.
  intros Hv. unfold begin. cbn [fst].
  set (nodes' := match st.2 with
                 | Some active_idx =>
                     if bool_decide
                          (status_at st.1 active_idx = Some installing)
                        && negb (active_idx =? key)
                     then na_set_status active_idx done st.1
                     else st.1
                 | None => st.1
                 end).
  assert (exists w, status_at nodes' i = Some w /\ rank v <= rank w)
    as (w & Hw & Hrank).
  { subst nodes'. destruct st.2 as [active_idx|]; [|by exists v].
    destruct (bool_decide _ && _) eqn:E; [|by exists v].
    apply andb_true_iff in E as [Hinst%bool_decide_eq_true _].
    rewrite (status_at_set _ _ _ _ v) by done. eexists. split; [done|].
    case_decide; [|done]. subst. rewrite Hinst in Hv. injection Hv as <-.
    simpl. lia. }
  rewrite (status_at_set _ _ _ _ w) by done. eexists. split; [done|].
  case_decide; [by right|by left].
Qed.

Lemma mark_failed_list_at keys (nodes : list node) i v :
  status_at nodes i = Some v ->
  exists v', status_at (mark_failed_list by_key by_repo keys nodes) i = Some v'
    /\ rank v <= rank v'.
Proof.
  unfold mark_failed_list. revert nodes v.
  induction keys as [|k keys IH]; intros nodes v Hv; cbn [foldl];
    [by exists v|].
  destruct (resolve by_key by_repo (Str.strip k)) as [idx|].
  - destruct (IH (na_set_status idx failed nodes)
                 (if decide (idx = i) then failed else v))
      as (v' & Hv' & Hrank); [by apply status_at_set|].
    exists v'. split; [done|]. case_decide; [|done].
    destruct v'; simpl in *; try lia; destruct v; simpl; lia.
  - by apply IH.
Qed.

(** One line of the log never moves a status down the progress order,
    but for the node a begin line resolves to. *)
Lemma replay_line_at (st : list node * option nat) line i v :
  status_at st.1 i = Some v ->
  exists v', status_at (replay_line by_key by_repo st line).1 i = Some v'
    /\ (rank v <= rank v'
        \/ (begin_target by_key by_repo line = Some i /\ v' = installing)).
Proof.
  intros Hv. unfold replay_line, begin_target.
  destruct (re_search Comfy.RESTORE_CLONE_RE line) as [clone|].
  { destruct (by_repo !! _) as [key|]; [|by exists v; split; [|left]].
    destruct (begin_at key st i v Hv) as (v' & Hv' & [Hr|[Hk Hi]]);
      exists v'; (split; [done|]); [by left|right; by subst]. }
  destruct (re_search Comfy.RESTORE_CNR_RE line) as [cnr|].
  { destruct (by_key !! _) as [key|]; [|by exists v; split; [|left]].
    destruct (begin_at key st i v Hv) as (v' & Hv' & [Hr|[Hk Hi]]);
      exists v'; (split; [done|]); [by left|right; by subst]. }
  destruct (re_search Comfy.RESTORE_SKIP_RE line) as [skip|].
  { destruct (resolve _ _ _) as [idx|]; [|by exists v; split; [|left]].
    cbn [fst]. rewrite (status_at_set _ _ _ _ v) by done.
    eexists. split; [done|]. left.
    case_decide; [destruct v; simpl; lia|done]. }
  destruct (re_search Comfy.RESTORE_ERR_RE line) as [err_match|].
  { destruct (resolve _ _ _) as [idx|]; [|by exists v; split; [|left]].
    cbn [fst]. rewrite (status_at_set _ _ _ _ v) by done.
    eexists. split; [done|]. left.
    case_decide; [destruct v; simpl; lia|done]. }
  destruct (re_search Comfy.RESTORE_FAIL_LIST_RE line) as [fail_list|].
  { cbn [fst]. destruct (mark_failed_list_at (Str.split "," (group1 fail_list))
                       st.1 i v Hv) as (v' & Hv' & Hr).
    exists v'. split; [done|by left]. }
  destruct (found Comfy.RESTORE_DONE_RE line); [|by exists v; split; [|left]].
  cbn [fst]. rewrite finish_open_at, Hv. eexists. split; [done|]. left.
  destruct v; simpl; lia.
Qed.

End Steps.

End BackupFacts.

(** * The tail reader: the claim *)

Module TailClaims.

Import Tail.

(** C3.  Where the file cannot be opened both readers return the empty
    list.  Where it can, the reader of comfy_wait_page.py returns the
    lines of the decoded tail, and the reader of
    ai_toolkit_wait_page.py, a module that does not import [os], leaves
    a [NameError] to its caller. *)
Theorem tail_lines_outcomes :
  forall files decode_ignore path max_bytes,
    ComfyTail.tail_lines files decode_ignore path max_bytes
    = match files path with
      | None => Return []
      | Some content =>
          Return (splitlines
                    (decode_ignore
                       (drop (Z.to_nat
                                (Z.max (Z.of_nat (length content) - max_bytes) 0))
                             content)))
      end
    /\ AIToolkitTail.tail_lines files decode_ignore path max_bytes
       = match files path with
         | None => Return []
         | Some _ => Raise (NameError "os")
         end.
Proof.
  intros files decode_ignore path max_bytes.
  unfold ComfyTail.tail_lines, AIToolkitTail.tail_lines, tail_lines_in.
  by destruct (files path).
Qed.

End TailClaims.

(** * Two representations of the node list run in step *)

Module Simulation.

Import Re Backup.

Section Related.

Context {A B : Type} `{NA : NodeArray A} `{NB : NodeArray B}.

Variable R : A -> B -> Prop.

Hypothesis R_len : forall a b, R a b -> na_len a = na_len b.
Hypothesis R_get : forall a b i, R a b -> na_get a i = na_get b i.
Hypothesis R_set : forall a b i v,
  R a b -> R (na_set_status i v a) (na_set_status i v b).

Lemma sim_status_at a b i : R a b -> status_at a i = status_at b i.
Proof. intros HR. unfold status_at. by rewrite (R_get a b). Qed.

Lemma sim_contents a b : R a b -> contents a = contents b.
Proof.
  intros HR. unfold contents. rewrite (R_len a b HR).
  apply list_omap_ext, Forall2_same_length_lookup_2; [done|].
  intros i x y Hx Hy. rewrite Hx in Hy. injection Hy as <-.
  by apply R_get.
Qed.

Lemma sim_for_range n (fa : nat -> A -> A) (fb : nat -> B -> B) a b :
  (forall idx a b, R a b -> R (fa idx a) (fb idx b)) ->
  R a b -> R (for_range n fa a) (for_range n fb b).
Proof.
  intros Hbody HR. unfold for_range.
  induction n as [|n IH]; [done|].
  rewrite seq_S, !foldl_app. simpl. by apply Hbody.
Qed.

Lemma sim_init_status a b : R a b -> R (init_status a) (init_status b).
Proof.
  intros HR. unfold init_status. rewrite (R_len a b HR).
  apply sim_for_range; [|done]. intros idx a' b' HR'.
  rewrite (sim_status_at a' b' idx HR'). by apply R_set.
Qed.

Lemma sim_finish_open a b : R a b -> R (finish_open a) (finish_open b).
Proof.
  intros HR. unfold finish_open. rewrite (R_len a b HR).
  apply sim_for_range; [|done]. intros idx a' b' HR'.
  rewrite (sim_status_at a' b' idx HR').
  destruct (status_at b' idx) as [[]|]; try done; by apply R_set.
Qed.

Section Line.

Variables by_key by_repo : gmap string nat.

Lemma sim_begin key sa sb :
  R sa.1 sb.1 /\ sa.2 = sb.2 ->
  R (begin key sa).1 (begin key sb).1 /\ (begin key sa).2 = (begin key sb).2.
Proof.
  intros [HR Hact]. unfold begin. rewrite Hact. split; [|done]. simpl.
  apply R_set. destruct sb.2 as [active_idx|]; [|done].
  rewrite (sim_status_at _ _ active_idx HR).
  destruct (_ && _); [by apply R_set|done].
Qed.

Lemma sim_mark_failed_list keys a b :
  R a b ->
  R (mark_failed_list by_key by_repo keys a)
    (mark_failed_list by_key by_repo keys b).
Proof.
  unfold mark_failed_list. revert a b.
  induction keys as [|k keys IH]; intros a b HR; simpl; [done|].
  apply IH. destruct (resolve _ _ _); [by apply R_set|done].
Qed.

Lemma sim_replay_line sa sb line :
  R sa.1 sb.1 /\ sa.2 = sb.2 ->
  R (replay_line by_key by_repo sa line).1
    (replay_line by_key by_repo sb line).1
  /\ (replay_line by_key by_repo sa line).2
     = (replay_line by_key by_repo sb line).2.
Proof.
  intros HRs. pose proof HRs as [HR Hact]. unfold replay_line.
  destruct (re_search Comfy.RESTORE_CLONE_RE line).
  { destruct (by_repo !! _); [by apply sim_begin|done]. }
  destruct (re_search Comfy.RESTORE_CNR_RE line).
  { destruct (by_key !! _); [by apply sim_begin|done]. }
  destruct (re_search Comfy.RESTORE_SKIP_RE line).
  { destruct (resolve _ _ _); [|done]. split; [by apply R_set|done]. }
  destruct (re_search Comfy.RESTORE_ERR_RE line).
  { destruct (resolve _ _ _); [|done]. split; [by apply R_set|done]. }
  destruct (re_search Comfy.RESTORE_FAIL_LIST_RE line).
  { split; [by apply sim_mark_failed_list|done]. }
  destruct (found Comfy.RESTORE_DONE_RE line); [|done].
  split; [by apply sim_finish_open|done].
Qed.

Lemma sim_replay lines sa sb :
  R sa.1 sb.1 /\ sa.2 = sb.2 ->
  R (foldl (replay_line by_key by_repo) sa lines).1
    (foldl (replay_line by_key by_repo) sb lines).1
  /\ (foldl (replay_line by_key by_repo) sa lines).2
     = (foldl (replay_line by_key by_repo) sb lines).2.
Proof.
  revert sa sb. induction lines as [|l lines IH]; intros sa sb HRs; [done|].
  simpl. by apply IH, sim_replay_line.
Qed.

End Line.

Lemma sim_close_earlier sa sb :
  R sa.1 sb.1 /\ sa.2 = sb.2 -> R (close_earlier sa) (close_earlier sb).
Proof.
  intros [HR Hact]. unfold close_earlier. rewrite Hact.
  destruct sb.2 as [active_idx|]; [|done].
  rewrite (sim_status_at _ _ active_idx HR).
  case_bool_decide; [|done].
  apply sim_for_range; [|done]. intros idx a' b' HR'.
  rewrite (sim_status_at a' b' idx HR').
  case_bool_decide; [by apply R_set|done].
Qed.

(** Related node lists stay related through [_apply_backup_progress]. *)
Lemma sim_apply_backup_progress a b lines :
  R a b ->
  R (_apply_backup_progress a lines) (_apply_backup_progress b lines).
Proof.
  intros HR. unfold _apply_backup_progress. rewrite (R_len a b HR).
  destruct (na_len b =? 0); [done|].
  unfold index_by_key, index_by_repo. rewrite (sim_contents a b HR).
  apply sim_close_earlier, sim_replay. split; [|done].
  by apply sim_init_status.
Qed.

End Related.

End Simulation.

(** * The store: copies, frames and the cache *)

Module HeapFacts.

Import Re Backup BackupSpec.

Lemma alloc_all_spec values h refs h' :
  alloc_all values h = (refs, h') ->
  NoDup refs
  /\ (forall r, r ∈ refs -> h !! r = None)
  /\ Forall2 (fun r d => h' !! r = Some d) refs values
  /\ (forall r, r ∉ refs -> h' !! r = h !! r).
Proof.
  revert h refs h'. induction values as [|d values IH]; intros h refs h'.
  - intros [= <- <-]. split_and!; [constructor|by intros r ?%elem_of_nil|
      constructor|done].
  - cbn [alloc_all].
    destruct (alloc_all values (<[fresh (dom h) := d]> h)) as [ls h1] eqn:E.
    intros [= <- <-].
    destruct (IH _ _ _ E) as (Hnd & Hfresh & Hvals & Hframe).
    set (l := fresh (dom h)) in *.
    assert (h !! l = None) as Hl by apply not_elem_of_dom, is_fresh.
    assert (l ∉ ls) as Hnotin.
    { intros Hin. specialize (Hfresh l Hin).
      by rewrite lookup_insert_eq in Hfresh. }
    split_and!.
    + by constructor.
    + intros r [->|Hin]%elem_of_cons; [done|].
      specialize (Hfresh r Hin).
      destruct (decide (l = r)) as [->|Hne]; [done|].
      by rewrite lookup_insert_ne in Hfresh.
    + constructor; [|done]. by rewrite Hframe, lookup_insert_eq.
    + intros r [Hne Hnot]%not_elem_of_cons.
      rewrite Hframe by done. by rewrite lookup_insert_ne.
Qed.

Lemma alter_beyond {X} (f : X -> X) (l : list X) (i : nat) :
  length l <= i -> alter f i l = l.
Proof.
  intros Hle. apply list_eq. intros j.
  destruct (decide (i = j)) as [->|Hne].
  - by rewrite list_lookup_alter_eq, lookup_ge_None_2.
  - by rewrite list_lookup_alter_ne.
Qed.

Lemma models_len h0 refs hn l : models h0 refs hn l -> na_len hn = na_len l.
Proof.
  intros (Hrefs & _ & Hall & _). simpl. rewrite Hrefs.
  by eapply Forall2_length.
Qed.

Lemma models_get h0 refs hn l i :
  models h0 refs hn l -> na_get hn i = na_get l i.
Proof.
  intros (Hrefs & _ & Hall & _). subst refs. simpl.
  destruct (hn_refs hn !! i) as [r|] eqn:Hr; simpl.
  - destruct (Forall2_lookup_l _ _ _ _ _ Hall Hr) as (d & Hd & Hrd).
    by rewrite Hd.
  - symmetry. apply lookup_ge_None. rewrite <-(Forall2_length _ _ _ Hall).
    by apply lookup_ge_None.
Qed.

Lemma models_set h0 refs hn l i v :
  models h0 refs hn l ->
  models h0 refs (na_set_status i v hn) (na_set_status i v l).
Proof.
  intros (Hrefs & Hnd & Hall & Hframe). subst refs. unfold models. simpl.
  destruct (hn_refs hn !! i) as [r|] eqn:Hr.
  - simpl. split_and!; [done|done| |].
    + apply Forall2_same_length_lookup_2.
      { rewrite length_alter. by eapply Forall2_length. }
      intros j r' d' Hr' Hd'.
      destruct (decide (i = j)) as [->|Hne].
      * rewrite Hr in Hr'. injection Hr' as <-.
        rewrite list_lookup_alter_eq in Hd'.
        destruct (l !! j) as [d|] eqn:Hd; [|done]. injection Hd' as <-.
        rewrite lookup_alter_eq.
        by rewrite (Forall2_lookup_lr _ _ _ _ _ _ Hall Hr Hd).
      * rewrite list_lookup_alter_ne in Hd' by done.
        rewrite lookup_alter_ne.
        -- exact (Forall2_lookup_lr _ _ _ _ _ _ Hall Hr' Hd').
        -- intros <-. apply Hne. by eapply NoDup_lookup.
    + intros r0 Hr0. rewrite lookup_alter_ne; [by apply Hframe|].
      intros <-. apply Hr0. by eapply list_elem_of_lookup_2.
  - split_and!; [done|done| |done].
    rewrite alter_beyond; [done|].
    rewrite <-(Forall2_length _ _ _ Hall). by apply lookup_ge_None.
Qed.

(** Run on references, [_apply_backup_progress] writes what it writes
    on the dicts themselves, and nothing outside its references. *)
Lemma apply_on_refs h0 refs hn l lines :
  models h0 refs hn l ->
  models h0 refs (_apply_backup_progress hn lines)
                 (_apply_backup_progress l lines).
Proof.
  apply (Simulation.sim_apply_backup_progress (models h0 refs)).
  - intros a b. apply models_len.
  - intros a b i. apply models_get.
  - intros a b i v. apply models_set.
Qed.

Lemma deref_models h refs (l : list node) :
  Forall2 (fun r d => h !! r = Some d) refs l -> deref h refs = l.
Proof.
  unfold deref. induction 1 as [|r d refs l Hr _ IH]; [done|].
  simpl. rewrite Hr. simpl. f_equal. exact IH.
Qed.

Lemma deref_extend h h' refs :
  Forall (fun r => is_Some (h !! r)) refs ->
  (forall r d, h !! r = Some d -> h' !! r = Some d) ->
  deref h' refs = deref h refs.
Proof.
  unfold deref. intros Halive Hext.
  induction Halive as [|r refs [d Hd] _ IH]; [done|].
  simpl. rewrite Hd, (Hext r d Hd). simpl. f_equal. exact IH.
Qed.

Lemma deref_clean h refs :
  Forall (fun r => exists d, h !! r = Some d /\ node_status d = None) refs ->
  Forall (fun d => node_status d = None) (deref h refs)
  /\ Forall2 (fun r d => h !! r = Some d) refs (deref h refs).
Proof.
  unfold deref. induction 1 as [|r refs (d & Hd & Hnone) _ [IH1 IH2]];
    [by split|].
  simpl. rewrite Hd. simpl. split; by constructor.
Qed.

Lemma manifest_nodes_clean data :
  Forall (fun d => node_status d = None) (manifest_nodes data).
Proof.
  unfold manifest_nodes. apply Forall_app. split.
  - apply Forall_forall. intros d [[url entry] [_ Hd]]%list_elem_of_omap.
    unfold git_node in Hd. simpl in Hd.
    destruct entry as [[] name|]; by simplify_eq/=.
  - apply Forall_forall. by intros d [[name version] [-> _]]%list_elem_of_fmap.
Qed.

Lemma refs_clean (h : heap) refs (values : list node) :
  Forall2 (fun r d => h !! r = Some d) refs values ->
  Forall (fun d => node_status d = None) values ->
  Forall (fun r => exists d, h !! r = Some d /\ node_status d = None) refs.
Proof.
  induction 1 as [|r d refs values Hr _ IH]; [constructor|].
  intros [Hd Hrest]%Forall_cons. constructor; [by exists d|by apply IH].
Qed.

(** The loader changes no dict, keeps the cache clean, and hands out
    references to dicts without "status". *)
Lemma load_spec file w cached w1 :
  cache_clean w ->
  _load_backup_nodes file w = (cached, w1) ->
  (forall r d, w_heap w !! r = Some d -> w_heap w1 !! r = Some d)
  /\ cache_clean w1
  /\ Forall (fun r => exists d, w_heap w1 !! r = Some d /\ node_status d = None)
            cached
  /\ (cache_hit file w -> w1 = w /\ cached = cache_nodes w).
Proof.
  intros Hclean. unfold _load_backup_nodes.
  destruct file as [|mtime data].
  - intros [= <- <-]. split_and!; [done|constructor|constructor|].
    by intros (? & ? & ? & ?).
  - case_bool_decide as Hm.
    + intros [= <- <-]. by split_and!.
    + assert (~ cache_hit (Present mtime data) w) as Hmiss.
      { intros (m & dt & [= <- <-] & Hc). done. }
      destruct data as [data|].
      * destruct (alloc_all _ _) as [nodes h] eqn:E.
        intros [= <- <-]. simpl.
        destruct (alloc_all_spec _ _ _ _ E) as (Hnd & Hfresh & Hvals & Hframe).
        assert (Forall (fun r => exists d, h !! r = Some d
                                   /\ node_status d = None) nodes) as Hnew.
        { eapply refs_clean; [exact Hvals|apply manifest_nodes_clean]. }
        split_and!; [|done|done|done].
        intros r d Hr. rewrite Hframe; [done|].
        intros Hin. specialize (Hfresh r Hin). congruence.
      * intros [= <- <-]. split_and!; [done|done|constructor|done].
Qed.

Lemma build_backup_state_once ENV_INFO file lines w :
  cache_clean w ->
  let r := build_backup_state ENV_INFO file lines w in
  (forall l d, w_heap w !! l = Some d -> w_heap r.2 !! l = Some d)
  /\ cache_clean r.2
  /\ (Comfy.enabled r.1 = false \/ cache_hit file w ->
      cache_nodes r.2 = cache_nodes w /\ cache_mtime r.2 = cache_mtime w)
  /\ (Comfy.enabled r.1 = true ->
      let w1 := (_load_backup_nodes file w).2 in
      cache_nodes r.2 = cache_nodes w1 /\ cache_mtime r.2 = cache_mtime w1
      /\ deref (w_heap r.2) (cache_nodes r.2)
         = deref (w_heap w1) (cache_nodes w1))
  /\ (exists values,
        Forall (fun d => node_status d = None) values
        /\ deref (w_heap r.2) (Comfy.nodes r.1)
           = _apply_backup_progress values lines
        /\ (Comfy.enabled r.1 = true -> cache_hit file w ->
            values = deref (w_heap w) (cache_nodes w))).
Proof.
  intros Hclean. unfold build_backup_state.
  destruct (Comfy.restore_enabled ENV_INFO
            && truthy_opt (Comfy.backup_repo ENV_INFO)) eqn:Henabled.
  - destruct (_load_backup_nodes file w) as [cached w1] eqn:Hload.
    destruct (load_spec _ _ _ _ Hclean Hload)
      as (Hkeep1 & Hclean1 & Hcached & Hhit).
    destruct (alloc_all (omap (w_heap w1 !!.) cached) (w_heap w1))
      as [refs h] eqn:Halloc.
    destruct (alloc_all_spec _ _ _ _ Halloc)
      as (Hnd & Hfresh & Hvals & Hframe).
    fold (deref (w_heap w1) cached) in Hvals.
    pose proof (apply_on_refs h refs {| hn_heap := h; hn_refs := refs |}
                  (deref (w_heap w1) cached) lines) as Hrun.
    destruct Hrun as (Hrefs & _ & Hout & Hrest); [by split_and!|].
    set (out := _apply_backup_progress
                  {| hn_heap := h; hn_refs := refs |} lines) in *.
    assert (forall r d, w_heap w1 !! r = Some d -> hn_heap out !! r = Some d)
      as Hkeep2.
    { intros r d Hr.
      assert (r ∉ refs) as Hnotin.
      { intros Hin. specialize (Hfresh r Hin). congruence. }
      by rewrite Hrest, Hframe. }
    cbn [fst snd Comfy.enabled Comfy.nodes w_heap cache_nodes cache_mtime].
    split_and!.
    + intros l d Hl. by apply Hkeep2, Hkeep1.
    + unfold cache_clean. cbn [w_heap cache_nodes].
      eapply Forall_impl; [exact Hclean1|].
      intros r (d & Hd & Hnone). exists d. split; [by apply Hkeep2|done].
    + intros [?|Hh]; [done|]. by destruct (Hhit Hh) as [-> _].
    + intros _. cbn [snd]. split_and!; [done|done|].
      apply deref_extend; [|done].
      eapply Forall_impl; [exact Hclean1|]. by intros r (d & -> & _).
    + exists (deref (w_heap w1) cached). split_and!.
      * by apply deref_clean.
      * rewrite Hrefs. by apply deref_models.
      * intros _ Hh. by destruct (Hhit Hh) as [-> ->].
  - cbn [fst snd Comfy.enabled Comfy.nodes w_heap cache_nodes cache_mtime
         hn_refs].
    split_and!; [done|done|done|done|].
    exists []. split_and!; [constructor|done|done].
Qed.

End HeapFacts.

(** * The manifest cache: the claim *)

Module CacheClaims.

Import Backup BackupSpec StageSamples BackupSamples.

Lemma build_enabled ENV_INFO file lines w :
  Comfy.enabled (build_backup_state ENV_INFO file lines w).1
  = Comfy.restore_enabled ENV_INFO
    && truthy_opt (Comfy.backup_repo ENV_INFO).
Proof.
  unfold build_backup_state.
  destruct (Comfy.restore_enabled ENV_INFO && _); [|done].
  destruct (_load_backup_nodes file w) as [cached w1].
  by destruct (alloc_all _ _).
Qed.

(** The cache the module starts with. *)
Lemma initial_cache_clean : cache_clean initial_world.
Proof. constructor. Qed.

Lemma clean_start (values : list node) i :
  Forall (fun d => node_status d = None) values ->
  i < length values ->
  status_at (replay_state values []).1 i = Some pending.
Proof.
  intros Hclean Hlt. unfold replay_state. cbn [foldl fst].
  rewrite BackupFacts.init_status_at by done.
  destruct (lookup_lt_is_Some_2 values i Hlt) as [d Hd].
  unfold status_at. simpl. rewrite Hd. simpl.
  by rewrite (proj1 (Forall_lookup _ _) Hclean i d Hd).
Qed.

(** C9, as amended.  From a cache whose dicts have no "status" entry
    (as it is when the module is loaded), a call of
    [build_backup_state] changes no dict that was alive before it, so
    none of the cache; the cached dicts still have no "status" entry;
    the cache is the same list when the manifest is unchanged or the
    restore is off, and otherwise the one the loader alone leaves; and
    the next poll replays the cached dicts from all pending, whatever
    the lines of this one. *)
Theorem progress_is_written_on_copies :
  forall ENV_INFO file lines w,
    cache_clean w -> writes_only_copies ENV_INFO file lines w.
Proof.
  intros ENV_INFO file lines w Hclean. unfold writes_only_copies.
  destruct (HeapFacts.build_backup_state_once ENV_INFO file lines w Hclean)
    as (Hkeep & Hclean' & Hsame & Hloader & values & Hvalues & Hout & Hhit).
  split_and!; try done.
  - exists values. split_and!; try done.
    intros i Hi. by apply clean_start.
  - intros lines2 Hen Hh.
    destruct (Hsame (or_intror Hh)) as [Hnodes Hmtime].
    destruct (HeapFacts.build_backup_state_once ENV_INFO file lines2 _ Hclean')
      as (_ & _ & _ & _ & values2 & _ & Hout2 & Hhit2).
    cbv zeta. rewrite Hout2. f_equal.
    rewrite Hhit2.
    + rewrite Hnodes. apply HeapFacts.deref_extend; [|done].
      eapply Forall_impl; [exact Hclean|]. by intros r (d & -> & _).
    + by rewrite build_enabled, <-(build_enabled ENV_INFO file lines w).
    + destruct Hh as (m & data & -> & Hm). exists m, data.
      by rewrite Hmtime.
Qed.

Lemma progress_is_written_on_copies_witness :
  writes_only_copies env_restore (Present 1700000000 (Some manifest_abc))
    ["[restore] cloning https://github.com/user/alpha";
     "[restore] cnr install beta"]
    world_loaded.
Proof.
  apply progress_is_written_on_copies.
  repeat constructor; eexists; (split; [vm_compute; reflexivity|reflexivity]).
Defined.

(** C9 as written fails: the first poll that finds a manifest stores
    its nodes in the cache, which held none. *)
Lemma cache_untouched_rule_fails :
  ~ cache_untouched_rule env_restore
      (Present 1700000000 (Some manifest_abc)) [] initial_world.
Proof. intros [Hnodes _]. vm_compute in Hnodes. discriminate Hnodes. Qed.

End CacheClaims.

(** * More facts about the string functions *)

Module StrMore.

Import Str StrFacts.

Lemma strip_head_clear s : head_clear is_space (strip s).
Proof. unfold strip. apply head_clear_rstrip, head_clear_lstrip. Qed.

Lemma strip_idem s : strip (strip s) = strip s.
Proof.
  unfold strip at 1.
  rewrite (lstrip_head_clear _ _ (strip_head_clear s)).
  unfold strip. apply rstrip_idem.
Qed.

(** A string that [strip] leaves alone is clear at both ends. *)
Lemma strip_fixed s :
  strip s = s -> lstrip is_space s = s /\ rstrip is_space s = s.
Proof.
  intros Hs.
  assert (lstrip is_space s = s) as Hl.
  { apply lstrip_head_clear. rewrite <-Hs. apply strip_head_clear. }
  split; [done|]. unfold strip in Hs. by rewrite Hl in Hs.
Qed.

Lemma app_cons c a b : String c a +:+ b = String c (a +:+ b).
Proof. reflexivity. Qed.

Lemma app_nil b : EmptyString +:+ b = b.
Proof. reflexivity. Qed.

Lemma append_nonempty a b :
  b <> EmptyString -> (a +:+ b) <> EmptyString.
Proof. destruct a; [done|]. by rewrite app_cons. Qed.

(** Nothing is stripped on the right of [a] while [b] keeps a
    character. *)
Lemma rstrip_app_keep p a b :
  rstrip p b <> EmptyString -> rstrip p (a +:+ b) = a +:+ rstrip p b.
Proof.
  intros Hb. induction a as [|c a IH]; [done|].
  rewrite !app_cons. cbn [rstrip]. rewrite IH.
  pose proof (append_nonempty a _ Hb) as Hne.
  destruct (a +:+ rstrip p b); [by destruct Hne|done].
Qed.

(** A final character of the stripped set goes with the rest. *)
Lemma rstrip_app_drop p a c :
  p c = true -> rstrip p (a +:+ String c EmptyString) = rstrip p a.
Proof.
  intros Hc. induction a as [|d a IH].
  - rewrite app_nil. simpl. by rewrite Hc.
  - rewrite app_cons. cbn [rstrip]. by rewrite IH.
Qed.

Lemma endswith_app a b : endswith (a +:+ b) b = true.
Proof.
  induction a as [|c a IH].
  - rewrite app_nil. destruct b; cbn [endswith]; by rewrite String.eqb_refl.
  - rewrite app_cons. cbn [endswith]. rewrite IH. apply orb_true_r.
Qed.

Lemma endswith_split s suf :
  endswith s suf = true -> exists p, s = p +:+ suf.
Proof.
  induction s as [|c s IH]; cbn [endswith].
  - rewrite orb_false_r. intros ->%String.eqb_eq. by exists EmptyString.
  - intros [->%String.eqb_eq|Hs]%orb_true_iff; [by exists EmptyString|].
    destruct (IH Hs) as [p ->]. by exists (String c p).
Qed.

Lemma app_last_inj a b x y :
  a +:+ String x EmptyString = b +:+ String y EmptyString -> x = y.
Proof.
  revert b. induction a as [|c a IH]; intros [|d b];
    rewrite ?app_cons, ?app_nil; intros [=].
  - done.
  - destruct b; by rewrite ?app_cons, ?app_nil in *.
  - destruct a; by rewrite ?app_cons, ?app_nil in *.
  - by eapply IH.
Qed.

Lemma string_app_assoc a b c : (a +:+ b) +:+ c = a +:+ (b +:+ c).
Proof.
  induction a as [|x a IH]; [done|]. by rewrite !app_cons, IH.
Qed.

Lemma substring_app_prefix a b :
  String.substring 0 (String.length a) (a +:+ b) = a.
Proof.
  induction a as [|c a IH]; [by destruct b|].
  rewrite app_cons. simpl. by rewrite IH.
Qed.

Lemma string_length_app a b :
  String.length (a +:+ b) = String.length a + String.length b.
Proof.
  induction a as [|c a IH]; [done|]. rewrite app_cons. simpl. by rewrite IH.
Qed.

Lemma drop_last_app a b : drop_last (String.length b) (a +:+ b) = a.
Proof.
  unfold drop_last. rewrite string_length_app.
  replace (String.length a + String.length b - String.length b)
    with (String.length a) by lia.
  apply substring_app_prefix.
Qed.

(** What [rstrip] returns does not end in a stripped character. *)
Lemma rstrip_not_endswith p s c :
  p c = true -> endswith (rstrip p s) (String c EmptyString) = false.
Proof.
  intros Hc. induction s as [|d s IH]; [done|].
  simpl. destruct (rstrip p s) as [|e t] eqn:E.
  - destruct (p d) eqn:Hd; [done|].
    cbn. destruct (Ascii.eqb d c) eqn:Hdc; [|done].
    apply Ascii.eqb_eq in Hdc. congruence.
  - change (endswith (String d (String e t)) (String c EmptyString))
      with (String.eqb (String d (String e t)) (String c EmptyString)
            || endswith (String e t) (String c EmptyString)).
    rewrite IH. cbn. by destruct (Ascii.eqb d c).
Qed.

(** No piece of [split] holds the separator. *)
Lemma split_no_sep sep s :
  Forall (fun x => has_char sep x = false) (split sep s).
Proof.
  induction s as [|c s IH]; [by repeat constructor|].
  simpl. destruct (Ascii.eqb c sep) eqn:Hc.
  - by constructor.
  - destruct (split sep s) as [|h t].
    + repeat constructor. simpl. rewrite Ascii.eqb_sym, Hc. done.
    + apply Forall_cons in IH as [Hh Ht]. constructor; [|done].
      simpl. by rewrite Ascii.eqb_sym, Hc.
Qed.

Lemma last_Forall {X} (P : X -> Prop) l d :
  P d -> Forall P l -> P (List.last l d).
Proof.
  intros Hd. induction 1 as [|x l Hx Hl IH]; [done|].
  simpl. by destruct l.
Qed.

End StrMore.

(** * More about repository locators *)

Module RepoMore.

Import Comfy StrFacts StrMore.

(** X1.  A locator normalises as it does once stripped of surrounding
    whitespace. *)
Theorem normalize_repo_ignores_outer_space (s : string) :
  _normalize_repo (Str.strip s) = _normalize_repo s.
Proof. unfold _normalize_repo. by rewrite strip_idem. Qed.

Lemma strip_app_keep u b :
  Str.strip u = u ->
  Str.head_clear Str.is_space b ->
  b <> EmptyString ->
  Str.rstrip Str.is_space b = b ->
  Str.strip (u +:+ b) = u +:+ b.
Proof.
  intros Hu Hhead Hne Hb. destruct (strip_fixed u Hu) as [Hl Hr].
  unfold Str.strip.
  assert (Str.lstrip Str.is_space (u +:+ b) = u +:+ b) as ->.
  { apply lstrip_head_clear.
    pose proof (head_clear_lstrip Str.is_space u) as Hh. rewrite Hl in Hh.
    destruct u as [|c u]; [done|]. by rewrite app_cons. }
  rewrite rstrip_app_keep by (by rewrite Hb). by rewrite Hb.
Qed.

(** X2.  For a stripped locator that does not end in ".git", one more
    ".git" or one more "/" makes no difference to the normal form. *)
Theorem normalize_repo_ignores_one_suffix (u : string) :
  Str.strip u = u ->
  Str.endswith u ".git" = false ->
  _normalize_repo (u +:+ ".git") = _normalize_repo u
  /\ _normalize_repo (u +:+ "/") = _normalize_repo u.
Proof.
  intros Hu Hgit. split.
  - unfold _normalize_repo.
    rewrite (strip_app_keep u ".git") by done.
    rewrite endswith_app, Hu, Hgit.
    change 4 with (String.length ".git"). by rewrite drop_last_app.
  - unfold _normalize_repo.
    rewrite (strip_app_keep u "/") by done.
    rewrite Hu, Hgit.
    destruct (Str.endswith (u +:+ "/") ".git") eqn:E.
    + apply endswith_split in E as [p Hp].
      change ".git" with (".gi" +:+ "t") in Hp.
      rewrite <-string_app_assoc in Hp.
      by apply app_last_inj in Hp.
    + by apply rstrip_app_drop.
Qed.

Lemma normalize_repo_ignores_one_suffix_witness :
  _normalize_repo ("https://github.com/user/alpha" +:+ ".git")
  = _normalize_repo "https://github.com/user/alpha"
  /\ _normalize_repo ("https://github.com/user/alpha" +:+ "/")
     = _normalize_repo "https://github.com/user/alpha".
Proof.
  apply normalize_repo_ignores_one_suffix; vm_compute; reflexivity.
Defined.

Lemma normalize_no_final_slash (s : string) :
  Str.endswith (_normalize_repo s) "/" = false.
Proof. unfold _normalize_repo. by apply rstrip_not_endswith. Qed.

Lemma repo_label_no_slash (s : string) :
  Str.has_char "/" (_repo_label s) = false.
Proof.
  unfold _repo_label.
  set (cleaned := if Str.endswith _ _ then _ else _).
  destruct (Str.has_char "/" cleaned) eqn:E; [|done].
  apply (last_Forall (fun x => Str.has_char "/" x = false)); [done|].
  apply split_no_sep.
Qed.

(** X3.  A normal form never ends in "/" and never starts with
    whitespace. *)
Theorem normalize_repo_shape (s : string) :
  Str.endswith (_normalize_repo s) "/" = false
  /\ Str.head_clear Str.is_space (_normalize_repo s).
Proof.
  split; [apply normalize_no_final_slash|apply RepoNames.normalize_head_clear].
Qed.

(** X4.  A label never holds a "/". *)
Theorem repo_label_has_no_slash (s : string) :
  Str.has_char "/" (_repo_label s) = false.
Proof. apply repo_label_no_slash. Qed.

End RepoMore.

(** * More about the stage report of comfy_wait_page.py *)

Module ComfyStagesMore.

Import Comfy ComfySpec ComfyStages.

Section Facts.

Variable ENV_INFO : env_info.
Variable DEFS : list stage_def.
Context {N : Type}.
Variable bs : backup_state N.

Let init : list stage := map (initial_stage ENV_INFO bs) DEFS.

(** What the inner loop returns is a definition of the table that is
    not skipped and matches the line. *)
Lemma match_line_inv defs stages line n k d :
  match_line (imap (fun i x => (n + i, x)) defs) stages line = Some (k, d) ->
  exists i, k = n + i /\ defs !! i = Some d
    /\ skipped_at stages k = false
    /\ any_search (d_patterns d) line = true.
Proof.
  revert n. induction defs as [|d0 defs IH]; intros n; [done|].
  rewrite imap_cons. cbn [match_line].
  rewrite (imap_ext _ (fun i x => (S n + i, x)))
    by (intros j x _; simpl; f_equal; lia).
  destruct (skipped_at stages (n + 0)) eqn:Hskip.
  - intros (i & -> & Hi & Hs & Hm)%IH. exists (S i).
    replace (n + S i) with (S n + i) by lia. by split_and!.
  - destruct (any_search (d_patterns d0) line) eqn:Hm.
    + intros [= <- <-]. exists 0. by split_and!.
    + intros (i & -> & Hi & Hs & Hm')%IH. exists (S i).
      replace (n + S i) with (S n + i) by lia. by split_and!.
Qed.

Lemma scan_line_inv st line :
  scan_line DEFS st line = st
  \/ exists idx d,
       DEFS !! idx = Some d
       /\ skipped_at st.1 idx = false
       /\ (scan_line DEFS st line).2 = Some idx
       /\ ((scan_line DEFS st line).1 = st.1
           \/ exists fn,
                d_detail_from_line d = Some fn
                /\ truthy (fn line (detail_at st.1 idx)) = true
                /\ (scan_line DEFS st line).1
                   = alter (set_detail (fn line (detail_at st.1 idx))) idx st.1).
Proof.
  unfold scan_line. rewrite enumerate_shift.
  destruct (match_line _ _ _) as [[idx d]|] eqn:E; [|by left].
  apply match_line_inv in E as (i & -> & Hd & Hskip & Hm).
  right. exists (0 + i), d. split_and!; try done.
  destruct (d_detail_from_line d) as [fn|]; [|by left].
  destruct (truthy _) eqn:Ht; [|by left].
  right. by exists fn.
Qed.

(** [current_idx], once set, is the index of a definition that is not
    skipped. *)
Lemma scanned_current lines st :
  shape <$> st.1 = shape <$> init ->
  (forall k, st.2 = Some k ->
     exists d, DEFS !! k = Some d /\ unskipped bs d) ->
  forall k, (foldl (scan_line DEFS) st lines).2 = Some k ->
    exists d, DEFS !! k = Some d /\ unskipped bs d.
Proof.
  revert st. induction lines as [|l lines IH]; intros st Hshape Hcur; [done|].
  simpl. apply IH; [by rewrite scan_line_shape|].
  destruct (scan_line_inv st l) as [->|(idx & d & Hd & Hskip & Hidx & _)];
    [done|].
  intros k Hk. rewrite Hidx in Hk. injection Hk as <-. exists d. split; [done|].
  rewrite (skipped_at_shape _ _ _ Hshape),
    (skipped_at_init ENV_INFO DEFS bs) in Hskip.
  rewrite Hd in Hskip. simpl in Hskip.
  by apply bool_decide_eq_false in Hskip.
Qed.

(** The last two loops write nothing but "status". *)
Lemma activate_first_rest stages :
  (fun s => (id s, label s, detail s, skipped s)) <$> activate_first stages
  = (fun s => (id s, label s, detail s, skipped s)) <$> stages.
Proof.
  induction stages as [|s stages IH]; [done|].
  cbn [activate_first]. destruct (skipped s); [|done].
  by rewrite !fmap_cons, IH.
Qed.

Lemma settle_rest k stages :
  (fun s => (id s, label s, detail s, skipped s)) <$> settle k stages
  = (fun s => (id s, label s, detail s, skipped s)) <$> stages.
Proof.
  unfold settle. rewrite fmap_imap. rewrite <-imap_const.
  apply imap_ext. intros i s _. simpl.
  destruct (skipped s) eqn:Hs; [by rewrite Hs|].
  destruct (i <? k), (i =? k); simpl; by rewrite Hs.
Qed.

(** The report, but for the statuses, is the list the scan leaves. *)
Lemma compute_rest lines :
  (fun s => (id s, label s, detail s, skipped s))
    <$> compute_stage_states ENV_INFO DEFS lines bs
  = (fun s => (id s, label s, detail s, skipped s))
      <$> (foldl (scan_line DEFS) (init, None) lines).1.
Proof.
  unfold compute_stage_states. fold init.
  destruct (foldl _ _ _) as [stages [k|]]; simpl;
    [apply settle_rest|apply activate_first_rest].
Qed.

Lemma fmap_proj {X Y Z} (f : X -> Y) (g : Y -> Z) (l l' : list X) :
  f <$> l = f <$> l' -> (g ∘ f) <$> l = (g ∘ f) <$> l'.
Proof. intros Hf. by rewrite !(list_fmap_compose f g), Hf. Qed.

Lemma compute_listing lines :
  (fun s => (id s, label s, skipped s))
    <$> compute_stage_states ENV_INFO DEFS lines bs
  = (fun d => (d_id d, d_label d, bool_decide (d_id d ∈ skip_ids bs)))
      <$> DEFS.
Proof.
  pose proof (fmap_proj _ (fun p => (p.1.1.1, p.1.1.2, p.2)) _ _
                (compute_rest lines)) as H1.
  pose proof (fmap_proj _ (fun p => (p.1.1.1, p.1.1.2, p.2)) _ _
                (foldl_scan_shape DEFS lines (init, None))) as H2.
  unfold compose in *. simpl in *. rewrite H1.
  etrans; [exact H2|]. unfold init. rewrite <-list_fmap_compose. done.
Qed.

Lemma compute_status_cases lines i st :
  compute_stage_states ENV_INFO DEFS lines bs !! i = Some st ->
  status st = active ->
  skipped st = false
  /\ match (foldl (scan_line DEFS) (init, None) lines).2 with
     | Some k => i = k
     | None =>
         forall j st', j < i ->
           compute_stage_states ENV_INFO DEFS lines bs !! j = Some st' ->
           skipped st' = true
     end.
Proof.
  intros Hst Hactive.
  destruct (compute_lookup ENV_INFO DEFS bs lines i st Hst)
    as (d & Hd & Hsk & Hdone).
  assert (skipped st = false) as Hns.
  { destruct (skipped st); [|done]. destruct Hdone as [Hdone _]; [done|].
    congruence. }
  split; [done|].
  pose proof (scanned_lookup ENV_INFO DEFS bs lines None) as Hscan.
  revert Hst. unfold compute_stage_states. fold init.
  destruct (foldl _ _ _) as [stages [k|]] eqn:E; simpl in *.
  - rewrite settle_lookup. destruct (stages !! i) as [st0|] eqn:Hst0; [|done].
    simpl. intros [= <-].
    destruct (skipped st0) eqn:Hsk0; [congruence|].
    destruct (i <? k); [done|].
    destruct (i =? k) eqn:Hik; [by apply Nat.eqb_eq|done].
  - intros Hst.
    assert (forall st0, st0 ∈ stages ->
              status st0 = if skipped st0 then done else pending) as Hinit.
    { intros st0 [j Hj]%list_elem_of_lookup_1.
      by destruct (Hscan j st0 Hj) as (_ & _ & _ & _ & ?). }
    destruct (activate_first_cold stages Hinit i st Hst Hns)
      as [[_ Hfirst]|[Hp _]]; [done|congruence].
Qed.

Lemma active_unique lines i j :
  reports (compute_stage_states ENV_INFO DEFS lines bs) i active ->
  reports (compute_stage_states ENV_INFO DEFS lines bs) j active ->
  i = j.
Proof.
  intros (sti & Hi & Hai) (stj & Hj & Haj).
  destruct (compute_status_cases lines i sti Hi Hai) as [Hsi Hci].
  destruct (compute_status_cases lines j stj Hj Haj) as [Hsj Hcj].
  destruct (foldl _ _ _).2 as [k|]; [congruence|].
  destruct (Nat.lt_trichotomy i j) as [Hlt|[Heq|Hlt]]; [|done|].
  - specialize (Hcj i sti Hlt Hi). congruence.
  - specialize (Hci j stj Hlt Hj). congruence.
Qed.

Lemma activate_first_some stages :
  (exists i st, stages !! i = Some st /\ skipped st = false) ->
  exists i st, activate_first stages !! i = Some st /\ status st = active.
Proof.
  induction stages as [|s stages IH]; intros (i & st & Hi & Hs); [done|].
  cbn [activate_first]. destruct (skipped s) eqn:Hsk.
  - destruct i as [|i]; simpl in Hi; [congruence|].
    destruct IH as (i' & st' & Hi' & Ha'); [by exists i, st|].
    by exists (S i'), st'.
  - by exists 0, (set_status active s).
Qed.

Lemma active_exists lines :
  (exists d, d ∈ DEFS /\ unskipped bs d) ->
  exists i, reports (compute_stage_states ENV_INFO DEFS lines bs) i active.
Proof.
  intros (d & [i0 Hd]%list_elem_of_lookup_1 & Hun).
  pose proof (scanned_lookup ENV_INFO DEFS bs lines None) as Hscan.
  pose proof (scanned_length ENV_INFO DEFS bs lines None) as Hlen.
  pose proof (scanned_current lines (init, None) eq_refl) as Hcur.
  unfold reports, compute_stage_states. fold init in Hscan, Hlen |- *.
  destruct (foldl _ _ _) as [stages [k|]] eqn:E; simpl in *.
  - destruct (Hcur ltac:(done) k eq_refl) as (dk & Hdk & Hunk).
    destruct (lookup_lt_is_Some_2 stages k) as [st0 Hst0].
    { rewrite Hlen. by eapply lookup_lt_Some. }
    destruct (Hscan k st0 Hst0) as (d' & Hd' & _ & Hsk & _).
    rewrite Hdk in Hd'. injection Hd' as <-.
    rewrite bool_decide_eq_false_2 in Hsk by done.
    exists k, (set_status active st0). rewrite settle_lookup, Hst0. simpl.
    by rewrite Hsk, Nat.ltb_irrefl, Nat.eqb_refl.
  - destruct (activate_first_some stages) as (i & st & Hi & Ha);
      [|by exists i, st].
    destruct (lookup_lt_is_Some_2 stages i0) as [st0 Hst0].
    { rewrite Hlen. by eapply lookup_lt_Some. }
    exists i0, st0. split; [done|].
    destruct (Hscan i0 st0 Hst0) as (d' & Hd' & _ & Hsk & _).
    rewrite Hd in Hd'. injection Hd' as <-.
    by rewrite bool_decide_eq_false_2 in Hsk.
Qed.

Lemma activate_first_pipeline stages :
  (forall st, st ∈ stages ->
     status st = if skipped st then done else pending) ->
  (exists i st, stages !! i = Some st /\ skipped st = false) ->
  exists k st, stages !! k = Some st /\ skipped st = false
    /\ pipeline_at k (activate_first stages).
Proof.
  induction stages as [|s stages IH]; intros Hinit (i & st & Hi & Hs);
    [done|].
  cbn [activate_first]. destruct (skipped s) eqn:Hsk.
  - destruct i as [|i]; simpl in Hi; [congruence|].
    destruct IH as (k & st' & Hk & Hsk' & [Hact Hrest]).
    { intros st' Hin. apply Hinit. by apply list_elem_of_further. }
    { by exists i, st. }
    exists (S k), st'. split_and!; [done|done|]. split; [done|].
    intros [|j] stj Hj; simpl in Hj.
    + injection Hj as <-. rewrite Hsk.
      split_and!; [|done|done]. intros _.
      rewrite (Hinit s) by apply list_elem_of_here. by rewrite Hsk.
    + destruct (Hrest j stj Hj) as (H1 & H2 & H3).
      split_and!; [done| |]; intros Hf Hlt; [apply H2|apply H3]; (done || lia).
  - exists 0, s. split_and!; [done|done|].
    split; [by exists (set_status active s)|].
    intros [|j] stj Hj; simpl in Hj.
    + injection Hj as <-. simpl. rewrite Hsk. split_and!; [done|lia|lia].
    + assert (status stj = if skipped stj then done else pending) as Hst.
      { apply Hinit. apply list_elem_of_further.
        by eapply list_elem_of_lookup_2. }
      split_and!; [intros Hf|lia|intros Hf _]; by rewrite Hst, Hf.
Qed.

(** Whatever the log holds, the report is that of a pipeline standing at
    a stage that is not skipped. *)
Lemma compute_is_pipeline lines :
  (exists d, d ∈ DEFS /\ unskipped bs d) ->
  exists k d, DEFS !! k = Some d /\ unskipped bs d
    /\ pipeline_at k (compute_stage_states ENV_INFO DEFS lines bs).
Proof.
  intros (d & [i0 Hd]%list_elem_of_lookup_1 & Hun).
  pose proof (scanned_lookup ENV_INFO DEFS bs lines None) as Hscan.
  pose proof (scanned_length ENV_INFO DEFS bs lines None) as Hlen.
  pose proof (scanned_current lines (init, None) eq_refl) as Hcur.
  unfold compute_stage_states. fold init in Hscan, Hlen |- *.
  destruct (foldl _ _ _) as [stages [k|]] eqn:E; simpl in *.
  - destruct (Hcur ltac:(done) k eq_refl) as (dk & Hdk & Hunk).
    exists k, dk. split_and!; [done|done|]. split.
    + destruct (lookup_lt_is_Some_2 stages k) as [st0 Hst0].
      { rewrite Hlen. by eapply lookup_lt_Some. }
      destruct (Hscan k st0 Hst0) as (d' & Hd' & _ & Hsk & _).
      rewrite Hdk in Hd'. injection Hd' as <-.
      rewrite bool_decide_eq_false_2 in Hsk by done.
      exists (set_status active st0). rewrite settle_lookup, Hst0. simpl.
      by rewrite Hsk, Nat.ltb_irrefl, Nat.eqb_refl.
    + intros i st. rewrite settle_lookup.
      destruct (stages !! i) as [st0|] eqn:Hst0; [|done]. simpl.
      destruct (Hscan i st0 Hst0) as (d' & _ & _ & _ & Hstatus).
      intros [= <-]. destruct (skipped st0) eqn:Hsk.
      * rewrite Hsk. split_and!; [done|done|done].
      * destruct (i <? k) eqn:E1; [|destruct (i =? k) eqn:E2]; simpl;
          rewrite Hsk; split_and!; try done; intros _ Hlt.
        -- apply Nat.ltb_lt in E1. lia.
        -- apply Nat.eqb_eq in E2. lia.
        -- apply Nat.eqb_eq in E2. lia.
        -- apply Nat.ltb_ge in E1. lia.
  - destruct (activate_first_pipeline stages) as (k & st & Hk & Hsk & Hpipe).
    { intros st0 [j Hj]%list_elem_of_lookup_1.
      by destruct (Hscan j st0 Hj) as (_ & _ & _ & _ & ?). }
    { destruct (lookup_lt_is_Some_2 stages i0) as [st0 Hst0].
      { rewrite Hlen. by eapply lookup_lt_Some. }
      exists i0, st0. split; [done|].
      destruct (Hscan i0 st0 Hst0) as (d' & Hd' & _ & Hsk & _).
      rewrite Hd in Hd'. injection Hd' as <-.
      by rewrite bool_decide_eq_false_2 in Hsk. }
    destruct (Hscan k st Hk) as (dk & Hdk & _ & Hskd & _).
    exists k, dk. split_and!; [done| |done].
    rewrite Hsk in Hskd. symmetry in Hskd.
    by apply bool_decide_eq_false in Hskd.
Qed.

Lemma none_active_when_all_skipped lines j :
  (forall d, d ∈ DEFS -> ~ unskipped bs d) ->
  ~ reports (compute_stage_states ENV_INFO DEFS lines bs) j active.
Proof.
  intros Hall (st & Hst & Hactive).
  destruct (compute_lookup ENV_INFO DEFS bs lines j st Hst)
    as (d & Hd & Hsk & Hdone).
  assert (d_id d ∈ skip_ids bs) as Hin.
  { destruct (decide (d_id d ∈ skip_ids bs)) as [|Hout]; [done|].
    destruct (Hall d); [by eapply list_elem_of_lookup_2|done]. }
  rewrite bool_decide_eq_true_2 in Hsk by done.
  destruct (Hdone Hsk) as [Hd' _]. congruence.
Qed.

(** A line that matches no consulted definition can be left out. *)
Lemma compute_drop_silent l1 ln l2 :
  silent (unskipped bs) DEFS ln ->
  compute_stage_states ENV_INFO DEFS (l1 ++ ln :: l2) bs
  = compute_stage_states ENV_INFO DEFS (l1 ++ l2) bs.
Proof.
  intros Hsilent. unfold compute_stage_states. fold init.
  rewrite !foldl_app. cbn [foldl].
  rewrite (scan_line_silent ENV_INFO DEFS bs); [done| |done].
  apply foldl_scan_shape.
Qed.

(** The scan changes a detail only through the rule of the stage's own
    definition, and only to a text that is not empty. *)
Lemma scanned_detail lines st :
  (forall i s d, st.1 !! i = Some s -> DEFS !! i = Some d ->
     (d_detail_from_line d = None ->
      detail s = detail (initial_stage ENV_INFO bs d))
     /\ (truthy (detail (initial_stage ENV_INFO bs d)) = true ->
         truthy (detail s) = true)) ->
  forall i s d,
    (foldl (scan_line DEFS) st lines).1 !! i = Some s -> DEFS !! i = Some d ->
    (d_detail_from_line d = None ->
     detail s = detail (initial_stage ENV_INFO bs d))
    /\ (truthy (detail (initial_stage ENV_INFO bs d)) = true ->
        truthy (detail s) = true).
Proof.
  revert st. induction lines as [|l lines IH]; intros st Hinv; [done|].
  cbn [foldl]. apply IH. intros i s d Hs Hd.
  destruct (scan_line_inv st l)
    as [Heq|(idx & d0 & Hd0 & _ & _ & [Heq|(fn & Hfn & Htruthy & Heq)])];
    rewrite Heq in Hs; [by apply (Hinv i)|by apply (Hinv i)|]. destruct (decide (idx = i)) as [->|Hne].
  - rewrite list_lookup_alter_eq in Hs.
    destruct (st.1 !! i) as [s0|] eqn:Hs0; [|done]. injection Hs as <-.
    rewrite Hd0 in Hd. injection Hd as <-. split; [congruence|done].
  - rewrite list_lookup_alter_ne in Hs by done. by apply (Hinv i).
Qed.

Lemma compute_detail lines i s d :
  compute_stage_states ENV_INFO DEFS lines bs !! i = Some s ->
  DEFS !! i = Some d ->
  (d_detail_from_line d = None ->
   detail s = detail (initial_stage ENV_INFO bs d))
  /\ (truthy (detail (initial_stage ENV_INFO bs d)) = true ->
      truthy (detail s) = true).
Proof.
  intros Hs Hd.
  pose proof (f_equal (.!! i) (compute_rest lines)) as Hrest.
  rewrite !list_lookup_fmap, Hs in Hrest.
  destruct ((foldl (scan_line DEFS) (init, None) lines).1 !! i)
    as [s0|] eqn:Hs0; [|done].
  simpl in Hrest. injection Hrest as _ _ Hdetail _.
  rewrite Hdetail.
  apply (scanned_detail lines (init, None)) with (i := i); [|done|done].
  intros j sj dj Hsj Hdj. unfold init in Hsj. simpl in Hsj.
  rewrite list_lookup_fmap, Hdj in Hsj. by injection Hsj as <-.
Qed.

End Facts.

End ComfyStagesMore.

(** * More about the stage report of ai_toolkit_wait_page.py *)

Module AIToolkitStagesMore.

Import AIToolkit AIToolkitSpec AIToolkitStages.

Section Facts.

Variable DEFS : list stage_def.

Let init : list stage := map initial_stage DEFS.

Lemma aitk_match_line_inv defs line n k d :
  match_line (imap (fun i x => (n + i, x)) defs) line = Some (k, d) ->
  exists i, k = n + i /\ defs !! i = Some d
    /\ any_search (d_patterns d) line = true.
Proof.
  revert n. induction defs as [|d0 defs IH]; intros n; [done|].
  rewrite imap_cons. cbn [match_line].
  rewrite (imap_ext _ (fun i x => (S n + i, x)))
    by (intros j x _; simpl; f_equal; lia).
  destruct (any_search (d_patterns d0) line) eqn:Hm.
  - intros [= <- <-]. exists 0. by split_and!.
  - intros (i & -> & Hi & Hm')%IH. exists (S i).
    replace (n + S i) with (S n + i) by lia. by split_and!.
Qed.

Lemma aitk_scan_line_inv st line :
  scan_line DEFS st line = st
  \/ exists idx d,
       DEFS !! idx = Some d
       /\ (scan_line DEFS st line).2 = Some idx
       /\ ((scan_line DEFS st line).1 = st.1
           \/ exists fn,
                d_detail_from_line d = Some fn
                /\ truthy (fn line (detail_at st.1 idx)) = true
                /\ (scan_line DEFS st line).1
                   = alter (set_detail (fn line (detail_at st.1 idx))) idx st.1).
Proof.
  unfold scan_line. rewrite aitk_enumerate_shift.
  destruct (match_line _ _) as [[idx d]|] eqn:E; [|by left].
  apply aitk_match_line_inv in E as (i & -> & Hd & Hm).
  right. exists (0 + i), d. split_and!; try done.
  destruct (d_detail_from_line d) as [fn|]; [|by left].
  destruct (truthy _) eqn:Ht; [|by left].
  right. by exists fn.
Qed.

(** [current_idx], once set, is an index of the table. *)
Lemma aitk_scanned_current lines st :
  (forall k, st.2 = Some k -> k < length DEFS) ->
  forall k, (foldl (scan_line DEFS) st lines).2 = Some k -> k < length DEFS.
Proof.
  revert st. induction lines as [|l lines IH]; intros st Hcur; [done|].
  cbn [foldl]. apply IH.
  destruct (aitk_scan_line_inv st l) as [Heq|(idx & d & Hd & Hidx & _)].
  - by rewrite Heq.
  - intros k Hk. rewrite Hidx in Hk. injection Hk as <-.
    by eapply lookup_lt_Some.
Qed.

(** The scan writes nothing but "detail". *)
Lemma names_alter_detail v (idx : nat) (stages : list stage) :
  (fun s => (id s, label s)) <$> alter (set_detail v) idx stages
  = (fun s => (id s, label s)) <$> stages.
Proof.
  rewrite (list_fmap_alter (fun s => (id s, label s)) (set_detail v)
             (fun x => x)).
  - by apply list_alter_id.
  - by apply Forall_forall.
Qed.

Lemma scan_line_names st line :
  (fun s => (id s, label s)) <$> (scan_line DEFS st line).1
  = (fun s => (id s, label s)) <$> st.1.
Proof.
  unfold scan_line.
  destruct (match_line _ _) as [[idx d]|]; [|done]. simpl.
  destruct (d_detail_from_line d); [|done].
  destruct (truthy _); [|done]. apply names_alter_detail.
Qed.

Lemma foldl_scan_names lines st :
  (fun s => (id s, label s)) <$> (foldl (scan_line DEFS) st lines).1
  = (fun s => (id s, label s)) <$> st.1.
Proof.
  revert st. induction lines as [|l lines IH]; intros st; simpl; [done|].
  by rewrite IH, scan_line_names.
Qed.

(** The last loops write nothing but "status". *)
Lemma aitk_compute_rest lines :
  (fun s => (id s, label s, detail s)) <$> compute_stage_states DEFS lines
  = (fun s => (id s, label s, detail s))
      <$> (foldl (scan_line DEFS) (init, None) lines).1.
Proof.
  unfold compute_stage_states. fold init.
  destruct (foldl _ _ _) as [stages [k|]]; simpl.
  - unfold settle. rewrite fmap_imap. rewrite <-imap_const.
    apply imap_ext. intros i s _. simpl.
    by destruct (i <? k), (i =? k).
  - by destruct stages.
Qed.

Lemma aitk_compute_listing lines :
  (fun s => (id s, label s)) <$> compute_stage_states DEFS lines
  = (fun d => (d_id d, d_label d)) <$> DEFS.
Proof.
  pose proof (f_equal (fmap (fun p : string * string * string => p.1))
                (aitk_compute_rest lines)) as H1.
  rewrite <-!list_fmap_compose in H1. unfold compose in H1. simpl in H1.
  rewrite H1, foldl_scan_names. simpl. unfold init.
  by rewrite <-list_fmap_compose.
Qed.

(** Whatever the log holds, the report is that of a pipeline standing at
    one of the stages. *)
Lemma aitk_compute_is_pipeline lines :
  DEFS <> [] ->
  exists k, k < length DEFS /\ pipeline_at k (compute_stage_states DEFS lines).
Proof.
  intros Hne.
  pose proof (scanned_status DEFS lines None) as Hscan.
  pose proof (aitk_scanned_length DEFS lines None) as Hlen.
  pose proof (aitk_scanned_current lines (init, None)) as Hcur.
  unfold compute_stage_states. fold init in Hscan, Hlen |- *.
  destruct (foldl _ _ _) as [stages [k|]] eqn:E; simpl in *.
  - assert (k < length DEFS) as Hk by (by apply Hcur).
    exists k. split; [done|]. unfold settle. split.
    + destruct (lookup_lt_is_Some_2 stages k) as [st0 Hst0]; [lia|].
      exists (set_status active st0). rewrite list_lookup_imap, Hst0. simpl.
      by rewrite Nat.ltb_irrefl, Nat.eqb_refl.
    + intros i st. rewrite list_lookup_imap.
      destruct (stages !! i) as [st0|]; [|done]. simpl. intros [= <-].
      destruct (i <? k) eqn:E1; [|destruct (i =? k) eqn:E2]; simpl;
        split; try done; intros Hlt.
      * apply Nat.ltb_lt in E1. lia.
      * apply Nat.eqb_eq in E2. lia.
      * apply Nat.eqb_eq in E2. lia.
      * apply Nat.ltb_ge in E1. lia.
  - exists 0. split; [destruct DEFS; simpl; [done|lia]|].
    destruct stages as [|s stages]; [by destruct DEFS|].
    split; [by exists (set_status active s)|].
    intros [|i] st Hst; simpl in Hst; [split; lia|].
    split; [lia|]. intros _. by apply (Hscan (S i)).
Qed.

(** A line that matches no definition can be left out. *)
Lemma aitk_compute_drop_silent l1 ln l2 :
  silent DEFS ln ->
  compute_stage_states DEFS (l1 ++ ln :: l2)
  = compute_stage_states DEFS (l1 ++ l2).
Proof.
  intros Hsilent. unfold compute_stage_states.
  rewrite !foldl_app. cbn [foldl].
  by rewrite (aitk_scan_line_silent DEFS).
Qed.

Lemma aitk_scanned_detail lines st :
  (forall i s d, st.1 !! i = Some s -> DEFS !! i = Some d ->
     (d_detail_from_line d = None -> detail s = detail (initial_stage d))
     /\ (truthy (detail (initial_stage d)) = true ->
         truthy (detail s) = true)) ->
  forall i s d,
    (foldl (scan_line DEFS) st lines).1 !! i = Some s -> DEFS !! i = Some d ->
    (d_detail_from_line d = None -> detail s = detail (initial_stage d))
    /\ (truthy (detail (initial_stage d)) = true ->
        truthy (detail s) = true).
Proof.
  revert st. induction lines as [|l lines IH]; intros st Hinv; [done|].
  cbn [foldl]. apply IH. intros i s d Hs Hd.
  destruct (aitk_scan_line_inv st l)
    as [Heq|(idx & d0 & Hd0 & _ & [Heq|(fn & Hfn & Htruthy & Heq)])];
    rewrite Heq in Hs; [by apply (Hinv i)|by apply (Hinv i)|].
  destruct (decide (idx = i)) as [->|Hne].
  - rewrite list_lookup_alter_eq in Hs.
    destruct (st.1 !! i) as [s0|] eqn:Hs0; [|done]. injection Hs as <-.
    rewrite Hd0 in Hd. injection Hd as <-. split; [congruence|done].
  - rewrite list_lookup_alter_ne in Hs by done. by apply (Hinv i).
Qed.

Lemma aitk_compute_detail lines i s d :
  compute_stage_states DEFS lines !! i = Some s ->
  DEFS !! i = Some d ->
  (d_detail_from_line d = None -> detail s = detail (initial_stage d))
  /\ (truthy (detail (initial_stage d)) = true -> truthy (detail s) = true).
Proof.
  intros Hs Hd.
  pose proof (f_equal (.!! i) (aitk_compute_rest lines)) as Hrest.
  rewrite !list_lookup_fmap, Hs in Hrest.
  destruct ((foldl (scan_line DEFS) (init, None) lines).1 !! i)
    as [s0|] eqn:Hs0; [|done].
  simpl in Hrest. injection Hrest as _ _ Hdetail.
  rewrite Hdetail.
  apply (aitk_scanned_detail lines (init, None)) with (i := i); [|done|done].
  intros j sj dj Hsj Hdj. unfold init in Hsj. simpl in Hsj.
  rewrite list_lookup_fmap, Hdj in Hsj. by injection Hsj as <-.
Qed.

End Facts.

End AIToolkitStagesMore.

(** * The stage report: further properties *)

Module StageReport.

Import StageSamples.

Ltac no_match :=
  let Hd := fresh "Hd" in
  intros ? Hd; intros;
  repeat (apply elem_of_cons in Hd as [->|Hd]; [vm_compute; congruence|]);
  by apply elem_of_nil in Hd.

Ltac no_unskipped_match :=
  let d := fresh "d" in
  let Hd := fresh "Hd" in
  let Hun := fresh "Hun" in
  let Hm := fresh "Hm" in
  intros d Hd Hun Hm; unfold ComfySpec.unskipped in Hun;
  repeat (apply elem_of_cons in Hd as [->|Hd];
          [first [by vm_compute in Hm
                 |apply Hun; vm_compute; set_solver]|]);
  by apply elem_of_nil in Hd.

Lemma backup_detail_truthy ENV_INFO N (bs : Comfy.backup_state N) :
  truthy (Comfy._backup_detail ENV_INFO bs) = true.
Proof.
  unfold Comfy._backup_detail.
  destruct (Comfy.backup_repo ENV_INFO) as [repo|]; [|done].
  destruct (negb (truthy repo)); [done|].
  destruct (negb (Comfy.restore_enabled ENV_INFO)); [done|].
  by destruct (negb _).
Qed.

(** X5.  Whatever the log holds, the report has one stage per
    definition of the table, in the order of the table, each with the id
    and the label of its definition; in comfy_wait_page.py its skipped
    flag tells whether the id is in [skip_ids]. *)
Theorem report_lists_the_definitions :
  (forall ENV_INFO DEFS N (bs : Comfy.backup_state N) lines,
     (fun s => (Comfy.id s, Comfy.label s, Comfy.skipped s))
       <$> Comfy.compute_stage_states ENV_INFO DEFS lines bs
     = (fun d => (Comfy.d_id d, Comfy.d_label d,
                  bool_decide (Comfy.d_id d ∈ Comfy.skip_ids bs))) <$> DEFS)
  /\ (forall DEFS lines,
        (fun s => (AIToolkit.id s, AIToolkit.label s))
          <$> AIToolkit.compute_stage_states DEFS lines
        = (fun d => (AIToolkit.d_id d, AIToolkit.d_label d)) <$> DEFS).
Proof.
  split.
  - intros. apply ComfyStagesMore.compute_listing.
  - intros. apply AIToolkitStagesMore.aitk_compute_listing.
Qed.

(** X6.  Whatever the log holds, the report is that of a pipeline
    standing at one stage: in comfy_wait_page.py, when some definition
    is not skipped, at a stage that is not skipped; in
    ai_toolkit_wait_page.py, when the table is not empty. *)
Theorem report_is_always_a_pipeline :
  (forall ENV_INFO DEFS N (bs : Comfy.backup_state N) lines,
     (exists d, d ∈ DEFS /\ ComfySpec.unskipped bs d) ->
     exists k d, DEFS !! k = Some d /\ ComfySpec.unskipped bs d
       /\ ComfySpec.pipeline_at k
            (Comfy.compute_stage_states ENV_INFO DEFS lines bs))
  /\ (forall DEFS lines,
        DEFS <> [] ->
        exists k, k < length DEFS
          /\ AIToolkitSpec.pipeline_at k
               (AIToolkit.compute_stage_states DEFS lines)).
Proof.
  split.
  - intros. by apply ComfyStagesMore.compute_is_pipeline.
  - intros. by apply AIToolkitStagesMore.aitk_compute_is_pipeline.
Qed.

Lemma report_is_always_a_pipeline_witness :
  (exists k d, Comfy.STAGE_DEFS !! k = Some d
     /\ ComfySpec.unskipped backup_off d
     /\ ComfySpec.pipeline_at k
          (Comfy.compute_stage_states env_plain Comfy.STAGE_DEFS
             ["STAGE: Restoring backup"; "VIRTUAL_ENV: /venv"; "ok"]
             backup_off))
  /\ (exists k, k < length AIToolkit.AITK_STAGE_DEFS
        /\ AIToolkitSpec.pipeline_at k
             (AIToolkit.compute_stage_states AIToolkit.AITK_STAGE_DEFS
                ["npm run build"; "ok"])).
Proof.
  split.
  - apply (proj1 report_is_always_a_pipeline).
    eexists. split; [apply list_elem_of_here|]. vm_compute. set_solver.
  - by apply (proj2 report_is_always_a_pipeline).
Defined.

(** X7.  At most one stage is reported active; in comfy_wait_page.py
    one is exactly when some definition is not skipped, in
    ai_toolkit_wait_page.py exactly when the table is not empty. *)
Theorem at_most_one_stage_is_active :
  (forall ENV_INFO DEFS N (bs : Comfy.backup_state N) lines,
     ((exists k,
         ComfySpec.reports
           (Comfy.compute_stage_states ENV_INFO DEFS lines bs) k active)
      <-> (exists d, d ∈ DEFS /\ ComfySpec.unskipped bs d))
     /\ forall i j,
          ComfySpec.reports
            (Comfy.compute_stage_states ENV_INFO DEFS lines bs) i active ->
          ComfySpec.reports
            (Comfy.compute_stage_states ENV_INFO DEFS lines bs) j active ->
          i = j)
  /\ (forall DEFS lines,
        ((exists k,
            AIToolkitSpec.reports
              (AIToolkit.compute_stage_states DEFS lines) k active)
         <-> DEFS <> [])
        /\ forall i j,
             AIToolkitSpec.reports
               (AIToolkit.compute_stage_states DEFS lines) i active ->
             AIToolkitSpec.reports
               (AIToolkit.compute_stage_states DEFS lines) j active ->
             i = j).
Proof.
  split.
  - intros ENV_INFO DEFS N bs lines. split; [split|].
    + intros [k Hk].
      destruct (decide (Exists (fun d => Comfy.d_id d ∉ Comfy.skip_ids bs)
                          DEFS)) as [Hex|Hno].
      * apply Exists_exists in Hex as (d & Hd & Hun). by exists d.
      * destruct (ComfyStagesMore.none_active_when_all_skipped
                    ENV_INFO DEFS bs lines k); [|done].
        intros d Hd Hun. apply Hno, Exists_exists. by exists d.
    + apply ComfyStagesMore.active_exists.
    + apply ComfyStagesMore.active_unique.
  - intros DEFS lines.
    assert (forall k, k < length DEFS ->
              AIToolkitSpec.pipeline_at k
                (AIToolkit.compute_stage_states DEFS lines) ->
              forall i,
                AIToolkitSpec.reports
                  (AIToolkit.compute_stage_states DEFS lines) i active ->
                i = k) as Honly.
    { intros k _ [_ Hrest] i (st & Hst & Hactive).
      destruct (Hrest i st Hst) as [Hlt Hgt].
      destruct (Nat.lt_trichotomy i k) as [H|[H|H]]; [|done|].
      - specialize (Hlt H). congruence.
      - specialize (Hgt H). congruence. }
    split; [split|].
    + intros (k & st & Hst & _) ->. apply lookup_lt_Some in Hst.
      rewrite AIToolkitStages.aitk_compute_length in Hst. simpl in Hst. lia.
    + intros Hne.
      destruct (AIToolkitStagesMore.aitk_compute_is_pipeline DEFS lines Hne)
        as (k & _ & Hactive & _).
      by exists k.
    + intros i j Hi Hj.
      destruct (decide (DEFS = [])) as [->|Hne].
      { destruct Hi as (st & Hst & _). apply lookup_lt_Some in Hst.
        rewrite AIToolkitStages.aitk_compute_length in Hst. simpl in Hst.
        lia. }
      destruct (AIToolkitStagesMore.aitk_compute_is_pipeline DEFS lines Hne)
        as (k & Hk & Hpipe).
      by rewrite (Honly k Hk Hpipe i Hi), (Honly k Hk Hpipe j Hj).
Qed.

Lemma at_most_one_stage_is_active_witness :
  (exists k,
     ComfySpec.reports
       (Comfy.compute_stage_states env_restore Comfy.STAGE_DEFS
          ["STAGE: Restoring backup"] backup_on) k active)
  /\ (exists k,
        AIToolkitSpec.reports
          (AIToolkit.compute_stage_states AIToolkit.AITK_STAGE_DEFS
             ["npm run build"]) k active).
Proof.
  split.
  - apply (proj1 at_most_one_stage_is_active).
    eexists. split; [apply list_elem_of_here|]. vm_compute. set_solver.
  - by apply (proj2 at_most_one_stage_is_active).
Defined.

(** X8.  A line that matches no definition consulted for it can be left
    out of the log, wherever it stands, without changing the report. *)
Theorem silent_line_can_be_dropped :
  (forall ENV_INFO DEFS N (bs : Comfy.backup_state N) l1 ln l2,
     ComfySpec.silent (ComfySpec.unskipped bs) DEFS ln ->
     Comfy.compute_stage_states ENV_INFO DEFS (l1 ++ ln :: l2) bs
     = Comfy.compute_stage_states ENV_INFO DEFS (l1 ++ l2) bs)
  /\ (forall DEFS l1 ln l2,
        AIToolkitSpec.silent DEFS ln ->
        AIToolkit.compute_stage_states DEFS (l1 ++ ln :: l2)
        = AIToolkit.compute_stage_states DEFS (l1 ++ l2)).
Proof.
  split.
  - intros. by apply ComfyStagesMore.compute_drop_silent.
  - intros. by apply AIToolkitStagesMore.aitk_compute_drop_silent.
Qed.

Lemma silent_line_can_be_dropped_witness :
  Comfy.compute_stage_states env_plain Comfy.STAGE_DEFS
    (["Creating venv"] ++ "STAGE: Restoring backup"
       :: ["STAGE: Updating custom nodes"]) backup_off
  = Comfy.compute_stage_states env_plain Comfy.STAGE_DEFS
      (["Creating venv"] ++ ["STAGE: Updating custom nodes"]) backup_off
  /\ AIToolkit.compute_stage_states AIToolkit.AITK_STAGE_DEFS
       (["npm run build"] ++ "Collecting wheel" :: ["npm run update_db"])
     = AIToolkit.compute_stage_states AIToolkit.AITK_STAGE_DEFS
         (["npm run build"] ++ ["npm run update_db"]).
Proof.
  split.
  - apply (proj1 silent_line_can_be_dropped). no_unskipped_match.
  - apply (proj2 silent_line_can_be_dropped). no_match.
Defined.

(** X9.  The detail of a reported stage is the initial one when its
    definition has no detail rule, and is not empty when the initial one
    is not. *)
Theorem detail_changes_only_by_rule :
  (forall ENV_INFO DEFS N (bs : Comfy.backup_state N) lines i d,
     DEFS !! i = Some d ->
     exists s,
       Comfy.compute_stage_states ENV_INFO DEFS lines bs !! i = Some s
       /\ (Comfy.d_detail_from_line d = None ->
           Comfy.detail s
           = Comfy.detail (Comfy.initial_stage ENV_INFO bs d))
       /\ (truthy (Comfy.detail (Comfy.initial_stage ENV_INFO bs d)) = true ->
           truthy (Comfy.detail s) = true))
  /\ (forall DEFS lines i d,
        DEFS !! i = Some d ->
        exists s,
          AIToolkit.compute_stage_states DEFS lines !! i = Some s
          /\ (AIToolkit.d_detail_from_line d = None ->
              AIToolkit.detail s
              = AIToolkit.detail (AIToolkit.initial_stage d))
          /\ (truthy (AIToolkit.detail (AIToolkit.initial_stage d)) = true ->
              truthy (AIToolkit.detail s) = true)).
Proof.
  split.
  - intros ENV_INFO DEFS N bs lines i d Hd.
    destruct (lookup_lt_is_Some_2
                (Comfy.compute_stage_states ENV_INFO DEFS lines bs) i)
      as [s Hs].
    { rewrite ComfyStages.compute_length. by eapply lookup_lt_Some. }
    exists s. split; [done|].
    by apply (ComfyStagesMore.compute_detail ENV_INFO DEFS bs lines i).
  - intros DEFS lines i d Hd.
    destruct (lookup_lt_is_Some_2
                (AIToolkit.compute_stage_states DEFS lines) i) as [s Hs].
    { rewrite AIToolkitStages.aitk_compute_length. by eapply lookup_lt_Some. }
    exists s. split; [done|].
    by apply (AIToolkitStagesMore.aitk_compute_detail DEFS lines i).
Qed.

Lemma detail_changes_only_by_rule_witness :
  (exists s,
     Comfy.compute_stage_states env_restore Comfy.STAGE_DEFS
       ["STAGE: Updating ComfyUI core"; "Cloning into 'x'"] backup_on !! 5
     = Some s
     /\ Comfy.detail s = "Updating base repo and Python dependencies"
     /\ truthy (Comfy.detail s) = true)
  /\ (exists s,
        AIToolkit.compute_stage_states AIToolkit.AITK_STAGE_DEFS
          ["pip install --upgrade pip"] !! 1 = Some s
        /\ AIToolkit.detail s = "Creating virtualenv and upgrading pip"
        /\ truthy (AIToolkit.detail s) = true).
Proof.
  split.
  - destruct (proj1 detail_changes_only_by_rule env_restore Comfy.STAGE_DEFS
                _ backup_on
                ["STAGE: Updating ComfyUI core"; "Cloning into 'x'"] 5 _
                eq_refl) as (s & Hs & Hkeep & Htruthy).
    exists s. split; [exact Hs|].
    split; [exact (Hkeep eq_refl)|exact (Htruthy eq_refl)].
  - destruct (proj2 detail_changes_only_by_rule AIToolkit.AITK_STAGE_DEFS
                ["pip install --upgrade pip"] 1 _ eq_refl)
      as (s & Hs & Hkeep & Htruthy).
    exists s. split; [exact Hs|].
    split; [exact (Hkeep eq_refl)|exact (Htruthy eq_refl)].
Defined.

(** X10.  With the tables of the two scripts, no stage is ever reported
    with an empty detail, whatever the environment, the backup state and
    the log. *)
Theorem no_stage_has_an_empty_detail :
  (forall ENV_INFO N (bs : Comfy.backup_state N) lines,
     Forall (fun s => truthy (Comfy.detail s) = true)
       (Comfy.compute_stage_states ENV_INFO Comfy.STAGE_DEFS lines bs))
  /\ (forall lines,
        Forall (fun s => truthy (AIToolkit.detail s) = true)
          (AIToolkit.compute_stage_states AIToolkit.AITK_STAGE_DEFS lines)).
Proof.
  split.
  - intros ENV_INFO N bs lines. apply Forall_lookup. intros i s Hs.
    destruct (lookup_lt_is_Some_2 Comfy.STAGE_DEFS i) as [d Hd].
    { rewrite <-(ComfyStages.compute_length ENV_INFO _ bs lines).
      by eapply lookup_lt_Some. }
    apply (ComfyStagesMore.compute_detail ENV_INFO _ bs lines i s d Hs Hd).
    assert (Forall (fun d => truthy (Comfy.detail
                                       (Comfy.initial_stage ENV_INFO bs d))
                             = true) Comfy.STAGE_DEFS) as Hall.
    { repeat constructor. apply backup_detail_truthy. }
    by apply (proj1 (Forall_lookup _ _) Hall i).
  - intros lines. apply Forall_lookup. intros i s Hs.
    destruct (lookup_lt_is_Some_2 AIToolkit.AITK_STAGE_DEFS i) as [d Hd].
    { rewrite <-(AIToolkitStages.aitk_compute_length _ lines).
      by eapply lookup_lt_Some. }
    apply (AIToolkitStagesMore.aitk_compute_detail _ lines i s d Hs Hd).
    assert (Forall (fun d => truthy (AIToolkit.detail
                                       (AIToolkit.initial_stage d)) = true)
              AIToolkit.AITK_STAGE_DEFS) as Hall.
    { by repeat constructor. }
    by apply (proj1 (Forall_lookup _ _) Hall i).
Qed.

End StageReport.

(** * What the replay preserves *)

Module BackupInvariants.

Import Re Backup BackupSpec BackupFacts.

(** A property of the node list kept by every assignment of a "status"
    entry the replay can make is kept by the replay.  An assignment
    writes pending, installing, done or failed, or writes back the
    status the node has. *)
Section Preserve.

Context {A : Type} `{NodeArray A}.

Variable P : A -> Prop.

Hypothesis Hset :
  forall idx v nodes,
    v <> active \/ status_at nodes idx = Some v ->
    P nodes -> P (na_set_status idx v nodes).

Lemma for_range_preserves n (body : nat -> A -> A) nodes :
  (forall idx nodes, P nodes -> P (body idx nodes)) ->
  P nodes -> P (for_range n body nodes).
Proof.
  intros Hbody. unfold for_range. revert nodes.
  induction (seq 0 n) as [|i l IH]; intros nodes HP; [done|].
  cbn [foldl]. by apply IH, Hbody.
Qed.

Lemma init_status_preserves nodes : P nodes -> P (init_status nodes).
Proof.
  apply for_range_preserves. intros idx nodes' HP. apply Hset; [|done].
  destruct (status_at nodes' idx) as [v|] eqn:Hv; [by right|by left].
Qed.

Lemma finish_open_preserves nodes : P nodes -> P (finish_open nodes).
Proof.
  apply for_range_preserves. intros idx nodes' HP.
  destruct (status_at nodes' idx) as [[]|]; try done;
    by apply Hset; [left|].
Qed.

Lemma begin_preserves key (st : A * option nat) :
  P st.1 -> P (begin key st).1.
Proof.
  intros HP. unfold begin. cbn [fst]. apply Hset; [by left|].
  destruct st.2; [|done]. destruct (_ && _); [|done].
  by apply Hset; [left|].
Qed.

Lemma mark_failed_list_preserves by_key by_repo keys nodes :
  P nodes -> P (mark_failed_list by_key by_repo keys nodes).
Proof.
  unfold mark_failed_list. revert nodes.
  induction keys as [|k keys IH]; intros nodes HP; [done|].
  cbn [foldl]. apply IH. destruct (resolve _ _ _); [|done].
  by apply Hset; [left|].
Qed.

Lemma replay_line_preserves by_key by_repo (st : A * option nat) line :
  P st.1 -> P (replay_line by_key by_repo st line).1.
Proof.
  intros HP. unfold replay_line.
  repeat case_match; cbn [fst]; try done;
    try (by apply begin_preserves);
    try (by apply Hset; [left|]).
  - by apply mark_failed_list_preserves.
  - by apply finish_open_preserves.
Qed.

Lemma replay_preserves by_key by_repo (st : A * option nat) lines :
  P st.1 -> P (foldl (replay_line by_key by_repo) st lines).1.
Proof.
  revert st. induction lines as [|l lines IH]; intros st HP; [done|].
  cbn [foldl]. by apply IH, replay_line_preserves.
Qed.

Lemma close_earlier_preserves (st : A * option nat) :
  P st.1 -> P (close_earlier st).
Proof.
  intros HP. unfold close_earlier. destruct st.2; [|done].
  case_bool_decide; [|done]. apply for_range_preserves; [|done].
  intros idx nodes' HP'. case_bool_decide; [|done]. by apply Hset; [left|].
Qed.

Lemma apply_preserves nodes lines :
  P nodes -> P (_apply_backup_progress nodes lines).
Proof.
  intros HP. unfold _apply_backup_progress. destruct (_ =? _); [done|].
  apply close_earlier_preserves, replay_preserves. cbn [fst].
  by apply init_status_preserves.
Qed.

End Preserve.

Implicit Types nodes : list node.

Lemma contents_list nodes : contents nodes = nodes.
Proof.
  unfold contents. simpl. induction nodes as [|n nodes IH] using rev_ind;
    [done|].
  rewrite length_app. cbn [length]. rewrite Nat.add_1_r, seq_S, omap_app.
  cbn [omap list_omap Nat.add].
  rewrite list_lookup_middle by done. cbn. f_equal.
  rewrite <-IH at 2. apply list_omap_ext, Forall_Forall2_diag, Forall_forall.
  intros i Hi%elem_of_seq. by rewrite lookup_app_l by lia.
Qed.

(** The statuses apart, the replay returns the list it was given. *)
Lemma apply_frame nodes lines :
  (fun n => (node_key n, node_name n, node_source n, node_repo n,
             node_version n)) <$> _apply_backup_progress nodes lines
  = (fun n => (node_key n, node_name n, node_source n, node_repo n,
               node_version n)) <$> nodes.
Proof.
  apply (apply_preserves
           (fun nodes' =>
              (fun n => (node_key n, node_name n, node_source n, node_repo n,
                         node_version n)) <$> nodes'
              = (fun n => (node_key n, node_name n, node_source n,
                           node_repo n, node_version n)) <$> nodes));
    [|done].
  intros idx v nodes' _ <-. simpl.
  rewrite (list_fmap_alter _ (with_status v) (fun x => x)).
  - by apply list_alter_id.
  - by apply Forall_forall.
Qed.

Lemma apply_length nodes lines :
  length (_apply_backup_progress nodes lines) = length nodes.
Proof.
  pose proof (f_equal length (apply_frame nodes lines)) as Hl.
  by rewrite !length_fmap in Hl.
Qed.

(** No status the replay leaves is "active", unless it was there. *)
Lemma apply_never_active nodes lines i :
  status_at (_apply_backup_progress nodes lines) i = Some active ->
  status_at nodes i = Some active.
Proof.
  apply (apply_preserves
           (fun nodes' => status_at nodes' i = Some active ->
                          status_at nodes i = Some active)); [|done].
  intros idx v nodes' Hv HP Hactive.
  destruct (decide (idx = i)) as [->|Hne].
  - destruct Hv as [Hv|Hv].
    + pose proof (status_at_Some_lt _ _ _ Hactive) as Hlt.
      rewrite length_set in Hlt.
      rewrite status_at_set_here in Hactive by done. congruence.
    + rewrite (status_at_set_eq _ _ _ _ Hv) in Hactive.
      injection Hactive as ->. by apply HP.
  - rewrite status_at_set_ne in Hactive by done. by apply HP.
Qed.

(** Every node of a list that is not empty comes back with a status. *)
Lemma apply_status_present nodes lines i :
  i < length nodes ->
  is_Some (status_at (_apply_backup_progress nodes lines) i).
Proof.
  intros Hlt.
  assert (forall st : list node * option nat,
            is_Some (status_at st.1 i) ->
            is_Some (status_at
                       (foldl (replay_line (index_by_key nodes)
                                 (index_by_repo nodes)) st lines).1 i))
    as Hreplay.
  { induction lines as [|l lines IH]; intros st Hst; [done|].
    cbn [foldl]. apply IH. destruct Hst as [v Hv].
    destruct (replay_line_at (index_by_key nodes) (index_by_repo nodes)
                st l i v Hv) as (v' & Hv' & _).
    by exists v'. }
  unfold _apply_backup_progress.
  destruct nodes as [|n nodes]; [simpl in Hlt; lia|].
  change (na_len (n :: nodes) =? 0) with false. cbv iota.
  destruct (Hreplay (init_status (n :: nodes), None)) as [v Hv].
  { cbn [fst]. rewrite init_status_at by done. by eexists. }
  destruct (close_earlier_at _ i v Hv) as (v' & Hv' & _).
  by exists v'.
Qed.

(** ** The node being installed *)

(** The loop invariant: a node marked installing is the one [active_idx]
    points to. *)
Lemma status_after_set nodes idx v i w :
  status_at (na_set_status idx v nodes) i = Some w ->
  v <> w ->
  idx <> i /\ status_at nodes i = Some w.
Proof.
  intros Hw Hne. destruct (decide (idx = i)) as [->|Hidx].
  - pose proof (status_at_Some_lt _ _ _ Hw) as Hlt.
    rewrite length_set in Hlt.
    rewrite status_at_set_here in Hw by done. congruence.
  - by rewrite status_at_set_ne in Hw.
Qed.

Lemma begin_installing key (st : list node * option nat) :
  (forall i, status_at st.1 i = Some installing -> st.2 = Some i) ->
  forall i, status_at (begin key st).1 i = Some installing ->
    (begin key st).2 = Some i.
Proof.
  intros Hinv i Hi. unfold begin in *. cbn [fst snd] in *. f_equal.
  destruct (decide (key = i)) as [|Hne]; [done|]. exfalso.
  rewrite status_at_set_ne in Hi by done.
  destruct st.2 as [a|] eqn:Ha.
  - destruct (bool_decide _ && negb _) eqn:E.
    + apply status_after_set in Hi as [Hai Hi]; [|done].
      apply Hinv in Hi. congruence.
    + pose proof (Hinv i Hi) as Heq. injection Heq as ->.
      rewrite bool_decide_eq_true_2 in E by done. simpl in E.
      apply negb_false_iff, Nat.eqb_eq in E. congruence.
  - by apply Hinv in Hi.
Qed.

Lemma mark_failed_list_installing by_key by_repo keys nodes i :
  status_at (mark_failed_list by_key by_repo keys nodes) i = Some installing ->
  status_at nodes i = Some installing.
Proof.
  unfold mark_failed_list. revert nodes.
  induction keys as [|k keys IH]; intros nodes; [done|].
  cbn [foldl]. intros Hi%IH. destruct (resolve _ _ _); [|done].
  by apply status_after_set in Hi as [_ Hi].
Qed.

Lemma replay_line_installing by_key by_repo (st : list node * option nat)
    line :
  (forall i, status_at st.1 i = Some installing -> st.2 = Some i) ->
  forall i, status_at (replay_line by_key by_repo st line).1 i
            = Some installing ->
    (replay_line by_key by_repo st line).2 = Some i.
Proof.
  intros Hinv i. unfold replay_line.
  repeat case_match; cbn [fst snd]; try (by apply Hinv);
    try (by apply begin_installing);
    try (by intros [_ Hi]%status_after_set; [apply Hinv|]).
  - intros Hi%mark_failed_list_installing. by apply Hinv.
  - rewrite finish_open_at.
    destruct (status_at st.1 i) as [[]|]; simpl; congruence.
Qed.

Lemma replay_installing by_key by_repo (st : list node * option nat) lines :
  (forall i, status_at st.1 i = Some installing -> st.2 = Some i) ->
  forall i, status_at (foldl (replay_line by_key by_repo) st lines).1 i
            = Some installing ->
    (foldl (replay_line by_key by_repo) st lines).2 = Some i.
Proof.
  revert st. induction lines as [|l lines IH]; intros st Hinv; [done|].
  cbn [foldl]. by apply IH, replay_line_installing.
Qed.

Lemma replay_state_installing nodes lines i :
  (forall j, status_at nodes j <> Some installing) ->
  status_at (replay_state nodes lines).1 i = Some installing ->
  (replay_state nodes lines).2 = Some i.
Proof.
  intros Hnone. apply replay_installing. cbn [fst snd]. intros j Hj.
  pose proof (status_at_Some_lt _ _ _ Hj) as Hlt.
  rewrite init_status_pointwise, for_range_length in Hlt.
  rewrite init_status_at in Hj by done.
  destruct (status_at nodes j) as [v|] eqn:Hv; simplify_eq/=.
  by destruct (Hnone j).
Qed.

(** What the block after the loop leaves at one index. *)
Lemma close_earlier_status (st : list node * option nat) i :
  status_at (close_earlier st) i
  = match st.2 with
    | Some active_idx =>
        if bool_decide (status_at st.1 active_idx = Some installing)
           && (i <? active_idx)
           && bool_decide (status_at st.1 i = Some pending)
        then Some done else status_at st.1 i
    | None => status_at st.1 i
    end.
Proof.
  unfold close_earlier. destruct st.2 as [a|]; [|done].
  case_bool_decide as Ha; [|done]. cbn [andb].
  rewrite close_loop_pointwise, for_range_pointwise. unfold close_rule.
  destruct (i <? a) eqn:Hia; [|done]. cbn [andb].
  case_bool_decide as Hp.
  - rewrite Hp. simpl.
    by rewrite (proj2 (Nat.ltb_lt _ _) (status_at_Some_lt _ _ _ Hp)).
  - by destruct (i <? length st.1).
Qed.

Lemma apply_as_close nodes lines :
  nodes <> [] ->
  _apply_backup_progress nodes lines
  = close_earlier (replay_state nodes lines).
Proof. by destruct nodes. Qed.

Lemma apply_installing nodes lines i :
  (forall j, status_at nodes j <> Some installing) ->
  status_at (_apply_backup_progress nodes lines) i = Some installing ->
  (replay_state nodes lines).2 = Some i
  /\ status_at (replay_state nodes lines).1 i = Some installing.
Proof.
  intros Hnone Hi. destruct (decide (nodes = [])) as [->|Hne].
  { by destruct (Hnone i). }
  rewrite apply_as_close, close_earlier_status in Hi by done.
  assert (status_at (replay_state nodes lines).1 i = Some installing) as Hst.
  { destruct (replay_state nodes lines).2; [|done].
    by destruct (_ && _ && _). }
  split; [|done]. by apply replay_state_installing.
Qed.

(** ** The two indexes *)

Lemma enumerate_snoc {X} (l : list X) (x : X) :
  enumerate (l ++ [x]) = enumerate l ++ [(length l, x)].
Proof.
  unfold enumerate. rewrite imap_app. simpl. by rewrite Nat.add_0_r.
Qed.

(** [index_by_key] maps a key to the last node that has it. *)
Lemma index_by_key_spec nodes k i :
  index_by_key nodes !! k = Some i
  <-> (exists n, nodes !! i = Some n /\ node_key n = k)
      /\ forall j n', i < j -> nodes !! j = Some n' -> node_key n' <> k.
Proof.
  unfold index_by_key. rewrite contents_list. revert i.
  induction nodes as [|n nodes IH] using rev_ind; intros i.
  { simpl. rewrite lookup_empty. split; [done|]. by intros [(n & Hn & _) _]. }
  rewrite enumerate_snoc, foldl_app. cbn [foldl fst snd].
  destruct (decide (node_key n = k)) as [Hk|Hk].
  - rewrite Hk, lookup_insert_eq. split.
    + intros [= <-]. split.
      * exists n. by rewrite list_lookup_middle.
      * intros j n' Hj Hn'. apply lookup_lt_Some in Hn'.
        rewrite length_app in Hn'. simpl in Hn'. lia.
    + intros [(n0 & Hn0 & _) Hlast]. f_equal.
      pose proof (lookup_lt_Some _ _ _ Hn0) as Hlt.
      rewrite length_app in Hlt. simpl in Hlt.
      destruct (decide (i = length nodes)) as [|Hne]; [done|].
      destruct (Hlast (length nodes) n); [lia| |done].
      by rewrite list_lookup_middle.
  - rewrite lookup_insert_ne by done. rewrite IH. split.
    + intros [(n0 & Hn0 & Hk0) Hlast]. split.
      * exists n0. split; [|done]. by apply lookup_app_l_Some.
      * intros j n' Hj Hn'. apply lookup_app_Some in Hn' as [Hn'|[_ Hn']].
        -- by apply (Hlast j).
        -- apply list_lookup_singleton_Some in Hn' as [_ <-]. done.
    + intros [(n0 & Hn0 & Hk0) Hlast].
      apply lookup_app_Some in Hn0 as [Hn0|[_ Hn0]].
      * split; [by exists n0|]. intros j n' Hj Hn'.
        apply (Hlast j); [done|]. by apply lookup_app_l_Some.
      * apply list_lookup_singleton_Some in Hn0 as [_ <-]. done.
Qed.

(** [index_by_repo] maps a locator to the last node that has it; nodes
    without a locator, or with an empty one, are left out. *)
Lemma index_by_repo_spec nodes r i :
  index_by_repo nodes !! r = Some i
  <-> (exists n, nodes !! i = Some n /\ node_repo n = Some r
                 /\ truthy r = true)
      /\ forall j n', i < j -> nodes !! j = Some n' -> node_repo n' <> Some r.
Proof.
  unfold index_by_repo. rewrite contents_list. revert i.
  induction nodes as [|n nodes IH] using rev_ind; intros i.
  { simpl. rewrite lookup_empty. split; [done|]. by intros [(n & Hn & _) _]. }
  rewrite enumerate_snoc, foldl_app. cbn [foldl fst snd].
  assert (forall m : gmap string nat,
            (m !! r = Some i
             <-> (exists n0, nodes !! i = Some n0 /\ node_repo n0 = Some r
                             /\ truthy r = true)
                 /\ forall j n', i < j -> nodes !! j = Some n' ->
                      node_repo n' <> Some r) ->
            node_repo n <> Some r \/ truthy r = false ->
            (m !! r = Some i
             <-> (exists n0, (nodes ++ [n]) !! i = Some n0
                             /\ node_repo n0 = Some r /\ truthy r = true)
                 /\ forall j n', i < j -> (nodes ++ [n]) !! j = Some n' ->
                      node_repo n' <> Some r)) as Hkeep.
  { intros m Hm Hother. rewrite Hm. split.
    - intros [(n0 & Hn0 & Hr0 & Ht) Hlast]. split.
      + exists n0. split; [|done]. by apply lookup_app_l_Some.
      + intros j n' Hj Hn'. apply lookup_app_Some in Hn' as [Hn'|[_ Hn']].
        * by apply (Hlast j).
        * apply list_lookup_singleton_Some in Hn' as [_ <-].
          destruct Hother; [done|congruence].
    - intros [(n0 & Hn0 & Hr0 & Ht) Hlast].
      apply lookup_app_Some in Hn0 as [Hn0|[_ Hn0]].
      + split; [by exists n0|]. intros j n' Hj Hn'.
        apply (Hlast j); [done|]. by apply lookup_app_l_Some.
      + apply list_lookup_singleton_Some in Hn0 as [_ <-].
        destruct Hother; [done|congruence]. }
  destruct (node_repo n) as [r0|] eqn:Hr0; [|by apply Hkeep; [|left]].
  destruct (truthy r0) eqn:Ht0.
  - destruct (decide (r0 = r)) as [->|Hne].
    + rewrite lookup_insert_eq. split.
      * intros [= <-]. split.
        -- exists n. by rewrite list_lookup_middle.
        -- intros j n' Hj Hn'. apply lookup_lt_Some in Hn'.
           rewrite length_app in Hn'. simpl in Hn'. lia.
      * intros [(n0 & Hn0 & _) Hlast]. f_equal.
        pose proof (lookup_lt_Some _ _ _ Hn0) as Hlt.
        rewrite length_app in Hlt. simpl in Hlt.
        destruct (decide (i = length nodes)) as [|Hne]; [done|].
        destruct (Hlast (length nodes) n); [lia| |done].
        by rewrite list_lookup_middle.
    + rewrite lookup_insert_ne by done.
      apply Hkeep; [apply IH|left; congruence].
  - apply Hkeep; [apply IH|].
    destruct (decide (r0 = r)) as [->|Hne]; [by right|left; congruence].
Qed.

Lemma resolve_in_range nodes k idx :
  resolve (index_by_key nodes) (index_by_repo nodes) k = Some idx ->
  idx < length nodes.
Proof.
  unfold resolve, or_index.
  destruct (index_by_key nodes !! k) as [[|i]|] eqn:Hk.
  - intros [(n & Hn & _) _]%index_by_repo_spec. by eapply lookup_lt_Some.
  - intros [= <-].
    apply index_by_key_spec in Hk as [(n & Hn & _) _].
    by eapply lookup_lt_Some.
  - intros [(n & Hn & _) _]%index_by_repo_spec. by eapply lookup_lt_Some.
Qed.

Lemma begin_target_in_range nodes line idx :
  begin_target (index_by_key nodes) (index_by_repo nodes) line = Some idx ->
  idx < length nodes.
Proof.
  unfold begin_target. repeat case_match; try done.
  - intros [(n & Hn & _) _]%index_by_repo_spec. by eapply lookup_lt_Some.
  - intros [(n & Hn & _) _]%index_by_key_spec. by eapply lookup_lt_Some.
Qed.

(** [active_idx] is [None] or the node the last begin line resolved
    to. *)
Lemma replay_line_active by_key by_repo (st : list node * option nat) line :
  (replay_line by_key by_repo st line).2
  = match begin_target by_key by_repo line with
    | Some key => Some key
    | None =>
        if bool_decide (re_search Comfy.RESTORE_CLONE_RE line = None)
           && bool_decide (re_search Comfy.RESTORE_CNR_RE line = None)
           && bool_decide (re_search Comfy.RESTORE_SKIP_RE line = None)
           && bool_decide (re_search Comfy.RESTORE_ERR_RE line = None)
           && bool_decide (re_search Comfy.RESTORE_FAIL_LIST_RE line = None)
           && found Comfy.RESTORE_DONE_RE line
        then None else st.2
    end.
Proof.
  unfold replay_line, begin_target.
  destruct (re_search Comfy.RESTORE_CLONE_RE line);
    [by destruct (by_repo !! _)|].
  destruct (re_search Comfy.RESTORE_CNR_RE line);
    [by destruct (by_key !! _)|].
  destruct (re_search Comfy.RESTORE_SKIP_RE line);
    [by destruct (resolve _ _ _)|].
  destruct (re_search Comfy.RESTORE_ERR_RE line);
    [by destruct (resolve _ _ _)|].
  destruct (re_search Comfy.RESTORE_FAIL_LIST_RE line); [done|].
  by destruct (found _ _).
Qed.

Lemma replay_active_in_range nodes lines a :
  (replay_state nodes lines).2 = Some a -> a < length nodes.
Proof.
  unfold replay_state. revert a.
  induction lines as [|l lines IH] using rev_ind; intros a; [done|].
  rewrite foldl_app. cbn [foldl]. rewrite replay_line_active.
  destruct (begin_target _ _ l) as [key|] eqn:Hkey.
  - intros [= <-]. by eapply begin_target_in_range.
  - destruct (_ && _); [done|]. apply IH.
Qed.

Lemma replay_state_length nodes lines :
  length (replay_state nodes lines).1 = length nodes.
Proof.
  unfold replay_state.
  apply (replay_preserves (fun nodes' => length nodes' = length nodes)).
  - intros idx v nodes' _ <-. apply length_set.
  - cbn [fst].
    apply (init_status_preserves
             (fun nodes' => length nodes' = length nodes)); [|done].
    intros idx v nodes' _ <-. apply length_set.
Qed.

(** A begin line leaves the node it resolves to installing. *)
Lemma begin_marks_installing nodes lines ln i :
  begin_target (index_by_key nodes) (index_by_repo nodes) ln = Some i ->
  status_at (replay_state nodes (lines ++ [ln])).1 i = Some installing.
Proof.
  intros Htarget.
  pose proof (begin_target_in_range nodes ln i Htarget) as Hlt.
  pose proof (replay_state_length nodes lines) as Hlen.
  unfold replay_state in *. rewrite foldl_app. cbn [foldl].
  set (st := foldl _ _ lines) in *.
  assert (replay_line (index_by_key nodes) (index_by_repo nodes) st ln
          = begin i st) as ->.
  { unfold replay_line, begin_target in *.
    destruct (re_search Comfy.RESTORE_CLONE_RE ln); [by rewrite Htarget|].
    destruct (re_search Comfy.RESTORE_CNR_RE ln); [by rewrite Htarget|].
    done. }
  unfold begin. cbn [fst]. apply status_at_set_here.
  destruct st.2 as [a|]; [|lia].
  destruct (_ && _); [rewrite length_set|]; lia.
Qed.

(** The all-done marker, as a line event. *)
Lemma all_done_line nodes lines ln i :
  only_all_done ln ->
  status_at (replay_state nodes (lines ++ [ln])).1 i
  = promoted <$> status_at (replay_state nodes lines).1 i
  /\ (replay_state nodes (lines ++ [ln])).2 = None.
Proof.
  intros (Hclone & Hcnr & Hskip & Herr & Hfail & Hdone).
  unfold replay_state. rewrite foldl_app. cbn [foldl].
  set (st := foldl _ _ lines). unfold replay_line.
  rewrite Hclone, Hcnr, Hskip, Herr, Hfail, Hdone. cbn [fst snd].
  split; [apply finish_open_at|done].
Qed.

(** The block after the loop, item by item. *)
Lemma apply_closing nodes lines i v :
  nodes <> [] ->
  status_at (replay_state nodes lines).1 i = Some v ->
  (v = pending /\ closing_applies nodes lines i ->
   status_at (_apply_backup_progress nodes lines) i = Some done)
  /\ (~ (v = pending /\ closing_applies nodes lines i) ->
      status_at (_apply_backup_progress nodes lines) i = Some v).
Proof.
  intros Hne Hv. rewrite apply_as_close, close_earlier_status, Hv by done.
  unfold closing_applies. split.
  - intros [-> (a & Ha & Hinst & Hlt)]. rewrite Ha.
    rewrite bool_decide_eq_true_2 by done.
    rewrite (proj2 (Nat.ltb_lt _ _) Hlt).
    by rewrite bool_decide_eq_true_2.
  - intros Hnot. destruct (replay_state nodes lines).2 as [a|]; [|done].
    destruct (bool_decide _ && (i <? a) && bool_decide _) eqn:E; [|done].
    apply andb_true_iff in E as [[Hinst Hlt]%andb_true_iff Hp].
    apply bool_decide_eq_true in Hinst, Hp. apply Nat.ltb_lt in Hlt.
    destruct Hnot. split; [congruence|]. by exists a.
Qed.

Lemma apply_all_status nodes lines :
  Forall (fun n => node_status n <> Some active) nodes ->
  Forall (fun n => exists v, node_status n = Some v /\ v <> active)
         (_apply_backup_progress nodes lines).
Proof.
  intros Hin. apply Forall_lookup. intros i n Hn.
  assert (i < length nodes) as Hlt.
  { rewrite <-(apply_length nodes lines).
    by eapply lookup_lt_Some. }
  destruct (apply_status_present nodes lines i Hlt)
    as [v Hv].
  exists v. split.
  - unfold status_at in Hv. simpl in Hv. by rewrite Hn in Hv.
  - intros ->. apply apply_never_active in Hv.
    unfold status_at in Hv. simpl in Hv.
    destruct (nodes !! i) as [n0|] eqn:Hn0; [|done].
    by apply (proj1 (Forall_lookup _ _) Hin i n0 Hn0).
Qed.

Lemma apply_installing_alone nodes lines i :
  Forall (fun n => node_status n <> Some installing) nodes ->
  status_at (_apply_backup_progress nodes lines) i = Some installing ->
  (forall j, j <> i ->
     status_at (_apply_backup_progress nodes lines) j <> Some installing)
  /\ (forall j, j < i ->
        status_at (_apply_backup_progress nodes lines) j <> Some pending).
Proof.
  intros Hin Hi.
  assert (forall j, status_at nodes j <> Some installing) as Hnone.
  { intros j Hj. unfold status_at in Hj. simpl in Hj.
    destruct (nodes !! j) as [n|] eqn:Hn; [|done].
    by apply (proj1 (Forall_lookup _ _) Hin j n Hn). }
  destruct (apply_installing nodes lines i Hnone Hi)
    as [Hactive Hst].
  split.
  - intros j Hne Hj.
    destruct (apply_installing nodes lines j Hnone Hj)
      as [Hactive' _].
    congruence.
  - intros j Hlt. destruct (decide (nodes = [])) as [->|Hnil].
    { by destruct (Hnone i). }
    rewrite apply_as_close,
      close_earlier_status, Hactive by done.
    rewrite bool_decide_eq_true_2 by done.
    rewrite (proj2 (Nat.ltb_lt _ _) Hlt). cbn [andb].
    case_bool_decide; congruence.
Qed.

End BackupInvariants.

(** * The replay of the restore log: further properties *)

Module BackupReplay.

Import Re Backup BackupSpec BackupSamples.

(** X11.  The statuses apart, [_apply_backup_progress] returns the
    nodes it was given: as many, in the same order, each with its key,
    name, source, locator and version. *)
Theorem replay_changes_only_statuses :
  forall (nodes : list node) lines,
    (fun n => (node_key n, node_name n, node_source n, node_repo n,
               node_version n)) <$> _apply_backup_progress nodes lines
    = (fun n => (node_key n, node_name n, node_source n, node_repo n,
                 node_version n)) <$> nodes.
Proof. apply BackupInvariants.apply_frame. Qed.

(** X12.  Every node comes back with a status, and none with the stage
    status "active" unless it came in with it. *)
Theorem every_node_gets_a_status :
  forall (nodes : list node) lines,
    Forall (fun n => node_status n <> Some active) nodes ->
    Forall (fun n => exists v, node_status n = Some v /\ v <> active)
           (_apply_backup_progress nodes lines).
Proof. apply BackupInvariants.apply_all_status. Qed.

Lemma every_node_gets_a_status_witness :
  Forall (fun n => exists v, node_status n = Some v /\ v <> active)
         (_apply_backup_progress
            [registry_node "a"; registry_node "b"]
            ["[restore] cnr install b"]).
Proof. apply every_node_gets_a_status. by repeat constructor. Defined.

(** X13.  Among nodes that come in with none installing, when a node is
    reported installing no other node is, and no node before it is
    pending. *)
Theorem installing_node_is_alone :
  forall (nodes : list node) lines i,
    Forall (fun n => node_status n <> Some installing) nodes ->
    status_at (_apply_backup_progress nodes lines) i = Some installing ->
    (forall j, j <> i ->
       status_at (_apply_backup_progress nodes lines) j <> Some installing)
    /\ (forall j, j < i ->
          status_at (_apply_backup_progress nodes lines) j <> Some pending).
Proof. apply BackupInvariants.apply_installing_alone. Qed.

Lemma installing_node_is_alone_witness :
  (forall j, j <> 2 ->
     status_at (_apply_backup_progress
                  [registry_node "a"; registry_node "b"; registry_node "c"]
                  ["[restore] cnr install b"; "[restore] cnr install c"]) j
     <> Some installing)
  /\ (forall j, j < 2 ->
        status_at (_apply_backup_progress
                     [registry_node "a"; registry_node "b"; registry_node "c"]
                     ["[restore] cnr install b"; "[restore] cnr install c"]) j
        <> Some pending).
Proof.
  apply installing_node_is_alone.
  - by repeat constructor.
  - vm_compute. reflexivity.
Defined.

(** X14.  When the last line of the log is the all-done marker and
    nothing else, every node that was pending or installing is reported
    done and the others as they were: no node is left pending or
    installing. *)
Theorem all_done_marker_closes_every_node :
  forall (nodes : list node) lines ln i,
    nodes <> [] ->
    re_search Comfy.RESTORE_CLONE_RE ln = None ->
    re_search Comfy.RESTORE_CNR_RE ln = None ->
    re_search Comfy.RESTORE_SKIP_RE ln = None ->
    re_search Comfy.RESTORE_ERR_RE ln = None ->
    re_search Comfy.RESTORE_FAIL_LIST_RE ln = None ->
    found Comfy.RESTORE_DONE_RE ln = true ->
    status_at (_apply_backup_progress nodes (lines ++ [ln])) i
    = promoted <$> status_at (replay_state nodes lines).1 i
    /\ status_at (_apply_backup_progress nodes (lines ++ [ln])) i
       <> Some pending
    /\ status_at (_apply_backup_progress nodes (lines ++ [ln])) i
       <> Some installing.
Proof.
  intros nodes lines ln i Hne Hclone Hcnr Hskip Herr Hfail Hdone.
  assert (status_at (_apply_backup_progress nodes (lines ++ [ln])) i
          = promoted <$> status_at (replay_state nodes lines).1 i) as Heq.
  { rewrite BackupInvariants.apply_as_close by done.
    unfold replay_state. rewrite foldl_app. cbn [foldl].
    unfold replay_line at 1.
    rewrite Hclone, Hcnr, Hskip, Herr, Hfail, Hdone.
    unfold close_earlier. cbn [fst snd].
    apply BackupFacts.finish_open_at. }
  rewrite Heq. split; [done|].
  destruct (status_at (replay_state nodes lines).1 i) as [[]|]; by split.
Qed.

Lemma all_done_marker_closes_every_node_witness :
  status_at (_apply_backup_progress
               [registry_node "a"; registry_node "b"]
               (["[restore] cnr install a"]
                ++ ["[restore] nodes & settings done"])) 1
  = promoted <$> status_at (replay_state
                              [registry_node "a"; registry_node "b"]
                              ["[restore] cnr install a"]).1 1
  /\ status_at (_apply_backup_progress
                  [registry_node "a"; registry_node "b"]
                  (["[restore] cnr install a"]
                   ++ ["[restore] nodes & settings done"])) 1
     <> Some pending
  /\ status_at (_apply_backup_progress
                  [registry_node "a"; registry_node "b"]
                  (["[restore] cnr install a"]
                   ++ ["[restore] nodes & settings done"])) 1
     <> Some installing.
Proof.
  apply all_done_marker_closes_every_node;
    [done|vm_compute; reflexivity..].
Defined.

(** X15.  [index_by_key] maps a key to the last node of the list that
    has it, and [index_by_repo] a locator to the last node that has it,
    nodes with no locator or an empty one being left out. *)
Theorem indexes_point_to_the_last_node :
  forall (nodes : list node),
    (forall k i,
       index_by_key nodes !! k = Some i
       <-> (exists n, nodes !! i = Some n /\ node_key n = k)
           /\ forall j n', i < j -> nodes !! j = Some n' -> node_key n' <> k)
    /\ (forall r i,
          index_by_repo nodes !! r = Some i
          <-> (exists n, nodes !! i = Some n /\ node_repo n = Some r
                         /\ truthy r = true)
              /\ forall j n', i < j -> nodes !! j = Some n' ->
                   node_repo n' <> Some r).
Proof.
  intros nodes. split.
  - apply BackupInvariants.index_by_key_spec.
  - apply BackupInvariants.index_by_repo_spec.
Qed.

(** X16.  Every index the replay subscripts the list with is within
    it: the index a key resolves to, the node a begin line resolves to,
    and [active_idx] after any lines. *)
Theorem replay_indexes_are_in_range :
  forall (nodes : list node),
    (forall k idx,
       resolve (index_by_key nodes) (index_by_repo nodes) k = Some idx ->
       idx < length nodes)
    /\ (forall line idx,
          begin_target (index_by_key nodes) (index_by_repo nodes) line
          = Some idx ->
          idx < length nodes)
    /\ (forall lines a,
          (replay_state nodes lines).2 = Some a -> a < length nodes).
Proof.
  intros nodes. split_and!.
  - apply BackupInvariants.resolve_in_range.
  - apply BackupInvariants.begin_target_in_range.
  - apply BackupInvariants.replay_active_in_range.
Qed.

Lemma replay_indexes_are_in_range_witness :
  1 < length [registry_node "a"; registry_node "b"].
Proof.
  apply (proj2 (proj2 (replay_indexes_are_in_range
                         [registry_node "a"; registry_node "b"]))
           ["[restore] cnr install b"; "[restore] a already present"]).
  vm_compute. reflexivity.
Defined.

End BackupReplay.

(** * Item statuses: the claims *)

Module BackupClaims.

Import Backup BackupSpec BackupSamples.

(** C6.  A cnr-install line followed at once by the "already present"
    line of the same key: the item is left installing when it is the
    first of the manifest, and done when it is the second. *)
Theorem skip_after_begin_depends_on_position :
  statuses (_apply_backup_progress
              [registry_node "nodeX"; registry_node "nodeY"]
              ["[restore] cnr install nodeX";
               "[restore] nodeX already present"])
  = [("nodeX", Some installing); ("nodeY", Some pending)]
  /\ statuses (_apply_backup_progress
                 [registry_node "nodeY"; registry_node "nodeX"]
                 ["[restore] cnr install nodeX";
                  "[restore] nodeX already present"])
     = [("nodeY", Some pending); ("nodeX", Some done)].
Proof. split; vm_compute; reflexivity. Qed.

(** C7.  A failure list naming the first and the second item of the
    manifest marks the second only; with the same items further down
    the manifest it marks both. *)
Theorem failure_list_misses_first_item :
  statuses (_apply_backup_progress
              [registry_node "a"; registry_node "b"; registry_node "c"]
              ["[restore][warn] 2 nodes failed: [a, b]"])
  = [("a", Some pending); ("b", Some failed); ("c", Some pending)]
  /\ statuses (_apply_backup_progress
                 [registry_node "c"; registry_node "a"; registry_node "b"]
                 ["[restore][warn] 2 nodes failed: [a, b]"])
     = [("c", Some pending); ("a", Some failed); ("b", Some failed)].
Proof. split; vm_compute; reflexivity. Qed.

(** C8, as amended.  The replay starts every item without a status at
    pending.  Over one line the status of an item never moves down the
    order pending, installing, done or failed, unless the line is a
    begin line (clone or cnr install) that resolves to that item; such a
    line marks the item installing whatever it was.  The all-done
    marker turns pending and installing into done and leaves the rest.
    The block after the loop turns into done the pending items before a
    node still installing, and changes no other status. *)
Theorem item_status_moves_up_unless_begun :
  (forall (nodes : list node) i,
     i < length nodes ->
     status_at (replay_state nodes []).1 i
     = Some (default pending (status_at nodes i)))
  /\ (forall (nodes : list node) lines ln i v,
        status_at (replay_state nodes lines).1 i = Some v ->
        exists v',
          status_at (replay_state nodes (lines ++ [ln])).1 i = Some v'
          /\ (rank v <= rank v'
              \/ (begin_target (index_by_key nodes) (index_by_repo nodes) ln
                  = Some i /\ v' = installing)))
  /\ (forall (nodes : list node) i,
        status_at (finish_open nodes) i = promoted <$> status_at nodes i)
  /\ (forall (nodes : list node) lines i v,
        status_at (replay_state nodes lines).1 i = Some v ->
        nodes <> [] ->
        exists v',
          status_at (_apply_backup_progress nodes lines) i = Some v'
          /\ rank v <= rank v')
  /\ (forall (nodes : list node) lines ln i,
        begin_target (index_by_key nodes) (index_by_repo nodes) ln = Some i ->
        status_at (replay_state nodes (lines ++ [ln])).1 i = Some installing)
  /\ (forall (nodes : list node) lines ln i,
        only_all_done ln ->
        status_at (replay_state nodes (lines ++ [ln])).1 i
        = promoted <$> status_at (replay_state nodes lines).1 i
        /\ (replay_state nodes (lines ++ [ln])).2 = None)
  /\ (forall (nodes : list node) lines i v,
        nodes <> [] ->
        status_at (replay_state nodes lines).1 i = Some v ->
        (v = pending /\ closing_applies nodes lines i ->
         status_at (_apply_backup_progress nodes lines) i = Some done)
        /\ (~ (v = pending /\ closing_applies nodes lines i) ->
            status_at (_apply_backup_progress nodes lines) i = Some v)).
Proof.
  split_and!.
  - intros nodes i Hlt. by apply BackupFacts.init_status_at.
  - intros nodes lines ln i v Hv. unfold replay_state in *.
    rewrite foldl_app. by apply BackupFacts.replay_line_at.
  - apply BackupFacts.finish_open_at.
  - intros nodes lines i v Hv Hne.
    unfold _apply_backup_progress.
    destruct nodes as [|n nodes]; [done|].
    by apply BackupFacts.close_earlier_at.
  - apply BackupInvariants.begin_marks_installing.
  - apply BackupInvariants.all_done_line.
  - apply BackupInvariants.apply_closing.
Qed.

Lemma item_status_moves_up_unless_begun_witness :
  (exists v',
     status_at (replay_state [registry_node "a"; registry_node "b"]
                  (["[restore] cnr install b"]
                   ++ ["[restore] b already present"])).1 1 = Some v'
     /\ (rank installing <= rank v'
         \/ (begin_target
               (index_by_key [registry_node "a"; registry_node "b"])
               (index_by_repo [registry_node "a"; registry_node "b"])
               "[restore] b already present" = Some 1
             /\ v' = installing)))
  /\ status_at (replay_state [registry_node "a"; registry_node "b"]
                 (["[restore] b already present"]
                  ++ ["[restore] cnr install b"])).1 1 = Some installing
  /\ status_at (_apply_backup_progress
                  [registry_node "a"; registry_node "b"; registry_node "c"]
                  ["[restore] cnr install c"]) 0 = Some done.
Proof.
  split_and!.
  - apply (proj1 (proj2 item_status_moves_up_unless_begun)).
    vm_compute. reflexivity.
  - apply (proj1 (proj2 (proj2 (proj2 (proj2
             item_status_moves_up_unless_begun))))).
    vm_compute. reflexivity.
  - destruct (proj2 (proj2 (proj2 (proj2 (proj2 (proj2
                 item_status_moves_up_unless_begun)))))
                [registry_node "a"; registry_node "b"; registry_node "c"]
                ["[restore] cnr install c"] 0 pending)
      as [Hclose _]; [done|vm_compute; reflexivity|].
    apply Hclose. split; [reflexivity|]. exists 2.
    split_and!; [vm_compute; reflexivity|vm_compute; reflexivity|lia].
Defined.

(** C8 as written fails: an item already done is marked installing
    again by a later cnr-install line for it. *)
Lemma stays_terminal_rule_fails :
  ~ stays_terminal_rule [registry_node "a"; registry_node "b"]
      ["[restore] b already present"] "[restore] cnr install b" 1.
Proof.
  intros Hrule.
  destruct (Hrule done) as (v' & Hv' & Hterminal).
  - vm_compute. reflexivity.
  - by left.
  - vm_compute in Hv'. injection Hv' as <-.
    by destruct Hterminal.
Qed.

End BackupClaims.

(** * The loader and the backup state: further properties *)

Module BackupState.

Import Re Backup BackupSpec BackupSamples StageSamples.

Lemma status_at_lookup (l : list node) i :
  status_at l i = l !! i ≫= node_status.
Proof. done. Qed.

(** What one call of [build_backup_state] hands back, from a clean
    cache. *)
Lemma build_nodes_spec ENV_INFO file lines w :
  cache_clean w ->
  let r := build_backup_state ENV_INFO file lines w in
  exists values,
    Forall (fun d => node_status d = None) values
    /\ (Comfy.enabled r.1 = true ->
        values = deref (w_heap (_load_backup_nodes file w).2)
                       (_load_backup_nodes file w).1
        /\ length values = length (_load_backup_nodes file w).1)
    /\ (Comfy.enabled r.1 = false -> values = [] /\ r.2 = w)
    /\ Comfy.has_manifest r.1 = negb (length values =? 0)
    /\ NoDup (Comfy.nodes r.1)
    /\ Forall2 (fun l d => w_heap r.2 !! l = Some d) (Comfy.nodes r.1)
               (_apply_backup_progress values lines)
    /\ (forall l, l ∈ Comfy.nodes r.1 ->
          w_heap w !! l = None /\ l ∉ cache_nodes r.2).
Proof.
  intros Hclean. cbv zeta. unfold build_backup_state.
  destruct (Comfy.restore_enabled ENV_INFO
            && truthy_opt (Comfy.backup_repo ENV_INFO)) eqn:Henabled.
  - destruct (_load_backup_nodes file w) as [cached w1] eqn:Hload.
    destruct (HeapFacts.load_spec _ _ _ _ Hclean Hload)
      as (Hkeep1 & Hclean1 & Hcached & Hhit).
    destruct (alloc_all (omap (w_heap w1 !!.) cached) (w_heap w1))
      as [refs h] eqn:Halloc.
    destruct (HeapFacts.alloc_all_spec _ _ _ _ Halloc)
      as (Hnd & Hfresh & Hvals & Hframe).
    fold (deref (w_heap w1) cached) in Hvals.
    pose proof (HeapFacts.apply_on_refs h refs
                  {| hn_heap := h; hn_refs := refs |}
                  (deref (w_heap w1) cached) lines) as Hrun.
    destruct Hrun as (Hrefs & _ & Hout & Hrest); [by split_and!|].
    set (out := _apply_backup_progress
                  {| hn_heap := h; hn_refs := refs |} lines) in *.
    destruct (HeapFacts.deref_clean _ _ Hcached) as [Hnone Halive].
    cbn [fst snd Comfy.enabled Comfy.nodes Comfy.has_manifest w_heap
         cache_nodes cache_mtime].
    exists (deref (w_heap w1) cached). split_and!; try done.
    + intros _. split; [done|]. symmetry. by eapply Forall2_length.
    + by rewrite (Forall2_length _ _ _ Hvals).
    + by rewrite Hrefs.
    + by rewrite Hrefs.
    + rewrite Hrefs. intros r Hr. specialize (Hfresh r Hr). split.
      * destruct (w_heap w !! r) as [d|] eqn:Hd; [|done].
        apply Hkeep1 in Hd. congruence.
      * intros Hin.
        destruct (proj1 (Forall_forall _ _) Hclean1 r Hin) as (d & Hd & _).
        congruence.
  - cbn [fst snd Comfy.enabled Comfy.nodes Comfy.has_manifest w_heap
         cache_nodes cache_mtime hn_refs].
    exists []. split_and!; try done; try constructor;
      match goal with Hin : _ ∈ [] |- _ => by apply elem_of_nil in Hin end.
Qed.

Lemma clean_has_no (v : status_value) (values : list node) :
  Forall (fun d => node_status d = None) values ->
  Forall (fun n => node_status n <> Some v) values.
Proof. intros Hclean. eapply Forall_impl; [exact Hclean|]. by intros n ->. Qed.

(** X17.  Run on a list of distinct references, [_apply_backup_progress]
    leaves in the dicts referred to what it returns when run on the
    dicts themselves, keeps the list of references, and changes no other
    dict of the store. *)
Theorem progress_on_references_matches_values :
  forall h0 refs hn (l : list node) lines,
    models h0 refs hn l ->
    models h0 refs (_apply_backup_progress hn lines)
                   (_apply_backup_progress l lines).
Proof. intros. by apply HeapFacts.apply_on_refs. Qed.

Lemma progress_on_references_matches_values_witness :
  models {[ 1%positive := registry_node "a"; 2%positive := registry_node "b";
            3%positive := registry_node "c" ]}
    [2%positive; 1%positive]
    (_apply_backup_progress
       {| hn_heap := {[ 1%positive := registry_node "a";
                        2%positive := registry_node "b";
                        3%positive := registry_node "c" ]};
          hn_refs := [2%positive; 1%positive] |}
       ["[restore] cnr install a"])
    (_apply_backup_progress [registry_node "b"; registry_node "a"]
       ["[restore] cnr install a"]).
Proof.
  apply progress_on_references_matches_values.
  split; [reflexivity|]. split.
  { apply NoDup_cons. split; [|apply NoDup_singleton].
    by intros [=]%list_elem_of_singleton. }
  split; [|reflexivity]. repeat constructor.
Defined.

(** X18.  A second call of [_load_backup_nodes] on the same file
    returns the list the first returned and leaves the store and the
    cache as the first left them. *)
Theorem loader_is_idempotent :
  forall file w,
    _load_backup_nodes file (_load_backup_nodes file w).2
    = _load_backup_nodes file w.
Proof.
  intros [|mtime data] w; [done|]. unfold _load_backup_nodes.
  destruct (bool_decide (cache_mtime w = Some mtime)) eqn:Hhit.
  - cbn [snd]. by rewrite Hhit.
  - destruct data as [data|].
    + destruct (alloc_all _ _) as [nodes h]. cbn [snd cache_mtime].
      by rewrite bool_decide_eq_true_2.
    + cbn [snd]. by rewrite Hhit.
Qed.

(** X19.  The nodes built from a manifest have no status.  A git node
    has a key without slash and a locator with no final slash and no
    leading whitespace.  A registry node has no locator, has a version,
    and is named by its key. *)
Theorem manifest_nodes_are_well_formed :
  forall data,
    Forall (fun n =>
              node_status n = None
              /\ match node_source n with
                 | src_git =>
                     Str.has_char "/" (node_key n) = false
                     /\ exists r, node_repo n = Some r
                          /\ Str.endswith r "/" = false
                          /\ Str.head_clear Str.is_space r
                 | src_cnr =>
                     node_repo n = None /\ is_Some (node_version n)
                     /\ node_name n = node_key n
                 end)
           (manifest_nodes data).
Proof.
  intros data. unfold manifest_nodes. apply Forall_app. split.
  - apply Forall_forall. intros n [[url entry] [_ Hn]]%list_elem_of_omap.
    assert (n = {| node_key := Comfy._repo_label url;
                   node_name := node_name n;
                   node_source := src_git;
                   node_repo := Some (Comfy._normalize_repo url);
                   node_version := None;
                   node_status := None |}) as ->.
    { unfold git_node in Hn. cbn [fst snd] in Hn.
      destruct entry as [[] name|]; by simplify_eq/=. }
    cbn. split; [done|]. split; [apply RepoMore.repo_label_no_slash|].
    exists (Comfy._normalize_repo url). split; [done|].
    split; [apply RepoMore.normalize_no_final_slash|].
    apply RepoNames.normalize_head_clear.
  - apply Forall_forall.
    intros n [[name version] [-> _]]%list_elem_of_fmap. cbn.
    by split_and!.
Qed.

(** X20.  From a clean cache, the nodes [build_backup_state] hands
    back are dicts of their own: distinct from one another, not alive
    before the call, not referred to by the cache after it, and alive
    in the store the call leaves. *)
Theorem backup_state_nodes_are_new_dicts :
  forall ENV_INFO file lines w,
    cache_clean w ->
    NoDup (Comfy.nodes (build_backup_state ENV_INFO file lines w).1)
    /\ forall l,
         l ∈ Comfy.nodes (build_backup_state ENV_INFO file lines w).1 ->
         w_heap w !! l = None
         /\ (l ∉ cache_nodes (build_backup_state ENV_INFO file lines w).2)
         /\ is_Some (w_heap (build_backup_state ENV_INFO file lines w).2
                       !! l).
Proof.
  intros ENV_INFO file lines w Hclean.
  destruct (build_nodes_spec ENV_INFO file lines w Hclean)
    as (values & _ & _ & _ & _ & Hnd & Hout & Hnew).
  split; [done|]. intros l Hl. destruct (Hnew l Hl) as [Hdead Hcache].
  split_and!; [done|done|].
  apply list_elem_of_lookup_1 in Hl as [i Hi].
  destruct (Forall2_lookup_l _ _ _ _ _ Hout Hi) as (d & _ & Hd).
  by exists d.
Qed.

Lemma backup_state_nodes_are_new_dicts_witness :
  NoDup (Comfy.nodes
           (build_backup_state env_restore
              (Present 1700000000 (Some manifest_abc))
              ["[restore] cnr install beta"] world_loaded).1)
  /\ forall l,
       l ∈ Comfy.nodes
             (build_backup_state env_restore
                (Present 1700000000 (Some manifest_abc))
                ["[restore] cnr install beta"] world_loaded).1 ->
       w_heap world_loaded !! l = None
       /\ (l ∉ cache_nodes
                 (build_backup_state env_restore
                    (Present 1700000000 (Some manifest_abc))
                    ["[restore] cnr install beta"] world_loaded).2)
       /\ is_Some (w_heap
                     (build_backup_state env_restore
                        (Present 1700000000 (Some manifest_abc))
                        ["[restore] cnr install beta"] world_loaded).2
                     !! l).
Proof.
  apply backup_state_nodes_are_new_dicts.
  repeat constructor; eexists; (split; [vm_compute; reflexivity|reflexivity]).
Defined.

(** X21.  The flags of the backup state: it is enabled when the restore
    is switched on and a repository is named; disabled, it has no nodes
    and the call changes nothing; enabled, it has one node for each node
    the loader returns, and [has_manifest] tells whether there is
    any. *)
Theorem backup_state_flags :
  forall ENV_INFO file lines w,
    cache_clean w ->
    Comfy.enabled (build_backup_state ENV_INFO file lines w).1
    = Comfy.restore_enabled ENV_INFO
      && truthy_opt (Comfy.backup_repo ENV_INFO)
    /\ Comfy.repo (build_backup_state ENV_INFO file lines w).1
       = Comfy.backup_repo ENV_INFO
    /\ Comfy.has_manifest (build_backup_state ENV_INFO file lines w).1
       = negb (length (Comfy.nodes
                         (build_backup_state ENV_INFO file lines w).1) =? 0)
    /\ (Comfy.enabled (build_backup_state ENV_INFO file lines w).1 = false ->
        Comfy.nodes (build_backup_state ENV_INFO file lines w).1 = []
        /\ (build_backup_state ENV_INFO file lines w).2 = w)
    /\ (Comfy.enabled (build_backup_state ENV_INFO file lines w).1 = true ->
        length (Comfy.nodes (build_backup_state ENV_INFO file lines w).1)
        = length (_load_backup_nodes file w).1).
Proof.
  intros ENV_INFO file lines w Hclean.
  destruct (build_nodes_spec ENV_INFO file lines w Hclean)
    as (values & _ & Hon & Hoff & Hman & _ & Hout & _).
  assert (length (Comfy.nodes (build_backup_state ENV_INFO file lines w).1)
          = length values) as Hlen.
  { rewrite (Forall2_length _ _ _ Hout).
    apply BackupInvariants.apply_length. }
  split_and!.
  - apply CacheClaims.build_enabled.
  - unfold build_backup_state. destruct (_ && _); [|done].
    destruct (_load_backup_nodes file w) as [cached w1].
    by destruct (alloc_all _ _).
  - by rewrite Hlen.
  - intros Hdis. destruct (Hoff Hdis) as [Hnil Hw]. split; [|done].
    apply length_zero_iff_nil. by rewrite Hlen, Hnil.
  - intros Hen. destruct (Hon Hen) as [_ Hl]. by rewrite Hlen.
Qed.

Lemma backup_state_flags_witness :
  Comfy.enabled
    (build_backup_state env_restore
       (Present 1700000000 (Some manifest_abc)) [] initial_world).1
  = Comfy.restore_enabled env_restore
    && truthy_opt (Comfy.backup_repo env_restore)
  /\ length (Comfy.nodes
               (build_backup_state env_restore
                  (Present 1700000000 (Some manifest_abc)) []
                  initial_world).1)
     = length (_load_backup_nodes
                 (Present 1700000000 (Some manifest_abc)) initial_world).1.
Proof.
  destruct (backup_state_flags env_restore
              (Present 1700000000 (Some manifest_abc)) [] initial_world)
    as (Hen & _ & _ & _ & Hlen); [constructor|].
  split; [exact Hen|]. apply Hlen. vm_compute. reflexivity.
Defined.

(** X22.  From a clean cache, every node of the backup state is alive
    and has a status, never the stage status "active"; when one is
    installing no other is, and none before it is pending. *)
Theorem backup_state_statuses :
  forall ENV_INFO file lines w,
    cache_clean w ->
    length (deref (w_heap (build_backup_state ENV_INFO file lines w).2)
              (Comfy.nodes (build_backup_state ENV_INFO file lines w).1))
    = length (Comfy.nodes (build_backup_state ENV_INFO file lines w).1)
    /\ Forall (fun n => exists v, node_status n = Some v /\ v <> active)
         (deref (w_heap (build_backup_state ENV_INFO file lines w).2)
            (Comfy.nodes (build_backup_state ENV_INFO file lines w).1))
    /\ forall i,
         status_at
           (deref (w_heap (build_backup_state ENV_INFO file lines w).2)
              (Comfy.nodes (build_backup_state ENV_INFO file lines w).1)) i
         = Some installing ->
         (forall j, j <> i ->
            status_at
              (deref (w_heap (build_backup_state ENV_INFO file lines w).2)
                 (Comfy.nodes (build_backup_state ENV_INFO file lines w).1))
              j <> Some installing)
         /\ (forall j, j < i ->
               status_at
                 (deref (w_heap (build_backup_state ENV_INFO file lines w).2)
                    (Comfy.nodes
                       (build_backup_state ENV_INFO file lines w).1))
                 j <> Some pending).
Proof.
  intros ENV_INFO file lines w Hclean.
  destruct (build_nodes_spec ENV_INFO file lines w Hclean)
    as (values & Hvalues & _ & _ & _ & _ & Hout & _).
  rewrite (HeapFacts.deref_models _ _ _ Hout). split_and!.
  - symmetry. by eapply Forall2_length.
  - by apply BackupInvariants.apply_all_status, clean_has_no.
  - intros i. by apply BackupInvariants.apply_installing_alone, clean_has_no.
Qed.

Lemma backup_state_statuses_witness :
  Forall (fun n => exists v, node_status n = Some v /\ v <> active)
    (deref (w_heap (build_backup_state env_restore
                      (Present 1700000000 (Some manifest_abc))
                      ["[restore] cnr install beta"] initial_world).2)
       (Comfy.nodes (build_backup_state env_restore
                       (Present 1700000000 (Some manifest_abc))
                       ["[restore] cnr install beta"] initial_world).1)).
Proof.
  apply (backup_state_statuses env_restore
           (Present 1700000000 (Some manifest_abc))
           ["[restore] cnr install beta"] initial_world).
  constructor.
Defined.

End BackupState.

(** * The tail reader: further properties *)

Module TailFacts.

Import Tail TailSpec.

Lemma split_breaks_nonempty after_cr s : split_breaks after_cr s <> [].
Proof.
  revert after_cr. induction s as [|c s IH]; intros after_cr; [done|].
  cbn [split_breaks]. destruct (after_cr && _); [apply IH|].
  destruct (is_linebreak c); [done|].
  by destruct (split_breaks false s).
Qed.

Lemma split_breaks_one_line s :
  one_line s = true -> split_breaks false s = [s].
Proof.
  induction s as [|c s IH]; [done|]. cbn [one_line split_breaks andb].
  intros [Hc Hs]%andb_true_iff. apply negb_true_iff in Hc.
  by rewrite Hc, IH.
Qed.

Lemma split_breaks_line a b :
  one_line a = true ->
  split_breaks false (a +:+ String "010" b) = a :: split_breaks false b.
Proof.
  induction a as [|c a IH].
  - intros _. by rewrite StrMore.app_nil.
  - cbn [one_line]. intros [Hc Ha]%andb_true_iff. apply negb_true_iff in Hc.
    rewrite StrMore.app_cons. cbn [split_breaks andb].
    by rewrite Hc, IH.
Qed.

Lemma split_breaks_lines after_cr s :
  Forall (fun l => one_line l = true) (split_breaks after_cr s).
Proof.
  revert after_cr. induction s as [|c s IH]; intros after_cr.
  - by repeat constructor.
  - cbn [split_breaks]. destruct (after_cr && _); [apply IH|].
    destruct (is_linebreak c) eqn:Hc; [by constructor|].
    specialize (IH false). destruct (split_breaks false s) as [|h t].
    + repeat constructor. cbn [one_line]. by rewrite Hc.
    + apply Forall_cons in IH as [Hh Ht]. constructor; [|done].
      cbn [one_line]. by rewrite Hc.
Qed.

Lemma Forall_removelast {X} (P : X -> Prop) (l : list X) :
  Forall P l -> Forall P (removelast l).
Proof.
  induction 1 as [|x l Hx Hl IH]; [constructor|].
  simpl. destruct l; [constructor|]. by constructor.
Qed.

Lemma splitlines_lines s :
  Forall (fun l => one_line l = true) (splitlines s).
Proof.
  unfold splitlines. pose proof (split_breaks_lines false s) as Hall.
  destruct (List.last _ _); [by apply Forall_removelast|done].
Qed.

Lemma splitlines_log_text lines :
  Forall (fun l => one_line l = true) lines ->
  splitlines (log_text lines) = lines.
Proof.
  induction 1 as [|l lines Hl _ IH]; [done|].
  unfold splitlines in *. cbn [log_text foldr].
  fold (log_text lines). rewrite split_breaks_line by done.
  pose proof (split_breaks_nonempty false (log_text lines)) as Hne.
  destruct (split_breaks false (log_text lines)) as [|p parts]; [done|].
  change (List.last (l :: p :: parts) EmptyString)
    with (List.last (p :: parts) EmptyString).
  destruct (List.last (p :: parts) EmptyString).
  - change (removelast (l :: p :: parts))
      with (l :: removelast (p :: parts)).
    by rewrite IH.
  - by rewrite IH.
Qed.

(** What the reader of comfy_wait_page.py decodes. *)
Lemma comfy_tail_window files decode_ignore path max_bytes pre suf :
  files path = Some (pre ++ suf) ->
  Z.of_nat (length suf) = max_bytes ->
  ComfyTail.tail_lines files decode_ignore path max_bytes
  = Return (splitlines (decode_ignore suf)).
Proof.
  intros Hfile Hlen. unfold ComfyTail.tail_lines, tail_lines_in.
  rewrite Hfile. cbn. do 3 f_equal.
  rewrite length_app.
  replace (Z.to_nat (Z.max (Z.of_nat (length pre + length suf)
                            - max_bytes) 0)) with (length pre) by lia.
  by rewrite drop_app_length.
Qed.

Lemma comfy_tail_whole files decode_ignore path max_bytes content :
  files path = Some content ->
  (Z.of_nat (length content) <= max_bytes)%Z ->
  ComfyTail.tail_lines files decode_ignore path max_bytes
  = Return (splitlines (decode_ignore content)).
Proof.
  intros Hfile Hlen. unfold ComfyTail.tail_lines, tail_lines_in.
  rewrite Hfile. cbn. do 3 f_equal.
  by replace (Z.to_nat (Z.max (Z.of_nat (length content)
                               - max_bytes) 0)) with 0 by lia.
Qed.

End TailFacts.

Module TailReader.

Import Tail TailSpec.

(** X23.  The reader of comfy_wait_page.py decodes the last [max_bytes]
    bytes of the file and nothing before them, and the whole file when
    it is no longer than that. *)
Theorem reader_reads_only_the_last_bytes :
  forall files decode_ignore path max_bytes,
    (forall pre suf,
       files path = Some (pre ++ suf) ->
       Z.of_nat (length suf) = max_bytes ->
       ComfyTail.tail_lines files decode_ignore path max_bytes
       = Return (splitlines (decode_ignore suf)))
    /\ (forall content,
          files path = Some content ->
          (Z.of_nat (length content) <= max_bytes)%Z ->
          ComfyTail.tail_lines files decode_ignore path max_bytes
          = Return (splitlines (decode_ignore content))).
Proof.
  intros files decode_ignore path max_bytes. split.
  - intros pre suf. apply TailFacts.comfy_tail_window.
  - intros content. apply TailFacts.comfy_tail_whole.
Qed.

Lemma reader_reads_only_the_last_bytes_witness :
  ComfyTail.tail_lines
    (fun _ => Some (String.list_byte_of_string "old" ++
                    String.list_byte_of_string "new"))
    String.string_of_list_byte "/comfyui.log" 3
  = Return (splitlines
              (String.string_of_list_byte (String.list_byte_of_string "new"))).
Proof.
  apply (proj1 (reader_reads_only_the_last_bytes
                  (fun _ => Some (String.list_byte_of_string "old" ++
                                  String.list_byte_of_string "new"))
                  String.string_of_list_byte "/comfyui.log" 3)
           (String.list_byte_of_string "old")
           (String.list_byte_of_string "new")); reflexivity.
Defined.

(** X24.  No line the reader returns holds a line boundary; and for a
    log no longer than [max_bytes] whose text is a sequence of lines,
    each followed by a line feed, the reader returns these lines. *)
Theorem reader_returns_the_lines_of_the_log :
  forall files decode_ignore path max_bytes,
    (forall lines,
       ComfyTail.tail_lines files decode_ignore path max_bytes
       = Return lines ->
       Forall (fun l => one_line l = true) lines)
    /\ (forall content lines,
          files path = Some content ->
          (Z.of_nat (length content) <= max_bytes)%Z ->
          decode_ignore content = log_text lines ->
          Forall (fun l => one_line l = true) lines ->
          ComfyTail.tail_lines files decode_ignore path max_bytes
          = Return lines).
Proof.
  intros files decode_ignore path max_bytes. split.
  - intros lines. unfold ComfyTail.tail_lines, tail_lines_in.
    destruct (files path) as [content|].
    + cbn. intros [= <-]. apply TailFacts.splitlines_lines.
    + intros [= <-]. constructor.
  - intros content lines Hfile Hlen Htext Hlines.
    rewrite (TailFacts.comfy_tail_whole _ _ _ _ content) by done.
    by rewrite Htext, TailFacts.splitlines_log_text.
Qed.

Lemma reader_returns_the_lines_of_the_log_witness :
  ComfyTail.tail_lines
    (fun _ => Some (String.list_byte_of_string
                      (log_text ["STAGE: Checking CUDA"; "Creating venv"])))
    String.string_of_list_byte "/comfyui.log" ComfyTail.LOG_TAIL_BYTES
  = Return ["STAGE: Checking CUDA"; "Creating venv"].
Proof.
  apply (proj2 (reader_returns_the_lines_of_the_log
                  (fun _ => Some (String.list_byte_of_string
                                    (log_text ["STAGE: Checking CUDA";
                                               "Creating venv"])))
                  String.string_of_list_byte "/comfyui.log"
                  ComfyTail.LOG_TAIL_BYTES)
           (String.list_byte_of_string
              (log_text ["STAGE: Checking CUDA"; "Creating venv"])));
    [reflexivity|vm_compute; discriminate|vm_compute; reflexivity|].
  by repeat constructor.
Defined.

End TailReader.

(** * The environment: facts and properties *)

Module EnvFacts.

Import Str StrFacts StrMore.

Lemma lower_char_idem c : lower_char (lower_char c) = lower_char c.
Proof. by destruct c as [[] [] [] [] [] [] [] []]. Qed.

Lemma is_space_lower_char c : is_space (lower_char c) = is_space c.
Proof. by destruct c as [[] [] [] [] [] [] [] []]. Qed.

Lemma lower_idem s : lower (lower s) = lower s.
Proof.
  induction s as [|c s IH]; [done|]. simpl. by rewrite lower_char_idem, IH.
Qed.

Lemma lower_lstrip s :
  lower (lstrip is_space s) = lstrip is_space (lower s).
Proof.
  induction s as [|c s IH]; [done|]. simpl. rewrite is_space_lower_char.
  by destruct (is_space c).
Qed.

Lemma lower_rstrip s :
  lower (rstrip is_space s) = rstrip is_space (lower s).
Proof.
  induction s as [|c s IH]; [done|]. simpl.
  rewrite <-IH, is_space_lower_char.
  destruct (rstrip is_space s); simpl; [by destruct (is_space c)|done].
Qed.

Lemma lower_strip s : lower (strip s) = strip (lower s).
Proof. unfold strip. by rewrite lower_rstrip, lower_lstrip. Qed.

End EnvFacts.

Module Environment.

Import ComfyEnv.

(** X25.  [_bool_env] reads its value without regard to case and to
    surrounding whitespace, and reads the default when there is no
    value; with RESTORE_BACKUP unset the restore is off. *)
Theorem bool_env_ignores_case_and_blanks :
  forall value default_ (env : environ),
    _bool_env (Some (Str.lower value)) default_
    = _bool_env (Some value) default_
    /\ _bool_env (Some (Str.strip value)) default_
       = _bool_env (Some value) default_
    /\ _bool_env None default_ = _bool_env (Some default_) default_
    /\ Comfy.restore_enabled (ENV_INFO env)
       = _bool_env (env !! "RESTORE_BACKUP") "0"
    /\ (env !! "RESTORE_BACKUP" = None ->
        Comfy.restore_enabled (ENV_INFO env) = false).
Proof.
  intros value default_ env. unfold _bool_env. cbn [from_option id].
  split_and!.
  - by rewrite <-EnvFacts.lower_strip, EnvFacts.lower_idem.
  - by rewrite StrMore.strip_idem.
  - done.
  - unfold ENV_INFO. cbn [Comfy.restore_enabled]. unfold _bool_env.
    by destruct (env !! "RESTORE_BACKUP").
  - unfold ENV_INFO. cbn [Comfy.restore_enabled]. by intros ->.
Qed.

Lemma bool_env_ignores_case_and_blanks_witness :
  Comfy.restore_enabled (ENV_INFO {[ "HF_TOKEN" := "hf_x" ]}) = false.
Proof.
  by apply (proj2 (proj2 (proj2 (proj2
              (bool_env_ignores_case_and_blanks "" ""
                 {[ "HF_TOKEN" := "hf_x" ]}))))).
Defined.

(** X26.  The backup repository of [ENV_INFO] is either absent or the
    value of COMFYUI_BACKUP stripped of surrounding whitespace, and then
    not empty: it is truthy exactly when it is present. *)
Theorem env_backup_repo_is_stripped :
  forall (env : environ),
    match Comfy.backup_repo (ENV_INFO env) with
    | Some repo =>
        truthy repo = true /\ Str.strip repo = repo
        /\ exists v, env !! "COMFYUI_BACKUP" = Some v /\ repo = Str.strip v
    | None =>
        forall v, env !! "COMFYUI_BACKUP" = Some v -> Str.strip v = EmptyString
    end
    /\ truthy_opt (Comfy.backup_repo (ENV_INFO env))
       = bool_decide (is_Some (Comfy.backup_repo (ENV_INFO env))).
Proof.
  intros env. unfold ENV_INFO. cbn [Comfy.backup_repo]. unfold stripped_var.
  destruct (env !! "COMFYUI_BACKUP") as [v|]; cbn [from_option]; unfold id.
  - destruct (truthy (Str.strip v)) eqn:Ht; cbn [truthy_opt].
    + rewrite Ht. split; [|done].
      split_and!; [done|apply StrMore.strip_idem|by exists v].
    + split; [|done]. intros v' [= <-]. unfold truthy in Ht.
      apply negb_false_iff in Ht. by apply String.eqb_eq in Ht.
  - done.
Qed.

End Environment.

(** * The payload of the state endpoint: properties *)

Module Payload.

Import Tail Backup StageSamples BackupSamples.

Lemma bootstrap_unskipped {N} (bs : Comfy.backup_state N) :
  "bootstrap" ∉ Comfy.skip_ids bs.
Proof.
  unfold Comfy.skip_ids. destruct (negb _); [|apply not_elem_of_empty].
  rewrite not_elem_of_union, !not_elem_of_singleton. by split.
Qed.

Lemma skip_flags {N} (bs : Comfy.backup_state N) :
  (fun d => (Comfy.d_id d, bool_decide (Comfy.d_id d ∈ Comfy.skip_ids bs)))
    <$> Comfy.STAGE_DEFS
  = [("bootstrap", false); ("venv", false); ("wheels", false);
     ("backup-manager", negb (Comfy.enabled bs));
     ("backup-nodes", negb (Comfy.enabled bs));
     ("core", false); ("custom", false); ("launch", false)].
Proof.
  unfold Comfy.skip_ids. destruct (Comfy.enabled bs); vm_compute; reflexivity.
Qed.

(** With an empty log the first stage of the table is the active one:
    it is never skipped. *)
Lemma compute_nil_pipeline ENV_INFO {N} (bs : Comfy.backup_state N) :
  ComfySpec.pipeline_at 0
    (Comfy.compute_stage_states ENV_INFO Comfy.STAGE_DEFS [] bs).
Proof.
  destruct (ComfyStagesMore.compute_is_pipeline ENV_INFO Comfy.STAGE_DEFS bs [])
    as (k & d & Hd & Hun & Hpipe).
  { eexists. split; [apply list_elem_of_here|]. apply bootstrap_unskipped. }
  destruct k as [|k]; [done|].
  destruct Hpipe as [_ Hrest].
  destruct (lookup_lt_is_Some_2
              (Comfy.compute_stage_states ENV_INFO Comfy.STAGE_DEFS [] bs) 0)
    as [s0 Hs0].
  { rewrite ComfyStages.compute_length. simpl. lia. }
  destruct (ComfyStages.compute_lookup ENV_INFO Comfy.STAGE_DEFS bs [] 0 s0 Hs0)
    as (d0 & Hd0 & Hsk & _).
  injection Hd0 as <-.
  rewrite bool_decide_eq_false_2 in Hsk by apply bootstrap_unskipped.
  destruct (Hrest 0 s0 Hs0) as (_ & Hdone & _).
  specialize (Hdone Hsk ltac:(lia)).
  pose proof (ComfyStages.compute_cold ENV_INFO Comfy.STAGE_DEFS bs []
                ltac:(constructor) 0 s0 Hs0 Hsk) as [[Ha _]|[Hp _]];
    congruence.
Qed.

(** ** The loader over what the parser returns *)

Lemma mapM_step {X Y} (f : X -> option Y) x l :
  mapM f (x :: l) = y ← f x; k ← mapM f l; Some (y :: k).
Proof. done. Qed.

Lemma git_nodes_typed items typed :
  mapM Manifest.typed_entry items = Some typed ->
  Manifest.git_nodes items = Manifest.Ok (omap (fun p => git_node p.1 p.2) typed).
Proof.
  revert typed. induction items as [|[k e] items IH]; intros typed.
  { by intros [= <-]. }
  rewrite mapM_step. intros Htyped.
  destruct (Manifest.typed_entry (k, e)) as [p|] eqn:Hp; [|done].
  destruct (mapM Manifest.typed_entry items) as [rest|] eqn:Hrest; [|done].
  simpl in Htyped. injection Htyped as <-.
  specialize (IH rest eq_refl). cbn [Manifest.git_nodes].
  destruct e as [[] name|]; destruct k as [url| |]; simplify_eq/=;
    rewrite ?IH; done.
Qed.

Lemma parsed_typed data m :
  Manifest.typed_data data = Some m ->
  Manifest.parsed_nodes data = Manifest.Ok (manifest_nodes m).
Proof.
  destruct data as [git cnr|]; [|done]. cbn [Manifest.typed_data].
  destruct git as [|git|]; [| |done];
    destruct cnr as [|cnr|]; simpl;
    try (destruct (mapM Manifest.typed_entry git) as [typed|] eqn:Ht;
         simpl; [|done]);
    intros [= <-]; try done;
    by rewrite (git_nodes_typed _ _ Ht).
Qed.

Lemma parsed_ill_formed data :
  Manifest.typed_data data = None ->
  Manifest.parsed_nodes data = Manifest.Err Manifest.AttributeError
  \/ Manifest.parsed_nodes data = Manifest.Err Manifest.TypeError.
Proof.
  assert (forall items,
            mapM Manifest.typed_entry items = None ->
            Manifest.git_nodes items = Manifest.Err Manifest.AttributeError
            \/ Manifest.git_nodes items = Manifest.Err Manifest.TypeError)
    as Hgit.
  { induction items as [|[k e] items IH]; [done|].
    rewrite mapM_step. cbn [Manifest.git_nodes].
    destruct e as [[] name|]; destruct k as [url| |]; simpl;
      try (by left); try (by right);
      (destruct (mapM Manifest.typed_entry items) eqn:Hrest; [done|];
       intros _; destruct (IH eq_refl) as [->| ->]; [by left|by right]). }
  destruct data as [git cnr|]; [|by left]. cbn [Manifest.typed_data].
  destruct git as [|git|]; [| |by left].
  - destruct cnr as [|cnr|]; simpl; [done|done|by left].
  - simpl. destruct (mapM Manifest.typed_entry git) as [typed|] eqn:Ht.
    + simpl. rewrite (git_nodes_typed _ _ Ht).
      destruct cnr as [|cnr|]; simpl; [done|done|by left].
    + intros _. destruct (Hgit git Ht) as [->| ->]; [by left|by right].
Qed.

Lemma load_typed file f w :
  Manifest.typed_file file = Some f ->
  Manifest._load_backup_nodes file w
  = Manifest.Ok (Backup._load_backup_nodes f w).
Proof.
  destruct file as [| |mtime [data|]]; simpl; [|done| |].
  - by intros [= <-].
  - destruct (Manifest.typed_data data) as [m|] eqn:Hm; [|done].
    simpl. intros [= <-]. unfold Backup._load_backup_nodes.
    destruct (bool_decide _); [done|].
    rewrite (parsed_typed _ _ Hm). by destruct (alloc_all _ _).
  - intros [= <-]. unfold Backup._load_backup_nodes.
    by destruct (bool_decide _).
Qed.

Lemma build_outcome ENV_INFO file lines w :
  match Manifest.build_backup_state ENV_INFO file lines w with
  | Manifest.Ok (bs, w') =>
      Comfy.enabled bs
      = Comfy.restore_enabled ENV_INFO
        && truthy_opt (Comfy.backup_repo ENV_INFO)
      /\ (Comfy.enabled bs = true ->
          exists r, Manifest._load_backup_nodes file w = Manifest.Ok r)
  | Manifest.Err e =>
      Comfy.restore_enabled ENV_INFO
      && truthy_opt (Comfy.backup_repo ENV_INFO) = true
      /\ Manifest._load_backup_nodes file w = Manifest.Err e
  end.
Proof.
  unfold Manifest.build_backup_state.
  destruct (Comfy.restore_enabled ENV_INFO && _); [|by split].
  destruct (Manifest._load_backup_nodes file w) as [[cached w1]|e];
    [|by split].
  destruct (alloc_all _ _) as [refs h]. split; [done|]. by eexists.
Qed.

(** X27.  [build_state_payload] of comfy_wait_page.py raises
    [ValueError] for a log path that holds a NUL.  Otherwise it raises
    exactly when the restore is enabled and the loader raises, which
    the loader does only for a manifest it cannot look at, or for one
    with a new modification time that parses into something else than
    a mapping whose sections are mappings with str keys.  In every other
    case it returns a payload,
    whether or not the log can be opened: the payload carries the clock
    value and [ENV_INFO], its backup state is enabled when the restore
    is switched on and a repository is named, it lists the eight
    stages, the two backup stages skipped exactly when the backup state
    is not enabled, and its report is that of a pipeline standing at
    some stage, the first one when the log cannot be opened. *)
Theorem comfy_payload_outcomes :
  forall T ENV_INFO files decode_ignore file (now : T) log_path w,
    (Str.has_char "000" log_path = true ->
     ComfyPayload.build_state_payload ENV_INFO files decode_ignore file now
       log_path w = Manifest.Err Manifest.ValueError)
    /\ (forall e,
          Str.has_char "000" log_path = false ->
          Comfy.restore_enabled ENV_INFO
          && truthy_opt (Comfy.backup_repo ENV_INFO) = true ->
          Manifest._load_backup_nodes file w = Manifest.Err e ->
          ComfyPayload.build_state_payload ENV_INFO files decode_ignore file
            now log_path w = Manifest.Err e)
    /\ (Str.has_char "000" log_path = false ->
        Comfy.restore_enabled ENV_INFO
        && truthy_opt (Comfy.backup_repo ENV_INFO) = false
        \/ (exists r, Manifest._load_backup_nodes file w = Manifest.Ok r) ->
        exists p w',
          ComfyPayload.build_state_payload ENV_INFO files decode_ignore file
            now log_path w = Manifest.Ok (p, w')
          /\ ComfyPayload.timestamp p = now
          /\ ComfyPayload.env p = ENV_INFO
          /\ Comfy.enabled (ComfyPayload.backup p)
             = Comfy.restore_enabled ENV_INFO
               && truthy_opt (Comfy.backup_repo ENV_INFO)
          /\ (fun s => (Comfy.id s, Comfy.skipped s)) <$> ComfyPayload.stages p
             = [("bootstrap", false); ("venv", false); ("wheels", false);
                ("backup-manager",
                 negb (Comfy.enabled (ComfyPayload.backup p)));
                ("backup-nodes",
                 negb (Comfy.enabled (ComfyPayload.backup p)));
                ("core", false); ("custom", false); ("launch", false)]
          /\ (exists k, ComfySpec.pipeline_at k (ComfyPayload.stages p))
          /\ (files log_path = None ->
              ComfySpec.pipeline_at 0 (ComfyPayload.stages p)))
    /\ (forall e,
          Manifest._load_backup_nodes file w = Manifest.Err e ->
          (e = Manifest.Uncaught OSError /\ file = Manifest.RawInaccessible)
          \/ ((e = Manifest.AttributeError \/ e = Manifest.TypeError)
              /\ exists mtime data,
                   file = Manifest.RawPresent mtime (Some data)
                   /\ cache_mtime w <> Some mtime
                   /\ Manifest.typed_data data = None))
    /\ (forall mtime,
          cache_mtime w <> Some mtime ->
          Manifest._load_backup_nodes
            (Manifest.RawPresent mtime (Some Manifest.RawOther)) w
          = Manifest.Err Manifest.AttributeError)
    /\ (forall f,
          Manifest.typed_file file = Some f ->
          Manifest._load_backup_nodes file w
          = Manifest.Ok (Backup._load_backup_nodes f w)).
Proof.
  intros T ENV_INFO files decode_ignore file now log_path w.
  unfold ComfyPayload.build_state_payload, ComfyPayload.tail_lines.
  split_and!.
  - by intros ->.
  - intros e -> Hen Hload.
    assert (exists lines,
              ComfyTail.tail_lines files decode_ignore log_path
                ComfyTail.LOG_TAIL_BYTES = Return lines) as [lines ->].
    { unfold ComfyTail.tail_lines, tail_lines_in.
      destruct (files log_path); by eexists. }
    pose proof (build_outcome ENV_INFO file lines w) as Hb.
    destruct (Manifest.build_backup_state ENV_INFO file lines w)
      as [[bs w']|e'].
    + destruct Hb as [Hbs Hok]. destruct Hok as [r Hr]; [congruence|].
      congruence.
    + destruct Hb as [_ He]. congruence.
  - intros -> Hok.
    assert (exists lines,
              ComfyTail.tail_lines files decode_ignore log_path
                ComfyTail.LOG_TAIL_BYTES = Return lines
              /\ (files log_path = None -> lines = []))
      as (lines & -> & Hnil).
    { unfold ComfyTail.tail_lines, tail_lines_in.
      destruct (files log_path); eexists; by split. }
    pose proof (build_outcome ENV_INFO file lines w) as Hb.
    destruct (Manifest.build_backup_state ENV_INFO file lines w)
      as [[bs w']|e'].
    + destruct Hb as [Hen _]. eexists _, w'. split; [reflexivity|].
      cbn [ComfyPayload.timestamp ComfyPayload.env ComfyPayload.backup
           ComfyPayload.stages].
      split_and!; [done|done|done| | |].
      * pose proof (f_equal
                      (fmap (fun p : string * string * bool => (p.1.1, p.2)))
                      (ComfyStagesMore.compute_listing ENV_INFO
                         Comfy.STAGE_DEFS bs lines)) as Hlist.
        rewrite <-!list_fmap_compose in Hlist.
        etrans; [exact Hlist|]. apply skip_flags.
      * destruct (ComfyStagesMore.compute_is_pipeline ENV_INFO
                    Comfy.STAGE_DEFS bs lines) as (k & _ & _ & _ & Hpipe);
          [|by exists k].
        eexists. split; [apply list_elem_of_here|]. apply bootstrap_unskipped.
      * intros Hnone. rewrite (Hnil Hnone). apply compute_nil_pipeline.
    + destruct Hb as [Hen He]. destruct Hok as [Hoff|[r Hr]]; congruence.
  - intros e. destruct file as [| |mtime [data|]]; simpl; [done| | |].
    + intros [= <-]. by left.
    + destruct (bool_decide (cache_mtime w = Some mtime)) eqn:Hhit; [done|].
      apply bool_decide_eq_false in Hhit.
      destruct (Manifest.typed_data data) as [m|] eqn:Hm.
      { rewrite (parsed_typed _ _ Hm). by destruct (alloc_all _ _). }
      destruct (parsed_ill_formed data Hm) as [-> | ->];
        intros [= <-]; right; (split; [first [by left|by right]|]);
        by exists mtime, data.
    + by destruct (bool_decide _).
  - intros mtime Hmiss. simpl. by rewrite bool_decide_eq_false_2.
  - intros f. apply load_typed.
Qed.

Lemma comfy_payload_outcomes_witness :
  ComfyPayload.build_state_payload env_restore (fun _ => None)
    String.string_of_list_byte Manifest.RawMissing 0%Z
    (String "000" "log") initial_world
  = Manifest.Err Manifest.ValueError
  /\ ComfyPayload.build_state_payload env_restore (fun _ => None)
       String.string_of_list_byte
       (Manifest.RawPresent 1700000000 (Some Manifest.RawOther)) 0%Z
       "/comfyui.log" initial_world
     = Manifest.Err Manifest.AttributeError
  /\ exists p w',
       ComfyPayload.build_state_payload env_plain (fun _ => None)
         String.string_of_list_byte
         (Manifest.RawPresent 1700000000 (Some Manifest.RawOther)) 0%Z
         "/comfyui.log" initial_world
       = Manifest.Ok (p, w')
       /\ ComfySpec.pipeline_at 0 (ComfyPayload.stages p).
Proof.
  split_and!.
  - by apply (proj1 (comfy_payload_outcomes Z env_restore (fun _ => None)
                       String.string_of_list_byte Manifest.RawMissing 0%Z
                       (String "000" "log") initial_world)).
  - apply (proj1 (proj2 (comfy_payload_outcomes Z env_restore (fun _ => None)
                           String.string_of_list_byte
                           (Manifest.RawPresent 1700000000
                              (Some Manifest.RawOther)) 0%Z
                           "/comfyui.log" initial_world)));
      reflexivity.
  - destruct (proj1 (proj2 (proj2
                (comfy_payload_outcomes Z env_plain (fun _ => None)
                   String.string_of_list_byte
                   (Manifest.RawPresent 1700000000 (Some Manifest.RawOther))
                   0%Z "/comfyui.log" initial_world))))
      as (p & w' & Heq & _ & _ & _ & _ & _ & Hcold);
      [reflexivity|by left|].
    exists p, w'. split; [exact Heq|]. by apply Hcold.
Defined.

(** X28.  [build_state_payload] of ai_toolkit_wait_page.py answers only
    when the log cannot be opened, and then with the report of an empty
    log: the first stage active, the others pending, every detail the
    initial one.  When the log can be opened the call raises the
    [NameError] of its reader. *)
Theorem aitk_payload_answers_only_without_a_log :
  forall T files decode_ignore (now : T) log_path,
    AIToolkitPayload.build_state_payload files decode_ignore now log_path
    = match files log_path with
      | None =>
          Return {| AIToolkitPayload.timestamp := now;
                    AIToolkitPayload.stages :=
                      AIToolkit.compute_stage_states
                        AIToolkit.AITK_STAGE_DEFS [] |}
      | Some _ => Raise (NameError "os")
      end
    /\ forall p,
         AIToolkitPayload.build_state_payload files decode_ignore now log_path
         = Return p ->
         files log_path = None
         /\ AIToolkitPayload.timestamp p = now
         /\ (fun s => (AIToolkit.id s, AIToolkit.status s, AIToolkit.detail s))
              <$> AIToolkitPayload.stages p
            = [("repo", active, "Cloning ai-toolkit source");
               ("venv", pending, "Creating virtualenv and upgrading pip");
               ("deps", pending, "Installing requirements");
               ("ui-build", pending, "Preparing AI Toolkit UI");
               ("start", pending, "Starting ai-toolkit on :8675")].
Proof.
  intros T files decode_ignore now log_path.
  unfold AIToolkitPayload.build_state_payload, AIToolkitTail.tail_lines,
    tail_lines_in.
  destruct (files log_path) as [content|].
  - split; [done|]. by intros p.
  - split; [done|]. by intros p [= <-].
Qed.

Lemma aitk_payload_answers_only_without_a_log_witness :
  (fun _ : string => @None (list Byte.byte)) "/ai_toolkit_setup.log" = None
  /\ AIToolkitPayload.timestamp
       {| AIToolkitPayload.timestamp := 0%Z;
          AIToolkitPayload.stages :=
            AIToolkit.compute_stage_states AIToolkit.AITK_STAGE_DEFS [] |}
     = 0%Z
  /\ (fun s => (AIToolkit.id s, AIToolkit.status s, AIToolkit.detail s))
       <$> AIToolkitPayload.stages
             {| AIToolkitPayload.timestamp := 0%Z;
                AIToolkitPayload.stages :=
                  AIToolkit.compute_stage_states
                    AIToolkit.AITK_STAGE_DEFS [] |}
     = [("repo", active, "Cloning ai-toolkit source");
        ("venv", pending, "Creating virtualenv and upgrading pip");
        ("deps", pending, "Installing requirements");
        ("ui-build", pending, "Preparing AI Toolkit UI");
        ("start", pending, "Starting ai-toolkit on :8675")].
Proof.
  apply (proj2 (aitk_payload_answers_only_without_a_log Z
                  (fun _ => None) String.string_of_list_byte 0%Z
                  "/ai_toolkit_setup.log")).
  reflexivity.
Defined.

End Payload.

(** * Patterns are matched without regard to case *)

Module ReFacts.

Import Re ReSpec.

Lemma in_class_lower k c :
  in_class k (Str.lower_char c) = in_class k c.
Proof.
  destruct k; cbn [in_class].
  - by destruct c as [[] [] [] [] [] [] [] []].
  - apply EnvFacts.is_space_lower_char.
  - by rewrite EnvFacts.is_space_lower_char.
  - unfold is_name_char. by rewrite EnvFacts.lower_char_idem.
  - by rewrite EnvFacts.lower_char_idem.
Qed.

Lemma eat_lower lit s : eat lit (Str.lower s) = Str.lower <$> eat lit s.
Proof.
  revert s. induction lit as [|a lit IH]; intros s; [done|].
  destruct s as [|b s]; [done|]. cbn [Str.lower eat].
  rewrite EnvFacts.lower_char_idem.
  by destruct (Ascii.eqb _ _).
Qed.

Lemma some_not_none {X} (x : X) (P : Prop) :
  (is_Some (Some x) <-> is_Some (@None X)) -> P.
Proof. intros [H _]. by destruct H as [? ?]. Qed.

Lemma none_not_some {X} (x : X) (P : Prop) :
  (is_Some (@None X) <-> is_Some (Some x)) -> P.
Proof. intros [_ H]. by destruct H as [? ?]. Qed.

Lemma some_some {X Y} (x : X) (y : Y) : is_Some (Some x) <-> is_Some (Some y).
Proof. by split. Qed.

Lemma star_lower k s g g' next next' :
  agree next next' ->
  is_Some (star k s g next) <-> is_Some (star k (Str.lower s) g' next').
Proof.
  intros Hnext. induction s as [|c s IH]; [apply (Hnext EmptyString)|].
  cbn [Str.lower star]. rewrite in_class_lower.
  destruct (in_class k c); [|apply (Hnext (String c s))].
  destruct (star k s g next), (star k (Str.lower s) g' next').
  - apply some_some.
  - by eapply some_not_none.
  - by eapply none_not_some.
  - apply (Hnext (String c s)).
Qed.

Lemma run_lower r :
  forall s g g' next next',
    agree next next' ->
    is_Some (run r s g next) <-> is_Some (run r (Str.lower s) g' next').
Proof.
  induction r as [t|k|k|r IH|r1 IH1 r2 IH2|r1 IH1 r2 IH2];
    intros s g g' next next' Hnext; cbn [run].
  - rewrite eat_lower. destruct (eat t s) as [s'|]; [apply Hnext|done].
  - by apply star_lower.
  - destruct s as [|c s]; [done|]. cbn [Str.lower].
    rewrite in_class_lower. destruct (in_class k c); [|done].
    by apply star_lower.
  - apply IH. intros t g0 g0'. apply Hnext.
  - apply IH1. intros t g0 g0'. by apply IH2.
  - pose proof (IH1 s g g' next next' Hnext) as H1.
    pose proof (IH2 s g g' next next' Hnext) as H2.
    destruct (run r1 s g next), (run r1 (Str.lower s) g' next').
    + apply some_some.
    + by eapply some_not_none.
    + by eapply none_not_some.
    + done.
Qed.

Lemma re_match_lower r s :
  is_Some (re_match r s) <-> is_Some (re_match r (Str.lower s)).
Proof. apply run_lower. by intros t g g'. Qed.

Lemma re_search_lower r s :
  is_Some (re_search r s) <-> is_Some (re_search r (Str.lower s)).
Proof.
  induction s as [|c s IH].
  - cbn [Str.lower re_search].
    pose proof (re_match_lower r EmptyString) as Hm. cbn [Str.lower] in Hm.
    by destruct (re_match r EmptyString), (re_match r EmptyString).
  - cbn [Str.lower re_search].
    pose proof (re_match_lower r (String c s)) as Hm. cbn [Str.lower] in Hm.
    destruct (re_match r (String c s)),
      (re_match r (String (Str.lower_char c) (Str.lower s))).
    + apply some_some.
    + by eapply some_not_none.
    + by eapply none_not_some.
    + done.
Qed.

Lemma found_lower r s : found r (Str.lower s) = found r s.
Proof.
  unfold found. pose proof (re_search_lower r s) as Hs.
  destruct (re_search r s), (re_search r (Str.lower s)); try done.
  - by eapply some_not_none.
  - by eapply none_not_some.
Qed.

Lemma any_search_lower patterns line :
  any_search patterns (Str.lower line) = any_search patterns line.
Proof.
  unfold any_search. induction patterns as [|p patterns IH]; [done|].
  simpl. by rewrite found_lower, IH.
Qed.

End ReFacts.

Module ComfyCase.

Import Comfy ComfySpec.

Section Facts.

Variable ENV_INFO : env_info.
Variable DEFS : list stage_def.
Context {N : Type}.
Variable bs : backup_state N.

Lemma match_line_lower defs stages stages' line :
  shape <$> stages' = shape <$> stages ->
  match_line defs stages' (Str.lower line) = match_line defs stages line.
Proof.
  intros Hshape. induction defs as [|[idx d] defs IH]; [done|].
  cbn [match_line]. rewrite (ComfyStages.skipped_at_shape _ _ _ Hshape).
  by rewrite ReFacts.any_search_lower, IH.
Qed.

Lemma scan_line_lower st st' line :
  shape <$> st'.1 = shape <$> st.1 -> st'.2 = st.2 ->
  shape <$> (scan_line DEFS st' (Str.lower line)).1
  = shape <$> (scan_line DEFS st line).1
  /\ (scan_line DEFS st' (Str.lower line)).2 = (scan_line DEFS st line).2.
Proof.
  intros Hshape Hcur. split.
  - by rewrite !ComfyStages.scan_line_shape.
  - unfold scan_line. rewrite (match_line_lower _ st.1) by done.
    by destruct (match_line _ _ _) as [[idx d]|].
Qed.

Lemma foldl_scan_lower lines st st' :
  shape <$> st'.1 = shape <$> st.1 -> st'.2 = st.2 ->
  shape <$> (foldl (scan_line DEFS) st' (Str.lower <$> lines)).1
  = shape <$> (foldl (scan_line DEFS) st lines).1
  /\ (foldl (scan_line DEFS) st' (Str.lower <$> lines)).2
     = (foldl (scan_line DEFS) st lines).2.
Proof.
  revert st st'. induction lines as [|l lines IH]; intros st st' Hs Hc;
    [done|].
  cbn [fmap list_fmap foldl].
  destruct (scan_line_lower st st' l Hs Hc) as [Hs' Hc']. by apply IH.
Qed.

Lemma settle_shape k stages stages' :
  shape <$> stages' = shape <$> stages ->
  shape <$> settle k stages' = shape <$> settle k stages.
Proof.
  intros Hshape. apply list_eq. intros i.
  rewrite !list_lookup_fmap, !ComfyStages.settle_lookup.
  pose proof (ComfyStages.shape_lookup _ _ i Hshape) as Hi.
  destruct (stages' !! i) as [s'|], (stages !! i) as [s|]; try done.
  simpl in *. injection Hi as Hid Hlabel Hstatus Hskipped.
  rewrite Hskipped. f_equal.
  destruct (skipped s) eqn:Hsk.
  - unfold shape. congruence.
  - destruct (i <? k), (i =? k); unfold shape; simpl; congruence.
Qed.

Lemma activate_first_shape stages stages' :
  shape <$> stages' = shape <$> stages ->
  shape <$> activate_first stages' = shape <$> activate_first stages.
Proof.
  revert stages'. induction stages as [|s stages IH]; intros [|s' stages'];
    try done.
  rewrite !fmap_cons. intros [= Hid Hlabel Hstatus Hskipped Hrest].
  cbn [activate_first]. rewrite Hskipped. destruct (skipped s) eqn:Hsk.
  - rewrite !fmap_cons, (IH _ Hrest). unfold shape. congruence.
  - rewrite !fmap_cons, Hrest. unfold shape. simpl. congruence.
Qed.

Lemma compute_lower lines :
  shape <$> compute_stage_states ENV_INFO DEFS (Str.lower <$> lines) bs
  = shape <$> compute_stage_states ENV_INFO DEFS lines bs.
Proof.
  unfold compute_stage_states.
  destruct (foldl_scan_lower lines
              (map (initial_stage ENV_INFO bs) DEFS, None)
              (map (initial_stage ENV_INFO bs) DEFS, None) eq_refl eq_refl)
    as [Hs Hc].
  destruct (foldl _ _ (Str.lower <$> lines)) as [stages' cur'].
  destruct (foldl _ _ lines) as [stages cur].
  cbn [fst snd] in *. subst cur'.
  destruct cur; [by apply settle_shape|by apply activate_first_shape].
Qed.

End Facts.

End ComfyCase.

Module AIToolkitCase.

Import AIToolkit AIToolkitSpec.

Section Facts.

Variable DEFS : list stage_def.

Lemma aitk_match_line_lower defs line :
  match_line defs (Str.lower line) = match_line defs line.
Proof.
  induction defs as [|[idx d] defs IH]; [done|].
  cbn [match_line]. by rewrite ReFacts.any_search_lower, IH.
Qed.

Lemma outline_alter_detail v (idx : nat) (stages : list stage) :
  (fun s => (id s, label s, status s)) <$> alter (set_detail v) idx stages
  = (fun s => (id s, label s, status s)) <$> stages.
Proof.
  rewrite (list_fmap_alter (fun s => (id s, label s, status s))
             (set_detail v) (fun x => x)).
  - by apply list_alter_id.
  - by apply Forall_forall.
Qed.

Lemma scan_line_outline st line :
  (fun s => (id s, label s, status s)) <$> (scan_line DEFS st line).1
  = (fun s => (id s, label s, status s)) <$> st.1.
Proof.
  unfold scan_line.
  destruct (match_line _ _) as [[idx d]|]; [|done]. simpl.
  destruct (d_detail_from_line d); [|done].
  destruct (truthy _); [|done]. apply outline_alter_detail.
Qed.

Lemma aitk_foldl_scan_lower lines st st' :
  (fun s => (id s, label s, status s)) <$> st'.1
  = (fun s => (id s, label s, status s)) <$> st.1 ->
  st'.2 = st.2 ->
  (fun s => (id s, label s, status s))
    <$> (foldl (scan_line DEFS) st' (Str.lower <$> lines)).1
  = (fun s => (id s, label s, status s))
      <$> (foldl (scan_line DEFS) st lines).1
  /\ (foldl (scan_line DEFS) st' (Str.lower <$> lines)).2
     = (foldl (scan_line DEFS) st lines).2.
Proof.
  revert st st'. induction lines as [|l lines IH]; intros st st' Hs Hc;
    [done|].
  cbn [fmap list_fmap foldl]. apply IH.
  - by rewrite !scan_line_outline.
  - unfold scan_line. rewrite aitk_match_line_lower.
    by destruct (match_line _ _) as [[idx d]|].
Qed.

Lemma aitk_compute_lower lines :
  (fun s => (id s, label s, status s))
    <$> compute_stage_states DEFS (Str.lower <$> lines)
  = (fun s => (id s, label s, status s)) <$> compute_stage_states DEFS lines.
Proof.
  unfold compute_stage_states.
  destruct (aitk_foldl_scan_lower lines (map initial_stage DEFS, None)
              (map initial_stage DEFS, None) eq_refl eq_refl) as [Hs Hc].
  destruct (foldl _ _ (Str.lower <$> lines)) as [stages' cur'].
  destruct (foldl _ _ lines) as [stages cur].
  cbn [fst snd] in *. subst cur'. destruct cur as [k|].
  - unfold settle. apply list_eq. intros i.
    rewrite !list_lookup_fmap, !list_lookup_imap.
    pose proof (f_equal (.!! i) Hs) as Hi. rewrite !list_lookup_fmap in Hi.
    destruct (stages' !! i) as [s'|], (stages !! i) as [s|]; try done.
    simpl in *. injection Hi as Hid Hlabel _.
    destruct (i <? k), (i =? k); simpl; by rewrite Hid, Hlabel.
  - destruct stages' as [|s' stages'], stages as [|s stages]; try done.
    cbn [activate_first]. rewrite !fmap_cons in *.
    injection Hs as Hid Hlabel _ Hrest. simpl. by rewrite Hid, Hlabel, Hrest.
Qed.

End Facts.

End AIToolkitCase.

Module StageCase.

(** X29.  For log lines of ASCII characters, the stages reported,
    their ids, labels, statuses and skipped flags, do not depend on the
    case of the letters: every pattern is matched without regard to
    case.  (Above ASCII the two scripts differ from this: [re.I] lets
    "i" match U+0130, which [str.lower] does not turn into "i".) *)
Theorem stage_statuses_ignore_case :
  (forall ENV_INFO DEFS N (bs : Comfy.backup_state N) lines,
     Forall (fun line => ReSpec.ascii_only line = true) lines ->
     ComfySpec.shape
       <$> Comfy.compute_stage_states ENV_INFO DEFS (Str.lower <$> lines) bs
     = ComfySpec.shape <$> Comfy.compute_stage_states ENV_INFO DEFS lines bs)
  /\ (forall DEFS lines,
        Forall (fun line => ReSpec.ascii_only line = true) lines ->
        (fun s => (AIToolkit.id s, AIToolkit.label s, AIToolkit.status s))
          <$> AIToolkit.compute_stage_states DEFS (Str.lower <$> lines)
        = (fun s => (AIToolkit.id s, AIToolkit.label s, AIToolkit.status s))
            <$> AIToolkit.compute_stage_states DEFS lines).
Proof.
  split.
  - intros. apply ComfyCase.compute_lower.
  - intros. apply AIToolkitCase.aitk_compute_lower.
Qed.

Lemma stage_statuses_ignore_case_witness :
  ComfySpec.shape
    <$> Comfy.compute_stage_states StageSamples.env_plain Comfy.STAGE_DEFS
          (Str.lower <$> ["CREATING VENV"; "Stage: Installing SageAttention"])
          StageSamples.backup_off
  = ComfySpec.shape
      <$> Comfy.compute_stage_states StageSamples.env_plain Comfy.STAGE_DEFS
            ["CREATING VENV"; "Stage: Installing SageAttention"]
            StageSamples.backup_off
  /\ (fun s => (AIToolkit.id s, AIToolkit.label s, AIToolkit.status s))
       <$> AIToolkit.compute_stage_states AIToolkit.AITK_STAGE_DEFS
             (Str.lower <$> ["[AI-Toolkit] Creating VENV"])
     = (fun s => (AIToolkit.id s, AIToolkit.label s, AIToolkit.status s))
         <$> AIToolkit.compute_stage_states AIToolkit.AITK_STAGE_DEFS
               ["[AI-Toolkit] Creating VENV"].
Proof.
  split.
  - apply (proj1 stage_statuses_ignore_case). by repeat constructor.
  - apply (proj2 stage_statuses_ignore_case). by repeat constructor.
Defined.

End StageCase.

(** * What a match tells about the line *)

Module ReReach.

Import Re ReSpec StrMore.

Lemma rest_of_refl s : rest_of s s.
Proof. by exists EmptyString. Qed.

Lemma rest_of_trans a b c : rest_of a b -> rest_of b c -> rest_of a c.
Proof.
  intros [p ->] [q ->]. exists (q +:+ p). by rewrite string_app_assoc.
Qed.

Lemma rest_of_tail c s : rest_of s (String c s).
Proof. by exists (String c EmptyString). Qed.

Lemma lower_app a b : Str.lower (a +:+ b) = Str.lower a +:+ Str.lower b.
Proof.
  induction a as [|c a IH]; [done|]. rewrite app_cons. simpl.
  by rewrite IH, app_cons.
Qed.

Lemma eat_rest lit s rest :
  eat lit s = Some rest ->
  Str.lower s = Str.lower lit +:+ Str.lower rest.
Proof.
  revert s. induction lit as [|a lit IH]; intros s; [by intros [= ->]|].
  destruct s as [|b s]; [done|]. cbn [eat].
  destruct (Ascii.eqb _ _) eqn:E; [|done].
  apply Ascii.eqb_eq in E. intros Hrest%IH. simpl.
  by rewrite app_cons, E, Hrest.
Qed.

Lemma eat_rest_of lit s rest : eat lit s = Some rest -> rest_of rest s.
Proof.
  revert s. induction lit as [|a lit IH]; intros s.
  - intros [= ->]. apply rest_of_refl.
  - destruct s as [|b s]; [done|]. cbn [eat].
    destruct (Ascii.eqb _ _); [|done]. intros Hrest%IH.
    eapply rest_of_trans; [exact Hrest|apply rest_of_tail].
Qed.

Lemma star_reaches k s g next :
  is_Some (star k s g next) ->
  exists t g', rest_of t s /\ is_Some (next t g').
Proof.
  induction s as [|c s IH]; cbn [star].
  - intros Hn. exists EmptyString, g. split; [apply rest_of_refl|done].
  - destruct (in_class k c);
      [|intros Hn; exists (String c s), g; split; [apply rest_of_refl|done]].
    destruct (star k s g next) as [r|].
    + intros _. destruct IH as (t & g' & Ht & Hn); [done|].
      exists t, g'. split; [|done].
      eapply rest_of_trans; [exact Ht|apply rest_of_tail].
    + intros Hn. exists (String c s), g. split; [apply rest_of_refl|done].
Qed.

(** When a pattern matches with a continuation, the continuation has
    succeeded on some rest of the text. *)
Lemma run_reaches r :
  forall s g next,
    is_Some (run r s g next) ->
    exists t g', rest_of t s /\ is_Some (next t g').
Proof.
  induction r as [lit|k|k|r IH|r1 IH1 r2 IH2|r1 IH1 r2 IH2];
    intros s g next; cbn [run].
  - destruct (eat lit s) as [s'|] eqn:E; [|by intros [? ?]].
    intros Hn. exists s', g. split; [by eapply eat_rest_of|done].
  - apply star_reaches.
  - destruct s as [|c s]; [by intros [? ?]|].
    destruct (in_class k c); [|by intros [? ?]].
    intros (t & g' & Ht & Hn)%star_reaches. exists t, g'. split; [|done].
    eapply rest_of_trans; [exact Ht|apply rest_of_tail].
  - intros (t & g' & Ht & Hn)%IH. by exists t, (g' ++ [consumed s t]).
  - intros (t1 & g1 & Ht1 & (t2 & g2 & Ht2 & Hn)%IH2)%IH1.
    exists t2, g2. split; [|done]. by eapply rest_of_trans.
  - destruct (run r1 s g next) as [res|] eqn:E.
    + intros _. apply (IH1 s g next). by rewrite E.
    + apply IH2.
Qed.

Lemma search_reaches r s :
  is_Some (re_search r s) ->
  exists t, rest_of t s /\ is_Some (re_match r t).
Proof.
  induction s as [|c s IH]; cbn [re_search].
  - destruct (re_match r EmptyString) eqn:E; [|by intros [? ?]].
    intros _. exists EmptyString. split; [apply rest_of_refl|by rewrite E].
  - destruct (re_match r (String c s)) eqn:E.
    + intros _. exists (String c s). split; [apply rest_of_refl|by rewrite E].
    + intros (t & Ht & Hm)%IH. exists t. split; [|done].
      eapply rest_of_trans; [exact Ht|apply rest_of_tail].
Qed.

(** A pattern that ends in a literal text is found only in lines that
    hold this text, letter case apart. *)
Lemma found_ends_in_literal r lit line :
  found (r · Lit lit) line = true ->
  exists p q, Str.lower line = p +:+ Str.lower lit +:+ q.
Proof.
  unfold found. destruct (re_search _ _) eqn:E; [|done]. intros _.
  destruct (search_reaches (r · Lit lit) line) as (t & [p0 Hp0] & Hm);
    [by rewrite E|].
  unfold re_match in Hm. cbn [run] in Hm.
  apply run_reaches in Hm as (t1 & g1 & [p1 Hp1] & Hlit).
  destruct (eat lit t1) as [rest|] eqn:Heat; [|by destruct Hlit].
  apply eat_rest in Heat.
  exists (Str.lower p0 +:+ Str.lower p1), (Str.lower rest).
  by rewrite Hp0, Hp1, !lower_app, Heat, !string_app_assoc.
Qed.

Lemma prefix_app a b : String.prefix a (a +:+ b) = true.
Proof.
  induction a as [|c a IH]; [by destruct b|].
  rewrite app_cons. simpl. by destruct (ascii_dec c c).
Qed.

Lemma contains_prefix needle s :
  String.prefix needle s = true -> Str.contains needle s = true.
Proof. destruct s; simpl; by intros ->. Qed.

Lemma contains_here a b : Str.contains a (a +:+ b) = true.
Proof. apply contains_prefix, prefix_app. Qed.

Lemma contains_later needle p s :
  Str.contains needle s = true -> Str.contains needle (p +:+ s) = true.
Proof.
  intros Hs. induction p as [|c p IH]; [done|].
  rewrite app_cons. simpl. rewrite IH. apply orb_true_r.
Qed.

Lemma contains_middle needle p q :
  Str.contains needle (p +:+ needle +:+ q) = true.
Proof. apply contains_later, contains_here. Qed.

End ReReach.

Module DetailRules.

Import Re.

Lemma found_cat_assoc r1 r2 r3 line :
  found (r1 · r2 · r3) line = found ((r1 · r2) · r3) line.
Proof.
  unfold found.
  assert (forall s, re_match (r1 · r2 · r3) s = re_match ((r1 · r2) · r3) s)
    as Hm by done.
  induction line as [|c line IH]; cbn [re_search]; rewrite Hm.
  - done.
  - destruct (re_match _ _); [done|]. apply IH.
Qed.

(** X30.  In ai_toolkit_wait_page.py a line of ASCII characters in
    which a pattern of the repo stage is found always sets the detail of
    that stage, to "Cloning fresh repo" or to "Updating existing repo":
    the detail rule of the stage never returns the current detail on
    such a line.  (Above ASCII it can: [re.I] finds "cloning" written
    with U+0130, which [str.lower] does not turn into "i".) *)
Theorem repo_line_always_sets_the_detail :
  forall d line current,
    ReSpec.ascii_only line = true ->
    AIToolkit.AITK_STAGE_DEFS !! 0 = Some d ->
    any_search (AIToolkit.d_patterns d) line = true ->
    AIToolkit.d_id d = "repo"
    /\ exists fn,
         AIToolkit.d_detail_from_line d = Some fn
         /\ (fn line current = "Cloning fresh repo"
             \/ fn line current = "Updating existing repo").
Proof.
  intros d line current _ [= <-]. cbn [AIToolkit.d_patterns AIToolkit.d_id
    AIToolkit.d_detail_from_line any_search existsb].
  rewrite orb_false_r. intros Hfound. split; [done|].
  exists AIToolkit._detail_repo. split; [done|].
  unfold AIToolkit._detail_repo.
  apply orb_true_iff in Hfound as [Hclone|Hupdate].
  - left. rewrite found_cat_assoc in Hclone.
    apply ReReach.found_ends_in_literal in Hclone as (p & q & ->).
    change (Str.lower "cloning repo") with ("cloning" +:+ " repo").
    rewrite (StrMore.string_app_assoc "cloning").
    by rewrite ReReach.contains_middle.
  - rewrite found_cat_assoc in Hupdate.
    apply ReReach.found_ends_in_literal in Hupdate as (p & q & ->).
    destruct (Str.contains "cloning" _); [by left|right].
    by rewrite ReReach.contains_middle.
Qed.

Lemma repo_line_always_sets_the_detail_witness :
  exists fn,
    Some AIToolkit._detail_repo = Some fn
    /\ (fn "[ai-toolkit] Updating repo in /workspace" "Cloning ai-toolkit source"
        = "Cloning fresh repo"
        \/ fn "[ai-toolkit] Updating repo in /workspace"
             "Cloning ai-toolkit source"
           = "Updating existing repo").
Proof.
  apply (proj2 (repo_line_always_sets_the_detail _
                  "[ai-toolkit] Updating repo in /workspace"
                  "Cloning ai-toolkit source" eq_refl eq_refl eq_refl)).
Defined.

End DetailRules.
